(** * dscompress: replacing measurement-set columns by Dysco-compressed ones

    A shallow embedding of [dscompress.cpp] (the [main] function and
    [createDyscoStManColumn]) together with the properties of the
    flag-to-NaN pass and of the column migration that follows it.

    The table library (casacore) is modelled by a small in-memory table:
    columns are kept in a finite map, a column is a vector of row arrays.
    The classes [DyscoStMan] and [StManModifier] come from headers
    ([dyscostman.h], [stmanmodifier.h]) whose text is not at hand; every
    call into them goes through the [Host] interface below and is recorded
    in the trace of the run. *)

From Stdlib Require Import ZArith String Ascii List Lia Bool.
From stdpp Require Import gmap strings list fin_maps.

Local Open Scope Z_scope.

(** ** Values *)

(** A [float] is an IEEE-754 binary32 value, kept as its 32-bit pattern. *)
Definition float := Z.

(** [std::numeric_limits<float>::quiet_NaN()]: exponent all ones, the top
    mantissa bit set. *)
Definition quiet_NaN : float := 0x7fc00000.

Definition isnan (x : float) : bool :=
  (Z.land (Z.shiftr x 23) 0xff =? 0xff) && negb (Z.land x 0x7fffff =? 0).

Definition is_quiet (x : float) : bool := Z.testbit x 22.

(** [std::complex<float>] *)
Record Complex := mkComplex { real : float; imag : float }.

(** [double] values are never computed with by the tool, only passed on:
    they are kept symbolically (two literals of the source and the result
    of [atof] on a command-line word). *)
Inductive double :=
| d_2_5
| d_1_0
| d_atof (word : string).

Inductive DyscoDistribution :=
| GaussianDistribution
| UniformDistribution
| StudentsTDistribution
| TruncatedGaussianDistribution.

Inductive DyscoNormalization :=
| AFNormalization
| RFNormalization
| RowNormalization.

(** The template argument of [createDyscoStManColumn], [PrepareReplacingColumn]
    and [MoveColumnData]. *)
Inductive ElemType := TpFloat | TpComplex.

(** ** Outcomes *)

(** A C++ computation returns, throws, or has undefined behaviour. *)
Inductive Res (A : Type) :=
| Ok (a : A)
| Throw (what : string)
| Undefined.
Arguments Ok {A} a.
Arguments Throw {A} what.
Arguments Undefined {A}.

Definition res_bind {A B} (r : Res A) (k : A -> Res B) : Res B :=
  match r with
  | Ok a => k a
  | Throw m => Throw m
  | Undefined => Undefined
  end.

Definition res_map {A B} (f : A -> B) (r : Res A) : Res B :=
  res_bind r (fun a => Ok (f a)).

(** ** The table *)

Definition IPosition := list nat.

Record Array (T : Type) := mkArray { shape : IPosition; elems : list T }.
Arguments mkArray {T} shape elems.
Arguments shape {T} a.
Arguments elems {T} a.

Inductive ColumnData :=
| ComplexColumn (rows : list (Array Complex))
| FloatColumn (rows : list (Array float))
| BoolColumn (rows : list (Array bool)).

Record Column := mkColumn { colDataManager : string; colData : ColumnData }.

(** Modelled from the spec: the configuration held by a compressing storage
    manager (the class [DyscoStMan] of [dyscostman.h], whose text is not at
    hand): bit-widths for values and weights, the distribution with its
    parameters, and the normalization. *)
Record DyscoStMan := mkDyscoStMan {
  dataBitCount : Z;
  weightBitCount : Z;
  dmDistribution : DyscoDistribution;
  dmStudentTNu : double;
  dmTruncation : double;
  dmNormalization : DyscoNormalization
}.

(** A data manager of a table; only Dysco managers carry a configuration. *)
Inductive DataManager :=
| OtherStMan
| DyscoManager (conf : DyscoStMan).

Record Table := mkTable {
  nrow : nat;
  columns : gmap string Column;
  dataManagers : gmap string DataManager
}.

(** ** Traces *)

(** One event per call that [main] and [createDyscoStManColumn] make on the
    table, on a storage manager or on the [StManModifier]. *)
Inductive Event :=
| OpenUpdate (msPath : string)
| Get (column : string) (row : nat)
| Put (column : string) (row : nat)
| Prepare (T : ElemType) (column : string) (bitsPerComplex bitsPerWeight : Z)
    (replaced : option bool)
| FindDataManager (name : string)
| NewDyscoStMan (bitsPerComplex bitsPerWeight : Z)
| SetGaussian
| SetUniform
| SetStudentsT (nu : double)
| SetTruncatedGaussian (truncation : double)
| SetNorm (n : DyscoNormalization)
| AddColumnNew (T : ElemType) (column : string) (sh : IPosition) (dm : DyscoStMan)
| AddColumnExisting (T : ElemType) (column : string) (sh : IPosition)
| MoveData (T : ElemType) (column : string)
| ReorderTable (msPath : string).

Record World := mkWorld { ms : Table; trace : list Event }.

(** ** A state-and-exception monad over [World] *)

Definition M (A : Type) := World -> Res A * World.

Definition ret {A} (a : A) : M A := fun w => (Ok a, w).

Definition bind {A B} (m : M A) (k : A -> M B) : M B :=
  fun w =>
    match m w with
    | (Ok a, w') => k a w'
    | (Throw e, w') => (Throw e, w')
    | (Undefined, w') => (Undefined, w')
    end.

Notation "x <- m ;; k" := (bind m (fun x => k))
  (at level 100, m at next level, right associativity).
Notation "m ;;; k" := (bind m (fun _ => k))
  (at level 100, right associativity).

Definition throw {A} (what : string) : M A := fun w => (Throw what, w).

Definition lift {A} (r : Res A) : M A := fun w => (r, w).

Definition emit (e : Event) : M unit :=
  fun w => (Ok tt, mkWorld (ms w) (trace w ++ [e])).

Definition getTable : M Table := fun w => (Ok (ms w), w).

Definition setTable (t : Table) : M unit :=
  fun w => (Ok tt, mkWorld t (trace w)).

(** A call into code that works on the table. *)
Definition onTable {A} (f : Table -> Res A * Table) : M A :=
  fun w => let '(r, t) := f (ms w) in (r, mkWorld t (trace w)).

(** [for (x : xs) body] *)
Fixpoint forEach {A} (xs : list A) (body : A -> M unit) : M unit :=
  match xs with
  | [] => ret tt
  | x :: xs' => body x ;;; forEach xs' body
  end.

(** ** casacore: array columns *)

Definition complexRows (t : Table) (c : string) : option (list (Array Complex)) :=
  match columns t !! c with
  | Some (mkColumn _ (ComplexColumn rows)) => Some rows
  | _ => None
  end.

Definition boolRows (t : Table) (c : string) : option (list (Array bool)) :=
  match columns t !! c with
  | Some (mkColumn _ (BoolColumn rows)) => Some rows
  | _ => None
  end.

(** [casacore::ArrayColumn<std::complex<float>> col(ms, name)]: throws when
    the column does not exist or holds another data type. *)
Definition ArrayColumn_Complex (name : string) : M unit :=
  t <- getTable ;;
  match complexRows t name with
  | Some _ => ret tt
  | None => throw "ArrayColumn: no such column of this data type"
  end.

(** [casacore::ArrayColumn<bool> col(ms, name)] *)
Definition ArrayColumn_bool (name : string) : M unit :=
  t <- getTable ;;
  match boolRows t name with
  | Some _ => ret tt
  | None => throw "ArrayColumn: no such column of this data type"
  end.

Definition rowShape {T} (rows : option (list (Array T))) (row : nat) : M IPosition :=
  match rows with
  | Some rs =>
      match rs !! row with
      | Some a => ret (shape a)
      | None => throw "row number out of range"
      end
  | None => throw "ArrayColumn: no such column of this data type"
  end.

(** [col.shape(row)] *)
Definition shape_Complex (name : string) (row : nat) : M IPosition :=
  t <- getTable ;; rowShape (complexRows t name) row.

Definition shape_bool (name : string) (row : nat) : M IPosition :=
  t <- getTable ;; rowShape (boolRows t name) row.

(** The number of elements of an array of a given shape; an array without
    dimensions has none. *)
Definition nelements (sh : IPosition) : nat :=
  match sh with
  | [] => 0%nat
  | _ => fold_right Nat.mul 1%nat sh
  end.

(** [Array<T> arr(sh)] *)
Definition newArray {T} (zero : T) (sh : IPosition) : Array T :=
  mkArray sh (repeat zero (nelements sh)).

(** A buffer takes a row of its own shape; a buffer without elements is
    resized to the shape of the row. *)
Definition conforms (buffer row : IPosition) : bool :=
  bool_decide (row = buffer) || (nelements buffer =? 0)%nat.

Definition fetch {T} (rows : option (list (Array T))) (row : nat) (arr : Array T)
  : M (Array T) :=
  match rows with
  | Some rs =>
      match rs !! row with
      | Some a =>
          if conforms (shape arr) (shape a) then ret a
          else throw "ArrayColumn::get: array shapes do not conform"
      | None => throw "row number out of range"
      end
  | None => throw "ArrayColumn: no such column of this data type"
  end.

(** [col.get(row, arr)]: the row is copied into the buffer [arr]; a row of
    another shape is refused, unless the buffer is empty.  The result is the
    buffer after the call. *)
Definition get_Complex (name : string) (row : nat) (arr : Array Complex)
  : M (Array Complex) :=
  emit (Get name row) ;;;
  t <- getTable ;; fetch (complexRows t name) row arr.

Definition get_bool (name : string) (row : nat) (arr : Array bool) : M (Array bool) :=
  emit (Get name row) ;;;
  t <- getTable ;; fetch (boolRows t name) row arr.

(** [col.put(row, arr)]: the row is stored as given (what a storage manager
    makes of the values when it encodes them is not modelled). *)
Definition put_Complex (name : string) (row : nat) (arr : Array Complex) : M unit :=
  emit (Put name row) ;;;
  t <- getTable ;;
  match columns t !! name with
  | Some (mkColumn dm (ComplexColumn rows)) =>
      if decide (row < length rows)%nat then
        setTable (mkTable (nrow t)
                    (<[name := mkColumn dm (ComplexColumn (<[row := arr]> rows))]>
                       (columns t))
                    (dataManagers t))
      else throw "row number out of range"
  | _ => throw "ArrayColumn: no such column of this data type"
  end.

(** ** The flag-to-NaN pass (lines 226-252 of [main]) *)

(** The loop over the cells of one row: [d] runs over the data buffer, [f]
    over the flag buffer; reading [*f] behind the end of the flag buffer is
    undefined. *)
Fixpoint replaceFlagged (d : list Complex) (f : list bool) (isChanged : bool)
  : Res (list Complex * bool) :=
  match d with
  | [] => Ok ([], isChanged)
  | x :: d' =>
      match f with
      | [] => Undefined
      | b :: f' =>
          if b then
            res_map (fun '(r, ch) => (mkComplex quiet_NaN quiet_NaN :: r, ch))
                    (replaceFlagged d' f' true)
          else
            res_map (fun '(r, ch) => (x :: r, ch))
                    (replaceFlagged d' f' isChanged)
      end
  end.

Definition FLAG : string := "FLAG".
Definition WEIGHT_SPECTRUM : string := "WEIGHT_SPECTRUM".

(** The body of the loop over the rows (lines 236-249); [dataArr] and
    [flagArr] are the two buffers, which live across the rows. *)
Definition replaceFlaggedRow (columnName : string) (row : nat)
  (dataArr : Array Complex) (flagArr : Array bool) : M (Array Complex * Array bool) :=
  dataArr <- get_Complex columnName row dataArr ;;
  flagArr <- get_bool FLAG row flagArr ;;
  r <- lift (replaceFlagged (elems dataArr) (elems flagArr) false) ;;
  let '(cells, isChanged) := r in
  let dataArr := mkArray (shape dataArr) cells in
  (if isChanged then put_Complex columnName row dataArr else ret tt) ;;;
  ret (dataArr, flagArr).

(** [for (size_t row = 0; row != ms->nrow(); ++row)] *)
Fixpoint replaceFlaggedRows (columnName : string) (rows : list nat)
  (dataArr : Array Complex) (flagArr : Array bool) : M unit :=
  match rows with
  | [] => ret tt
  | row :: rows' =>
      r <- replaceFlaggedRow columnName row dataArr flagArr ;;
      let '(dataArr', flagArr') := r in
      replaceFlaggedRows columnName rows' dataArr' flagArr'
  end.

Definition replaceFlaggedColumn (columnName : string) : M unit :=
  if decide (columnName = WEIGHT_SPECTRUM) then ret tt
  else
    ArrayColumn_Complex columnName ;;;
    ArrayColumn_bool FLAG ;;;
    dsh <- shape_Complex columnName 0 ;;
    fsh <- shape_bool FLAG 0 ;;
    t <- getTable ;;
    replaceFlaggedRows columnName (seq 0 (nrow t))
      (newArray (mkComplex 0 0) dsh) (newArray false fsh).

Definition replaceFlaggedValues (columnNames : list string) : M unit :=
  forEach columnNames replaceFlaggedColumn.

(** ** casacore: data managers and new columns *)

Definition DyscoStManName : string := "DyscoStMan".

(** The cells of a column that has just been added. *)
Definition freshColumn (T : ElemType) (n : nat) (sh : IPosition) : ColumnData :=
  match T with
  | TpFloat => FloatColumn (repeat (newArray 0 sh) n)
  | TpComplex => ComplexColumn (repeat (newArray (mkComplex 0 0) sh) n)
  end.

(** [ms.findDataManager(name)]: throws when the table has no such manager. *)
Definition findDataManager (name : string) : M DataManager :=
  emit (FindDataManager name) ;;;
  t <- getTable ;;
  match dataManagers t !! name with
  | Some dm => ret dm
  | None => throw "Data manager not found"
  end.

(** [ms.addColumn(columnDesc, dataManager)]: the column is bound to a new
    data manager, which becomes part of the table.  A column name that is
    in use is refused. *)
Definition addColumn_new (T : ElemType) (name : string) (sh : IPosition) (dm : DyscoStMan)
  : M unit :=
  emit (AddColumnNew T name sh dm) ;;;
  t <- getTable ;;
  match columns t !! name with
  | Some _ => throw "addColumn: column already exists"
  | None =>
      setTable (mkTable (nrow t)
                  (<[name := mkColumn DyscoStManName (freshColumn T (nrow t) sh)]> (columns t))
                  (<[DyscoStManName := DyscoManager dm]> (dataManagers t)))
  end.

(** [ms.addColumn(columnDesc, "DyscoStMan", false)]: the column is bound to
    the data manager of that type which the table already has. *)
Definition addColumn_existing (T : ElemType) (name : string) (sh : IPosition) : M unit :=
  emit (AddColumnExisting T name sh) ;;;
  t <- getTable ;;
  match columns t !! name with
  | Some _ => throw "addColumn: column already exists"
  | None =>
      match dataManagers t !! DyscoStManName with
      | Some _ =>
          setTable (mkTable (nrow t)
                      (<[name := mkColumn DyscoStManName (freshColumn T (nrow t) sh)]> (columns t))
                      (dataManagers t))
      | None => throw "addColumn: no such data manager"
      end
  end.

(** ** The classes of the headers *)

(** The member functions of [DyscoStMan] ([dyscostman.h]) and of
    [StManModifier] ([stmanmodifier.h]) that [dscompress.cpp] calls; what
    they do is left open.  The functions of [StManModifier] work on the
    table the modifier was built on ([StManModifier modifier( *ms )]);
    [shape] is passed by reference to [PrepareReplacingColumn] and is
    returned with the result. *)
Class Host := {
  DyscoStMan_new : Z -> Z -> Res DyscoStMan;
  SetGaussianDistribution : DyscoStMan -> Res DyscoStMan;
  SetUniformDistribution : DyscoStMan -> Res DyscoStMan;
  SetStudentsTDistribution : double -> DyscoStMan -> Res DyscoStMan;
  SetTruncatedGaussianDistribution : double -> DyscoStMan -> Res DyscoStMan;
  SetNormalization : DyscoNormalization -> DyscoStMan -> Res DyscoStMan;
  PrepareReplacingColumn :
    ElemType -> string -> string -> Z -> Z -> IPosition -> Table ->
    Res (bool * IPosition) * Table;
  MoveColumnData : ElemType -> string -> Table -> Res unit * Table;
  Reorder : string -> Table -> Res unit * Table
}.

(** The options of a run: the local variables of [main] that the command
    line sets. *)
Record Options := mkOptions {
  distribution : DyscoDistribution;
  normalization : DyscoNormalization;
  reorder : bool;
  bitsPerFloat : Z;
  bitsPerWeight : Z;
  distributionTruncation : double;
  columnNames : list string
}.

(** ** The command line (lines 110-177 of [main]) *)

Definition isspace (c : ascii) : bool :=
  let n := nat_of_ascii c in
  (n =? 32)%nat || ((9 <=? n)%nat && (n <=? 13)%nat).

Definition isdigit (c : ascii) : bool :=
  let n := nat_of_ascii c in (48 <=? n)%nat && (n <=? 57)%nat.

Fixpoint skipSpaces (s : string) : string :=
  match s with
  | String c s' => if isspace c then skipSpaces s' else s
  | EmptyString => s
  end.

Fixpoint digitsValue (acc : Z) (s : string) : Z :=
  match s with
  | String c s' =>
      if isdigit c then digitsValue (acc * 10 + (Z.of_nat (nat_of_ascii c) - 48)) s'
      else acc
  | EmptyString => acc
  end.

(** [atoi]: white space, an optional sign, decimal digits; a value that an
    [int] cannot hold is undefined behaviour. *)
Definition atoi (s : string) : Res Z :=
  let s1 := skipSpaces s in
  let '(neg, s2) :=
    match s1 with
    | String "-" r => (true, r)
    | String "+" r => (false, r)
    | _ => (false, s1)
    end in
  let v := digitsValue 0 s2 in
  let v := if neg : bool then - v else v in
  if (- 2 ^ 31 <=? v) && (v <? 2 ^ 31) then Ok v else Undefined.

(** Conversion of an [int] to [unsigned]. *)
Definition to_unsigned (v : Z) : Z := v mod 2 ^ 32.

Definition defaults : Options :=
  mkOptions TruncatedGaussianDistribution AFNormalization false 8 12 d_2_5 [].

Definition set_bitsPerFloat (n : Z) (o : Options) : Options :=
  mkOptions (distribution o) (normalization o) (reorder o) n (bitsPerWeight o)
    (distributionTruncation o) (columnNames o).

Definition set_bitsPerWeight (n : Z) (o : Options) : Options :=
  mkOptions (distribution o) (normalization o) (reorder o) (bitsPerFloat o) n
    (distributionTruncation o) (columnNames o).

Definition set_reorder (b : bool) (o : Options) : Options :=
  mkOptions (distribution o) (normalization o) b (bitsPerFloat o) (bitsPerWeight o)
    (distributionTruncation o) (columnNames o).

Definition set_distribution (d : DyscoDistribution) (o : Options) : Options :=
  mkOptions d (normalization o) (reorder o) (bitsPerFloat o) (bitsPerWeight o)
    (distributionTruncation o) (columnNames o).

Definition set_distributionTruncation (x : double) (o : Options) : Options :=
  mkOptions (distribution o) (normalization o) (reorder o) (bitsPerFloat o)
    (bitsPerWeight o) x (columnNames o).

Definition set_normalization (n : DyscoNormalization) (o : Options) : Options :=
  mkOptions (distribution o) n (reorder o) (bitsPerFloat o) (bitsPerWeight o)
    (distributionTruncation o) (columnNames o).

Definition push_columnName (c : string) (o : Options) : Options :=
  mkOptions (distribution o) (normalization o) (reorder o) (bitsPerFloat o)
    (bitsPerWeight o) (distributionTruncation o) (columnNames o ++ [c]).

(** The loop [while (argi < argc && argv[argi][0] == '-')]: [args] is
    [argv[argi], ..., argv[argc-1]].  The result is the options and the
    words left.  An option that takes a value and is the last word reads
    [argv[argc]], a null pointer: undefined behaviour. *)
Fixpoint parseOptions (args : list string) (o : Options) : Res (Options * list string) :=
  match args with
  | [] => Ok (o, [])
  | arg :: rest =>
      match arg with
      | EmptyString => Ok (o, args)
      | String c0 p =>
          if negb (bool_decide (c0 = "-"%char)) then Ok (o, args)
          else if decide (p = "data-bit-rate") then
            match rest with
            | [] => Undefined
            | v :: rest' =>
                res_bind (atoi v) (fun n =>
                  parseOptions rest' (set_bitsPerFloat (to_unsigned n) o))
            end
          else if decide (p = "weight-bit-rate") then
            match rest with
            | [] => Undefined
            | v :: rest' =>
                res_bind (atoi v) (fun n =>
                  parseOptions rest' (set_bitsPerWeight (to_unsigned n) o))
            end
          else if decide (p = "reorder") then
            parseOptions rest (set_reorder true o)
          else if decide (p = "gaussian") then
            parseOptions rest (set_distribution GaussianDistribution o)
          else if decide (p = "uniform") then
            parseOptions rest (set_distribution UniformDistribution o)
          else if decide (p = "studentt") then
            parseOptions rest (set_distribution StudentsTDistribution o)
          else if decide (p = "truncgaus") then
            match rest with
            | [] => Undefined
            | v :: rest' =>
                parseOptions rest'
                  (set_distributionTruncation (d_atof v)
                     (set_distribution TruncatedGaussianDistribution o))
            end
          else if decide (p = "column") then
            match rest with
            | [] => Undefined
            | v :: rest' => parseOptions rest' (push_columnName v o)
            end
          else if decide (p = "rfnormalization") then
            parseOptions rest (set_normalization RFNormalization o)
          else if decide (p = "afnormalization") then
            parseOptions rest (set_normalization AFNormalization o)
          else if decide (p = "rownormalization") then
            parseOptions rest (set_normalization RowNormalization o)
          else Throw ("Invalid parameter: " +:+ arg)
      end
  end.

(** Lines 175-176. *)
Definition defaultColumn (o : Options) : Options :=
  match columnNames o with
  | [] => push_columnName "DATA" o
  | _ => o
  end.

Section Program.
Context `{H : Host}.

(** ** [createDyscoStManColumn] *)

Definition setDistribution (d : DyscoDistribution) (studentsTNu truncation : double)
  (dataManager : DyscoStMan) : M DyscoStMan :=
  match d with
  | GaussianDistribution =>
      emit SetGaussian ;;; lift (SetGaussianDistribution dataManager)
  | UniformDistribution =>
      emit SetUniform ;;; lift (SetUniformDistribution dataManager)
  | StudentsTDistribution =>
      emit (SetStudentsT studentsTNu) ;;;
      lift (SetStudentsTDistribution studentsTNu dataManager)
  | TruncatedGaussianDistribution =>
      emit (SetTruncatedGaussian truncation) ;;;
      lift (SetTruncatedGaussianDistribution truncation dataManager)
  end.

Definition createDyscoStManColumn (T : ElemType) (name : string) (sh : IPosition)
  (bitsPerComplex bitsPerWeight : Z) (normalization : DyscoNormalization)
  (distribution : DyscoDistribution) (studentsTNu distributionTruncation : double)
  : M unit :=
  fun w =>
    match findDataManager DyscoStManName w with
    | (Ok _, w1) =>
        (* isAlreadyUsed = true *)
        addColumn_existing T name sh w1
    | (Throw _, w1) =>
        (* catch (std::exception&) *)
        (emit (NewDyscoStMan bitsPerComplex bitsPerWeight) ;;;
         dataManager <- lift (DyscoStMan_new bitsPerComplex bitsPerWeight) ;;
         dataManager <- setDistribution distribution studentsTNu distributionTruncation
                          dataManager ;;
         emit (SetNorm normalization) ;;;
         dataManager <- lift (SetNormalization normalization dataManager) ;;
         addColumn_new T name sh dataManager) w1
    | (Undefined, w1) => (Undefined, w1)
    end.

(** ** The migration (lines 257-290 of [main]) *)

Definition elemTypeOf (columnName : string) : ElemType :=
  if decide (columnName = WEIGHT_SPECTRUM) then TpFloat else TpComplex.

Definition replacedOf (r : Res (bool * IPosition)) : option bool :=
  match r with
  | Ok (b, _) => Some b
  | _ => None
  end.

(** [modifier.PrepareReplacingColumn<T>(columnName, "DyscoStMan", ...)];
    the event carries the bit-widths passed and the value returned. *)
Definition callPrepare (T : ElemType) (columnName : string) (bitsF bitsW : Z)
  (sh : IPosition) : M (bool * IPosition) :=
  fun w =>
    let '(r, t) := PrepareReplacingColumn T columnName DyscoStManName bitsF bitsW sh (ms w) in
    (r, mkWorld t (trace w ++ [Prepare T columnName bitsF bitsW (replacedOf r)])).

Definition callMove (T : ElemType) (columnName : string) : M unit :=
  emit (MoveData T columnName) ;;; onTable (MoveColumnData T columnName).

Definition callReorder (msPath : string) : M unit :=
  emit (ReorderTable msPath) ;;; onTable (Reorder msPath).

(** The loop of lines 261-269; [shape] and [isDataReplaced] are its state. *)
Fixpoint prepareColumns (names : list string) (bitsF bitsW : Z)
  (sh : IPosition) (isDataReplaced : bool) : M (IPosition * bool) :=
  match names with
  | [] => ret (sh, isDataReplaced)
  | columnName :: names' =>
      r <- callPrepare (elemTypeOf columnName) columnName bitsF bitsW sh ;;
      let '(replaced, sh') := r in
      prepareColumns names' bitsF bitsW sh' (replaced || isDataReplaced)
  end.

Definition replaceColumns (o : Options) (msPath : string) (sh : IPosition) : M unit :=
  forEach (columnNames o) (fun columnName =>
    createDyscoStManColumn (elemTypeOf columnName) columnName sh
      (bitsPerFloat o) (bitsPerWeight o) (normalization o) (distribution o)
      d_1_0 (distributionTruncation o)) ;;;
  forEach (columnNames o) (fun columnName =>
    callMove (elemTypeOf columnName) columnName) ;;;
  if reorder o then callReorder msPath else ret tt.

Definition migrate (o : Options) (msPath : string) : M unit :=
  r <- prepareColumns (columnNames o) (bitsPerFloat o) (bitsPerWeight o) [] false ;;
  let '(sh, isDataReplaced) := r in
  if isDataReplaced then replaceColumns o msPath sh else ret tt.

(** Lines 221-292: what runs once the table is open. *)
Definition compress (o : Options) (msPath : string) : M unit :=
  replaceFlaggedValues (columnNames o) ;;;
  migrate o msPath.

(** ** [main]

    [argv] holds the [argc] words of the command line; [disk] is the table
    found at a path, if any.  The result is the value returned (or the
    failure) and, when a table was opened, the table and the trace of the
    run. *)
Definition main (argv : list string) (disk : string -> option Table)
  : Res Z * option World :=
  if decide (length argv < 2)%nat then (Ok 0, None)
  else
    match parseOptions (tail argv) defaults with
    | Ok (o, rest) =>
        match rest with
        | [] => (Undefined, None)
        | msPath :: _ =>
            match disk msPath with
            | Some t =>
                let '(r, w) :=
                  compress (defaultColumn o) msPath (mkWorld t [OpenUpdate msPath]) in
                (res_map (fun _ => 0) r, Some w)
            | None => (Throw "Table does not exist", None)
            end
        end
    | Throw what => (Throw what, None)
    | Undefined => (Undefined, None)
    end.

End Program.

(** ** A reference host *)

(** Modelled from the spec: constructing a manager with a data or weight
    bit-width of 0 is refused (4.1).  The fields that no setter has written
    yet hold the defaults of the tool. *)
Definition ref_DyscoStMan_new (bitsPerComplex bitsPerWeight : Z) : Res DyscoStMan :=
  if (bitsPerComplex =? 0) || (bitsPerWeight =? 0)
  then Throw "Invalid bit count"
  else Ok (mkDyscoStMan bitsPerComplex bitsPerWeight
             TruncatedGaussianDistribution d_1_0 d_2_5 AFNormalization).

(** Modelled from the spec: selecting a distribution overwrites any prior
    choice, and the same for the normalization (4.1).  The comparison of a
    parameter with 0 is a computation on [double] values and is left out:
    these setters accept every parameter. *)
Definition ref_SetDistribution (d : DyscoDistribution) (dm : DyscoStMan) : DyscoStMan :=
  mkDyscoStMan (dataBitCount dm) (weightBitCount dm) d
    (dmStudentTNu dm) (dmTruncation dm) (dmNormalization dm).

Definition ref_SetStudentsT (nu : double) (dm : DyscoStMan) : DyscoStMan :=
  mkDyscoStMan (dataBitCount dm) (weightBitCount dm) StudentsTDistribution
    nu (dmTruncation dm) (dmNormalization dm).

Definition ref_SetTruncatedGaussian (x : double) (dm : DyscoStMan) : DyscoStMan :=
  mkDyscoStMan (dataBitCount dm) (weightBitCount dm) TruncatedGaussianDistribution
    (dmStudentTNu dm) x (dmNormalization dm).

Definition ref_SetNormalization (n : DyscoNormalization) (dm : DyscoStMan) : DyscoStMan :=
  mkDyscoStMan (dataBitCount dm) (weightBitCount dm) (dmDistribution dm)
    (dmStudentTNu dm) (dmTruncation dm) n.

Definition columnShape (d : ColumnData) : option IPosition :=
  match d with
  | ComplexColumn rows => shape <$> rows !! 0%nat
  | FloatColumn rows => shape <$> rows !! 0%nat
  | BoolColumn rows => shape <$> rows !! 0%nat
  end.

Definition holds (T : ElemType) (d : ColumnData) : bool :=
  match T, d with
  | TpFloat, FloatColumn _ => true
  | TpComplex, ComplexColumn _ => true
  | _, _ => false
  end.

Definition tempName (columnName : string) : string := "TEMP_" +:+ columnName.

(** Modelled from the spec: the first step of 4.3.  A column that is bound
    to the target manager needs no replacement and nothing is done for it.
    Otherwise its shape is recorded, a shape that differs from the one
    recorded before is refused, and the old column is set aside under a
    temporary name, so that a column of the same name can be defined and
    filled from it. *)
Definition ref_PrepareReplacingColumn (T : ElemType) (columnName newDataManager : string)
  (bitsPerComplex bitsPerWeight : Z) (sh : IPosition) (t : Table)
  : Res (bool * IPosition) * Table :=
  match columns t !! columnName with
  | None => (Throw "Column does not exist", t)
  | Some col =>
      if negb (holds T (colData col)) then (Throw "Invalid data type", t)
      else if decide (colDataManager col = newDataManager) then (Ok (false, sh), t)
      else
        match columnShape (colData col) with
        | None => (Throw "row number out of range", t)
        | Some s =>
            if decide (sh = [] \/ sh = s) then
              (Ok (true, s),
               mkTable (nrow t)
                 (<[tempName columnName := col]> (delete columnName (columns t)))
                 (dataManagers t))
            else (Throw "Columns differ in shape", t)
        end
  end.

(** Modelled from the spec: every row of the old column is copied to the new
    one as it is (4.3); the old column is then dropped. *)
Definition ref_MoveColumnData (T : ElemType) (columnName : string) (t : Table)
  : Res unit * Table :=
  match columns t !! tempName columnName, columns t !! columnName with
  | Some old, Some new =>
      if holds T (colData old) && holds T (colData new) then
        (Ok tt,
         mkTable (nrow t)
           (<[columnName := mkColumn (colDataManager new) (colData old)]>
              (delete (tempName columnName) (columns t)))
           (dataManagers t))
      else (Throw "Invalid data type", t)
  | _, _ => (Throw "Column does not exist", t)
  end.

(** Modelled from the spec: compaction rewrites the storage of the table and
    leaves it openable under its path (4.4); the rows are kept. *)
Definition ref_Reorder (msPath : string) (t : Table) : Res unit * Table := (Ok tt, t).

Definition refHost : Host := {|
  DyscoStMan_new := ref_DyscoStMan_new;
  SetGaussianDistribution dm := Ok (ref_SetDistribution GaussianDistribution dm);
  SetUniformDistribution dm := Ok (ref_SetDistribution UniformDistribution dm);
  SetStudentsTDistribution nu dm := Ok (ref_SetStudentsT nu dm);
  SetTruncatedGaussianDistribution x dm := Ok (ref_SetTruncatedGaussian x dm);
  SetNormalization n dm := Ok (ref_SetNormalization n dm);
  PrepareReplacingColumn := ref_PrepareReplacingColumn;
  MoveColumnData := ref_MoveColumnData;
  Reorder := ref_Reorder
|}.

(** ** Sample tables *)

Definition cx (re im : Z) : Complex := mkComplex re im.

Definition row1 {T} (cells : list T) : Array T := mkArray [length cells] cells.

(** Two rows of two visibilities; the second cell of the first row is
    flagged. *)
Definition sampleTable : Table :=
  mkTable 2
    (<["DATA" := mkColumn "StandardStMan"
         (ComplexColumn [row1 [cx 1 2; cx 3 4]; row1 [cx 5 6; cx 7 8]])]>
     (<["FLAG" := mkColumn "StandardStMan"
         (BoolColumn [row1 [false; true]; row1 [false; false]])]>
     (<["WEIGHT_SPECTRUM" := mkColumn "StandardStMan"
         (FloatColumn [row1 [10; 11]; row1 [12; 13]])]> ∅)))
    (<["StandardStMan" := OtherStMan]> ∅).

(** The same table without any flag set. *)
Definition cleanTable : Table :=
  mkTable 2
    (<["DATA" := mkColumn "StandardStMan"
         (ComplexColumn [row1 [cx 1 2; cx 3 4]; row1 [cx 5 6; cx 7 8]])]>
     (<["FLAG" := mkColumn "StandardStMan"
         (BoolColumn [row1 [false; false]; row1 [false; false]])]> ∅))
    (<["StandardStMan" := OtherStMan]> ∅).

(** The first table after a pass: the flagged cell holds the sentinel. *)
Definition passedTable : Table :=
  mkTable 2
    (<["DATA" := mkColumn "StandardStMan"
         (ComplexColumn [row1 [cx 1 2; mkComplex quiet_NaN quiet_NaN];
                         row1 [cx 5 6; cx 7 8]])]>
     (<["FLAG" := mkColumn "StandardStMan"
         (BoolColumn [row1 [false; true]; row1 [false; false]])]>
     (<["WEIGHT_SPECTRUM" := mkColumn "StandardStMan"
         (FloatColumn [row1 [10; 11]; row1 [12; 13]])]> ∅)))
    (<["StandardStMan" := OtherStMan]> ∅).

(** A table whose data column is already bound to a Dysco manager of 8 and
    12 bits; the flagged cell holds the sentinel. *)
Definition migratedTable : Table :=
  mkTable 2
    (<["DATA" := mkColumn "DyscoStMan"
         (ComplexColumn [row1 [cx 1 2; mkComplex quiet_NaN quiet_NaN];
                         row1 [cx 5 6; cx 7 8]])]>
     (<["FLAG" := mkColumn "StandardStMan"
         (BoolColumn [row1 [false; true]; row1 [false; false]])]>
     (<["MODEL_DATA" := mkColumn "StandardStMan"
         (ComplexColumn [row1 [cx 1 0; cx 0 1]; row1 [cx 2 0; cx 0 2]])]> ∅)))
    (<["DyscoStMan" := DyscoManager
         (mkDyscoStMan 8 12 TruncatedGaussianDistribution d_1_0 d_2_5 AFNormalization)]>
     (<["StandardStMan" := OtherStMan]> ∅)).

Definition diskWith (path : string) (t : Table) : string -> option Table :=
  fun p => if decide (p = path) then Some t else None.

(** Sample runs with the reference host. *)
Definition firstRun : Res unit * World :=
  @compress refHost (defaultColumn defaults) "ms" (mkWorld sampleTable []).

Definition secondRun : Res unit * World :=
  @compress refHost (defaultColumn defaults) "ms" (mkWorld migratedTable []).

Definition reorderRun : Res Z * option World :=
  @main refHost ["dscompress"; "-reorder"; "ms"] (diskWith "ms" sampleTable).

Definition studentRun : Res Z * option World :=
  @main refHost ["dscompress"; "-studentt"; "ms"] (diskWith "ms" sampleTable).

Definition zeroBitsRun : Res Z * option World :=
  @main refHost ["dscompress"; "-data-bit-rate"; "0"; "ms"] (diskWith "ms" sampleTable).

(** The world of a run of [main] that has opened a table. *)
Definition worldOf (out : Res Z * option World) : World :=
  match snd out with
  | Some w => w
  | None => mkWorld (mkTable 0 ∅ ∅) []
  end.

(** ** Reading a table *)

Definition dataRow (t : Table) (column : string) (row : nat) : option (Array Complex) :=
  complexRows t column ≫= (fun rows => rows !! row).

Definition flagRow (t : Table) (row : nat) : option (Array bool) :=
  boolRows t FLAG ≫= (fun rows => rows !! row).

(** The cell [i] (in storage order) of a row of a complex column, and the
    flag of the same position. *)
Definition cellAt (t : Table) (column : string) (row i : nat) : option Complex :=
  dataRow t column row ≫= (fun a => elems a !! i).

Definition flagAt (t : Table) (row i : nat) : option bool :=
  flagRow t row ≫= (fun a => elems a !! i).

Definition NaN : Complex := mkComplex quiet_NaN quiet_NaN.

(** What the pass makes of a cell. *)
Definition sentinel (flag : bool) (x : Complex) : Complex :=
  if flag then NaN else x.

(** ** Classes of events *)

Definition isWrite (e : Event) : bool :=
  match e with Put _ _ => true | _ => false end.

Definition isFlagPass (e : Event) : bool :=
  match e with Get _ _ | Put _ _ => true | _ => false end.

Definition isManagerCreation (e : Event) : bool :=
  match e with NewDyscoStMan _ _ => true | _ => false end.

Definition isSetter (e : Event) : bool :=
  match e with
  | SetGaussian | SetUniform | SetStudentsT _ | SetTruncatedGaussian _ | SetNorm _ => true
  | _ => false
  end.

Definition isColumnCreation (e : Event) : bool :=
  match e with AddColumnNew _ _ _ _ | AddColumnExisting _ _ _ => true | _ => false end.

Definition isDataMove (e : Event) : bool :=
  match e with MoveData _ _ => true | _ => false end.

Definition isReorder (e : Event) : bool :=
  match e with ReorderTable _ => true | _ => false end.

Definition isPrepare (e : Event) : bool :=
  match e with Prepare _ _ _ _ _ => true | _ => false end.

(** The steps of the migration: query or creation of the manager, its
    configuration, the definition of a column, the data move, the reorder. *)
Definition isMigration (e : Event) : bool :=
  match e with
  | OpenUpdate _ | Get _ _ | Put _ _ => false
  | _ => true
  end.

Definition count (p : Event -> bool) (evs : list Event) : nat :=
  length (filter (fun e => p e = true) evs).

(** The column an event is about, if it is about one. *)
Definition columnOf (e : Event) : option string :=
  match e with
  | Get c _ | Put c _ | Prepare _ c _ _ _ | AddColumnNew _ c _ _
  | AddColumnExisting _ c _ | MoveData _ c => Some c
  | _ => None
  end.

(** The table after [put] of a row. *)
Definition putRow (t : Table) (c dm : string) (rows : list (Array Complex))
  (row : nat) (a : Array Complex) : Table :=
  mkTable (nrow t)
    (<[c := mkColumn dm (ComplexColumn (<[row := a]> rows))]> (columns t))
    (dataManagers t).

(** The shape and the number of cells of a row. *)
Definition layout {T} (a : Array T) : IPosition * nat := (shape a, length (elems a)).

(** [after c t t']: [t'] differs from [t] at most in the values of cells of
    the complex column [c]. *)
Definition after (c : string) (t t' : Table) : Prop :=
  nrow t' = nrow t /\
  dataManagers t' = dataManagers t /\
  (forall c', c' <> c -> columns t' !! c' = columns t !! c') /\
  columns t' !! FLAG = columns t !! FLAG /\
  (forall r, (layout <$> dataRow t' c r) = (layout <$> dataRow t c r)).

(** [sameLayout t t']: the tables have the same rows, data managers and
    flags, and the same cells in every complex column, up to their values. *)
Definition sameLayout (t t' : Table) : Prop :=
  nrow t' = nrow t /\
  dataManagers t' = dataManagers t /\
  columns t' !! FLAG = columns t !! FLAG /\
  (forall c r, (layout <$> dataRow t' c r) = (layout <$> dataRow t c r)).

(** A column on which the pass runs to its end: every row below [nrow] has
    the shape of row 0, in the column and in the flags, and a flag for each
    of its cells. *)
Definition regular (t : Table) (c : string) : bool :=
  match complexRows t c, boolRows t FLAG with
  | Some drows, Some frows =>
      match drows !! 0%nat, frows !! 0%nat with
      | Some a0, Some f0 =>
          forallb (fun r =>
            match drows !! r, frows !! r with
            | Some a, Some fa =>
                bool_decide (shape a = shape a0) && bool_decide (shape fa = shape f0)
                && (length (elems a) <=? length (elems fa))%nat
            | _, _ => false
            end) (seq 0 (nrow t))
      | _, _ => false
      end
  | _, _ => false
  end.

(** A failure, seen at another result type. *)
Definition failure {A B} (r : Res A) : Res B :=
  match r with
  | Throw what => Throw what
  | _ => Undefined
  end.

Definition isOk {A} (r : Res A) : bool :=
  match r with Ok _ => true | _ => false end.

(** The row can be processed with buffers of shapes [dsh] and [fsh]. *)
Definition rowOk (t : Table) (c : string) (dsh fsh : IPosition) (row : nat) : Prop :=
  exists a fa, dataRow t c row = Some a /\ flagRow t row = Some fa /\
    shape a = dsh /\ shape fa = fsh /\ (length (elems a) <= length (elems fa))%nat.

(** [regular] as a proposition. *)
Definition Regular (t : Table) (c : string) : Prop :=
  exists a0 f0, dataRow t c 0 = Some a0 /\ flagRow t 0 = Some f0 /\
    forall row, (row < nrow t)%nat -> rowOk t c (shape a0) (shape f0) row.

(** ** Properties of runs *)

(** [only P m]: every event that [m] adds to the trace satisfies [P]. *)
Definition only (P : Event -> Prop) {A} (m : M A) : Prop :=
  forall w r w', m w = (r, w') ->
    exists evs, trace w' = trace w ++ evs /\ Forall P evs.

(** The events of the flag-to-NaN pass for the columns [names]. *)
Definition passEvent (names : list string) (e : Event) : Prop :=
  match e with
  | Get c _ => c = FLAG \/ (In c names /\ c <> WEIGHT_SPECTRUM)
  | Put c _ => In c names /\ c <> WEIGHT_SPECTRUM /\ c <> FLAG
  | _ => False
  end.

(** The events of lines 272-289, for the options [o] and the path [msPath]. *)
Definition replaceEvent (o : Options) (msPath : string) (e : Event) : Prop :=
  match e with
  | FindDataManager n => n = DyscoStManName
  | NewDyscoStMan b1 b2 => b1 = bitsPerFloat o /\ b2 = bitsPerWeight o
  | SetGaussian => distribution o = GaussianDistribution
  | SetUniform => distribution o = UniformDistribution
  | SetStudentsT nu => nu = d_1_0 /\ distribution o = StudentsTDistribution
  | SetTruncatedGaussian x =>
      x = distributionTruncation o /\ distribution o = TruncatedGaussianDistribution
  | SetNorm n => n = normalization o
  | AddColumnNew T c _ _ | AddColumnExisting T c _ | MoveData T c =>
      In c (columnNames o) /\ T = elemTypeOf c
  | ReorderTable p => reorder o = true /\ p = msPath
  | _ => False
  end.

Section HostProperties.
Context `{H : Host}.

(** The events of the loop that prepares the columns: a call for a column
    of the list, with the element type that goes with its name and the
    bit-widths [b1] and [b2]; the value logged is the one that
    [PrepareReplacingColumn] returns for these arguments. *)
Definition prepareEvent (names : list string) (b1 b2 : Z) (e : Event) : Prop :=
  match e with
  | Prepare T c b1' b2' x =>
      In c names /\ T = elemTypeOf c /\ b1' = b1 /\ b2' = b2 /\
      exists sh t,
        x = replacedOf (fst (PrepareReplacingColumn T c DyscoStManName b1 b2 sh t))
  | _ => False
  end.

(** A call of [PrepareReplacingColumn] that reports that the column is not
    replaced has left the table as it was. *)
Definition prepareInspects : Prop :=
  forall T c m b1 b2 sh t sh' t',
    PrepareReplacingColumn T c m b1 b2 sh t = (Ok (false, sh'), t') -> t' = t.

(** The functions of [StManModifier] do not touch the flag column when they
    work on another column, and [Reorder] keeps it. *)
Definition modifierKeepsFlags : Prop :=
  (forall T c m b1 b2 sh t r t', c <> FLAG ->
     PrepareReplacingColumn T c m b1 b2 sh t = (r, t') ->
     columns t' !! FLAG = columns t !! FLAG) /\
  (forall T c t r t', c <> FLAG ->
     MoveColumnData T c t = (r, t') ->
     columns t' !! FLAG = columns t !! FLAG) /\
  (forall p t r t',
     Reorder p t = (r, t') -> columns t' !! FLAG = columns t !! FLAG).

End HostProperties.

(** [preserves f m]: [m] leaves the part [f] of the table as it is. *)
Definition preserves {X} (f : Table -> X) {A} (m : M A) : Prop :=
  forall w r w', m w = (r, w') -> f (ms w') = f (ms w).

(** A row of a column with a cell whose flag is set. *)
Definition flaggedRow (t : Table) (c : string) (row : nat) : Prop :=
  exists i, is_Some (cellAt t c row i) /\ flagAt t row i = Some true.

(** ** The command line, word by word *)

(** [argv[argi][0] == '-'] *)
Definition startsWithDash (s : string) : bool :=
  match s with
  | String c0 _ => bool_decide (c0 = "-"%char)
  | EmptyString => false
  end.

(** The words that the loop of lines 119-173 takes as options. *)
Definition optionWords : list string :=
  ["-data-bit-rate"; "-weight-bit-rate"; "-reorder"; "-gaussian"; "-uniform";
   "-studentt"; "-truncgaus"; "-column"; "-rfnormalization"; "-afnormalization";
   "-rownormalization"].

(** One turn of the loop of lines 119-173 on the word [arg], which is ['-']
    followed by [p]: the options after it and the words left. *)
Definition optionStep (arg p : string) (rest : list string) (o : Options)
  : Res (Options * list string) :=
  if decide (p = "data-bit-rate") then
    match rest with
    | [] => Undefined
    | v :: rest' => res_map (fun n => (set_bitsPerFloat (to_unsigned n) o, rest')) (atoi v)
    end
  else if decide (p = "weight-bit-rate") then
    match rest with
    | [] => Undefined
    | v :: rest' => res_map (fun n => (set_bitsPerWeight (to_unsigned n) o, rest')) (atoi v)
    end
  else if decide (p = "reorder") then Ok (set_reorder true o, rest)
  else if decide (p = "gaussian") then Ok (set_distribution GaussianDistribution o, rest)
  else if decide (p = "uniform") then Ok (set_distribution UniformDistribution o, rest)
  else if decide (p = "studentt") then Ok (set_distribution StudentsTDistribution o, rest)
  else if decide (p = "truncgaus") then
    match rest with
    | [] => Undefined
    | v :: rest' =>
        Ok (set_distributionTruncation (d_atof v)
              (set_distribution TruncatedGaussianDistribution o), rest')
    end
  else if decide (p = "column") then
    match rest with
    | [] => Undefined
    | v :: rest' => Ok (push_columnName v o, rest')
    end
  else if decide (p = "rfnormalization") then Ok (set_normalization RFNormalization o, rest)
  else if decide (p = "afnormalization") then Ok (set_normalization AFNormalization o, rest)
  else if decide (p = "rownormalization") then Ok (set_normalization RowNormalization o, rest)
  else Throw ("Invalid parameter: " +:+ arg).

(** The words [-column c1 ... -column cn]. *)
Definition columnArgs (cs : list string) : list string :=
  flat_map (fun c => ["-column"; c]) cs.

(** A numeral: the string of the decimal digits [ds], and the number it
    denotes. *)
Fixpoint digitString (ds : list nat) : string :=
  match ds with
  | [] => EmptyString
  | d :: ds' => String (ascii_of_nat (48 + d)) (digitString ds')
  end.

Definition digitsNumber (ds : list nat) : Z :=
  fold_left (fun acc d => acc * 10 + Z.of_nat d) ds 0.

(** The bit-widths fit an [unsigned]. *)
Definition bitsInRange (o : Options) : Prop :=
  0 <= bitsPerFloat o < 2 ^ 32 /\ 0 <= bitsPerWeight o < 2 ^ 32.

(** ** Further notions for the properties of the run *)

(** [get] of the row into buffers of shapes [dsh] and [fsh] succeeds, and
    the row has a flag for each of its cells. *)
Definition fits (t : Table) (c : string) (dsh fsh : IPosition) (row : nat) : Prop :=
  exists a fa, dataRow t c row = Some a /\ flagRow t row = Some fa /\
    conforms dsh (shape a) = true /\ conforms fsh (shape fa) = true /\
    (length (elems a) <= length (elems fa))%nat.

Section Blocks.
Context `{H : Host}.

(** The handler of lines 30-51: a manager is constructed, configured and
    bound to the new column. *)
Definition newManagerColumn (T : ElemType) (name : string) (sh : IPosition)
  (bitsPerComplex bitsPerWeight : Z) (normalization : DyscoNormalization)
  (distribution : DyscoDistribution) (studentsTNu distributionTruncation : double)
  : M unit :=
  emit (NewDyscoStMan bitsPerComplex bitsPerWeight) ;;;
  dataManager <- lift (DyscoStMan_new bitsPerComplex bitsPerWeight) ;;
  dataManager <- setDistribution distribution studentsTNu distributionTruncation
                   dataManager ;;
  emit (SetNorm normalization) ;;;
  dataManager <- lift (SetNormalization normalization dataManager) ;;
  addColumn_new T name sh dataManager.

(** The table after [addColumn]. *)
Definition withColumn (t : Table) (T : ElemType) (name : string) (sh : IPosition)
  (dms : gmap string DataManager) : Table :=
  mkTable (nrow t)
    (<[name := mkColumn DyscoStManName (freshColumn T (nrow t) sh)]> (columns t)) dms.

End Blocks.

(** An event of [createDyscoStManColumn] for the column [c] of element
    type [T] and shape [sh]. *)
Definition creationStep (T : ElemType) (c : string) (sh : IPosition) (e : Event) : Prop :=
  match e with
  | FindDataManager _ | NewDyscoStMan _ _ | SetGaussian | SetUniform
  | SetStudentsT _ | SetTruncatedGaussian _ | SetNorm _ => True
  | AddColumnNew T' c' sh' _ | AddColumnExisting T' c' sh' =>
      T' = T /\ c' = c /\ sh' = sh
  | _ => False
  end.

(** The event adds the column [c] of element type [T] and shape [sh]. *)
Definition definesColumn (T : ElemType) (c : string) (sh : IPosition) (e : Event) : Prop :=
  match e with
  | AddColumnNew T' c' sh' _ | AddColumnExisting T' c' sh' =>
      T' = T /\ c' = c /\ sh' = sh
  | _ => False
  end.

(** The column and element type of a call of [PrepareReplacingColumn]. *)
Definition preparedColumn (e : Event) : option (ElemType * string) :=
  match e with
  | Prepare T c _ _ _ => Some (T, c)
  | _ => None
  end.

(** The calls of [MoveColumnData] for the columns [cs]. *)
Definition moveEvents (cs : list string) : list Event :=
  map (fun c => MoveData (elemTypeOf c) c) cs.

(** Further sample runs with the reference host. *)
Definition bareRun : Res Z * option World :=
  @main refHost ["dscompress"; "ms"] (diskWith "ms" sampleTable).

Definition twiceOptions : Options := push_columnName "DATA" (push_columnName "DATA" defaults).

Definition twiceRun : Res unit * World :=
  @compress refHost twiceOptions "ms" (mkWorld sampleTable []).

Definition modelOptions : Options := push_columnName "MODEL_DATA" defaults.

Definition modelRun : Res unit * World :=
  @compress refHost modelOptions "ms" (mkWorld sampleTable []).

Definition newColumn : Res unit * World :=
  @createDyscoStManColumn refHost TpComplex "NEW" [2%nat] 8 12 AFNormalization
    TruncatedGaussianDistribution d_1_0 d_2_5 (mkWorld sampleTable []).

Definition takenColumn : Res unit * World :=
  @createDyscoStManColumn refHost TpComplex "DATA" [2%nat] 8 12 AFNormalization
    TruncatedGaussianDistribution d_1_0 d_2_5 (mkWorld sampleTable []).

Definition passOnce : Res unit * World :=
  replaceFlaggedValues ["DATA"] (mkWorld sampleTable []).

Definition passTwice : Res unit * World :=
  replaceFlaggedValues ["DATA"] (snd passOnce).

(** A run on two columns, one complex and one float. *)
Definition twoColumnOptions : Options :=
  push_columnName "WEIGHT_SPECTRUM" (push_columnName "DATA" defaults).

Definition twoColumnRun : Res unit * World :=
  @compress refHost twoColumnOptions "ms" (mkWorld sampleTable []).

Definition twoColumnMain : Res Z * option World :=
  @main refHost ["dscompress"; "-column"; "DATA"; "-column"; "WEIGHT_SPECTRUM"; "ms"]
    (diskWith "ms" sampleTable).

(** ** The pass on one row *)

Lemma replaceFlagged_never_throws d : forall f b what,
  replaceFlagged d f b <> Throw what.
Proof.
  induction d as [|x d IH]; intros f b what; simpl; [discriminate|].
  destruct f as [|fl f]; [discriminate|].
  destruct fl; unfold res_map, res_bind.
  - specialize (IH f true what). destruct (replaceFlagged d f true) as [[? ?]| |]; congruence.
  - specialize (IH f b what). destruct (replaceFlagged d f b) as [[? ?]| |]; congruence.
Qed.

Lemma replaceFlagged_cells d : forall f b d' ch,
  replaceFlagged d f b = Ok (d', ch) ->
  length d' = length d /\
  forall i x, d !! i = Some x ->
    exists fl, f !! i = Some fl /\ d' !! i = Some (sentinel fl x).
Proof.
  induction d as [|x d IH]; intros f b d' ch Hr; simpl in Hr.
  - injection Hr as <- <-. split; [reflexivity|]. intros i y Hy. discriminate.
  - destruct f as [|fl f]; [discriminate|].
    destruct fl; unfold res_map, res_bind in Hr.
    + destruct (replaceFlagged d f true) as [[r ch']| |] eqn:E; try discriminate.
      injection Hr as <- <-. destruct (IH _ _ _ _ E) as [Hlen Hc].
      split; [simpl; congruence|].
      intros [|i] y Hy; simpl in *.
      * injection Hy as <-. exists true. auto.
      * apply Hc, Hy.
    + destruct (replaceFlagged d f b) as [[r ch']| |] eqn:E; try discriminate.
      injection Hr as <- <-. destruct (IH _ _ _ _ E) as [Hlen Hc].
      split; [simpl; congruence|].
      intros [|i] y Hy; simpl in *.
      * injection Hy as <-. exists false. auto.
      * apply Hc, Hy.
Qed.

Lemma replaceFlagged_changed d : forall f b d' ch,
  replaceFlagged d f b = Ok (d', ch) ->
  ch = true <-> (b = true \/ exists i x, d !! i = Some x /\ f !! i = Some true).
Proof.
  induction d as [|x d IH]; intros f b d' ch Hr; simpl in Hr.
  - injection Hr as <- <-. split; [auto|]. intros [?|(i & y & Hy & _)]; [auto|discriminate].
  - destruct f as [|fl f]; [discriminate|].
    destruct fl; unfold res_map, res_bind in Hr.
    + destruct (replaceFlagged d f true) as [[r ch']| |] eqn:E; try discriminate.
      injection Hr as <- <-. rewrite (IH _ _ _ _ E). split; intros _.
      * right. exists 0%nat, x. auto.
      * auto.
    + destruct (replaceFlagged d f b) as [[r ch']| |] eqn:E; try discriminate.
      injection Hr as <- <-. rewrite (IH _ _ _ _ E). split.
      * intros [?|(i & y & Hy & Hf)]; [auto|]. right. exists (S i), y. auto.
      * intros [?|(i & y & Hy & Hf)]; [auto|]. destruct i as [|i]; [discriminate|].
        right. exists i, y. auto.
Qed.

Lemma replaceFlagged_total d : forall f b,
  (length d <= length f)%nat -> exists d' ch, replaceFlagged d f b = Ok (d', ch).
Proof.
  induction d as [|x d IH]; intros f b Hlen; simpl.
  - eauto.
  - destruct f as [|fl f]; simpl in Hlen; [lia|].
    destruct fl; unfold res_map, res_bind.
    + destruct (IH f true ltac:(lia)) as (d' & ch & ->). eauto.
    + destruct (IH f b ltac:(lia)) as (d' & ch & ->). eauto.
Qed.

Lemma complexRows_Some t c rows :
  complexRows t c = Some rows <->
  exists dm, columns t !! c = Some (mkColumn dm (ComplexColumn rows)).
Proof.
  unfold complexRows. split.
  - intros Hc. destruct (columns t !! c) as [[dm [r|r|r]]|]; simplify_eq. eauto.
  - intros [dm ->]. reflexivity.
Qed.

Lemma replaceFlaggedRow_spec c row dataArr flagArr w r w' :
  replaceFlaggedRow c row dataArr flagArr w = (r, w') ->
  exists evs, trace w' = trace w ++ evs /\
    Forall (fun e => e = Get c row \/ e = Get FLAG row \/ e = Put c row) evs /\
    In (Get c row) evs /\
    ((ms w' = ms w /\ ~ In (Put c row) evs) \/
     (exists dm rows a fa d',
        columns (ms w) !! c = Some (mkColumn dm (ComplexColumn rows)) /\
        rows !! row = Some a /\
        flagRow (ms w) row = Some fa /\
        replaceFlagged (elems a) (elems fa) false = Ok (d', true) /\
        isOk r = true /\
        ms w' = putRow (ms w) c dm rows row (mkArray (shape a) d'))) /\
    (isOk r = true ->
       exists a fa d' ch, dataRow (ms w) c row = Some a /\
         flagRow (ms w) row = Some fa /\
         replaceFlagged (elems a) (elems fa) false = Ok (d', ch) /\
         r = Ok (mkArray (shape a) d', fa) /\
         (ch = false -> ms w' = ms w) /\
         (ch = true -> In (Put c row) evs)).
Proof.
  unfold replaceFlaggedRow, get_Complex, get_bool, put_Complex, fetch, bind, emit,
    getTable, setTable, lift, ret, throw.
  destruct w as [t tr]. simpl. intros Hrun.
  repeat (case_match; simplify_eq/=);
    (eexists; split; [rewrite <- ?app_assoc; reflexivity|]);
    repeat match goal with
      | Hc : complexRows _ _ = Some _ |- _ => apply complexRows_Some in Hc as [? Hc]
      end; simplify_eq/=;
    try match goal with
      | Hl : ?l !! ?i = Some _, Hn : ~ (?i < length ?l)%nat |- _ =>
          apply lookup_lt_Some in Hl; contradiction
      end.
  all: (split; [simpl; repeat (apply List.Forall_cons; [tauto|]); apply List.Forall_nil|]).
  all: (split; [simpl; auto|]).
  all: try (split; [left; split; [reflexivity|simpl; intuition discriminate]
                   | first [discriminate | intros _]]).
  all: unfold putRow, dataRow, complexRows, flagRow;
    repeat match goal with
      | Hc : columns _ !! _ = Some _ |- _ => rewrite Hc
      | Hb : boolRows _ _ = Some _ |- _ => rewrite Hb
      end; simpl.
  - split.
    + right. eauto 12.
    + intros _. eexists _, _, _, _. repeat split; eauto; try discriminate; auto.
  - eexists _, _, _, _. repeat split; eauto; try discriminate.
Qed.

(** ** Reading after writing *)

Lemma dataRow_lookup t c dm rows row :
  columns t !! c = Some (mkColumn dm (ComplexColumn rows)) ->
  dataRow t c row = rows !! row.
Proof. intros Hc. unfold dataRow, complexRows. rewrite Hc. reflexivity. Qed.

Lemma putRow_lookup t c dm rows row a :
  columns (putRow t c dm rows row a) !! c =
  Some (mkColumn dm (ComplexColumn (<[row := a]> rows))).
Proof. unfold putRow. simpl. apply lookup_insert_eq. Qed.

Lemma putRow_lookup_ne t c dm rows row a c' :
  c' <> c -> columns (putRow t c dm rows row a) !! c' = columns t !! c'.
Proof. intros Hne. unfold putRow. simpl. apply lookup_insert_ne. congruence. Qed.

Lemma dataRow_putRow t c dm rows row a :
  (row < length rows)%nat ->
  dataRow (putRow t c dm rows row a) c row = Some a.
Proof.
  intros Hlt. rewrite (dataRow_lookup _ _ _ _ _ (putRow_lookup t c dm rows row a)).
  apply list_lookup_insert_eq, Hlt.
Qed.

Lemma dataRow_putRow_ne t c dm rows row a row' :
  columns t !! c = Some (mkColumn dm (ComplexColumn rows)) ->
  row' <> row ->
  dataRow (putRow t c dm rows row a) c row' = dataRow t c row'.
Proof.
  intros Hc Hne. rewrite (dataRow_lookup _ _ _ _ _ (putRow_lookup t c dm rows row a)).
  rewrite (dataRow_lookup _ _ _ _ _ Hc). apply list_lookup_insert_ne. congruence.
Qed.

Lemma dataRow_same t t' c row :
  columns t' !! c = columns t !! c -> dataRow t' c row = dataRow t c row.
Proof. intros Hc. unfold dataRow, complexRows. rewrite Hc. reflexivity. Qed.

Lemma flagRow_same t t' row :
  columns t' !! FLAG = columns t !! FLAG -> flagRow t' row = flagRow t row.
Proof. intros Hc. unfold flagRow, boolRows. rewrite Hc. reflexivity. Qed.

Lemma flagAt_same t t' row i :
  columns t' !! FLAG = columns t !! FLAG -> flagAt t' row i = flagAt t row i.
Proof. intros Hc. unfold flagAt. rewrite (flagRow_same _ _ _ Hc). reflexivity. Qed.

Lemma cellAt_layout t t' c row i :
  (layout <$> dataRow t' c row) = (layout <$> dataRow t c row) ->
  is_Some (cellAt t' c row i) <-> is_Some (cellAt t c row i).
Proof.
  unfold cellAt. intros Hl.
  destruct (dataRow t' c row) as [a'|], (dataRow t c row) as [a|]; simpl in *;
    try discriminate; [|reflexivity].
  injection Hl as _ Hlen. rewrite !lookup_lt_is_Some, Hlen. reflexivity.
Qed.

(** A flagged row is not a row of a complex column: a column holds one data
    type. *)
Lemma flag_column_not_complex t c dm rows row fa :
  columns t !! c = Some (mkColumn dm (ComplexColumn rows)) ->
  flagRow t row = Some fa -> c <> FLAG.
Proof.
  intros Hc Hf ->. unfold flagRow, boolRows in Hf. rewrite Hc in Hf. discriminate.
Qed.

Lemma after_refl c t : after c t t.
Proof. unfold after. auto. Qed.

Lemma after_trans c t1 t2 t3 : after c t1 t2 -> after c t2 t3 -> after c t1 t3.
Proof.
  intros (Hn & Hd & Hc & Hf & Hl) (Hn' & Hd' & Hc' & Hf' & Hl').
  unfold after. split; [congruence|]. split; [congruence|].
  split; [|split; [congruence|]].
  - intros c' Hne. rewrite Hc', Hc; auto.
  - intros r. rewrite Hl', Hl. reflexivity.
Qed.

Lemma sameLayout_refl t : sameLayout t t.
Proof. unfold sameLayout. auto. Qed.

Lemma sameLayout_trans t1 t2 t3 :
  sameLayout t1 t2 -> sameLayout t2 t3 -> sameLayout t1 t3.
Proof.
  intros (Hn & Hd & Hf & Hl) (Hn' & Hd' & Hf' & Hl').
  unfold sameLayout. split; [congruence|]. split; [congruence|]. split; [congruence|].
  intros c r. rewrite Hl', Hl. reflexivity.
Qed.

Lemma after_sameLayout c t t' : after c t t' -> sameLayout t t'.
Proof.
  intros (Hn & Hd & Hc & Hf & Hl). unfold sameLayout. repeat split; auto.
  intros c' r. destruct (decide (c' = c)) as [->|Hne]; [apply Hl|].
  rewrite (dataRow_same t t' c' r); auto.
Qed.

Lemma after_putRow t c dm rows row a d' :
  columns t !! c = Some (mkColumn dm (ComplexColumn rows)) ->
  rows !! row = Some a ->
  length d' = length (elems a) ->
  c <> FLAG ->
  after c t (putRow t c dm rows row (mkArray (shape a) d')).
Proof.
  intros Hc Hrow Hlen Hne. unfold after. repeat split.
  - intros c' Hc'. apply putRow_lookup_ne, Hc'.
  - apply putRow_lookup_ne. congruence.
  - intros r. destruct (decide (r = row)) as [->|Hr].
    + rewrite dataRow_putRow by (eapply lookup_lt_Some, Hrow).
      rewrite (dataRow_lookup _ _ _ _ _ Hc), Hrow. simpl. unfold layout. simpl.
      rewrite Hlen. reflexivity.
    + rewrite (dataRow_putRow_ne _ _ _ _ _ _ _ Hc Hr). reflexivity.
Qed.

(** What one step of the loop over the rows does. *)
Lemma replaceFlaggedRow_post c row dataArr flagArr w r w' :
  replaceFlaggedRow c row dataArr flagArr w = (r, w') ->
  after c (ms w) (ms w') /\
  (forall row', row' <> row -> dataRow (ms w') c row' = dataRow (ms w) c row') /\
  exists evs, trace w' = trace w ++ evs /\
    Forall (fun e => e = Get c row \/ e = Get FLAG row \/ e = Put c row) evs /\
    In (Get c row) evs /\
    (In (Put c row) evs ->
       exists i, is_Some (cellAt (ms w) c row i) /\ flagAt (ms w) row i = Some true) /\
    (isOk r = true -> forall i x, cellAt (ms w) c row i = Some x ->
       exists fl, flagAt (ms w) row i = Some fl /\
                  cellAt (ms w') c row i = Some (sentinel fl x)).
Proof.
  intros Hrun.
  destruct (replaceFlaggedRow_spec _ _ _ _ _ _ _ Hrun)
    as (evs & Htr & Hall & Hget & Hcases & Hok).
  destruct Hcases as [[Hsame Hnoput] | (dm & rows & a & fa & d' & Hc & Hrow & Hf & Hrf & Hr & Hput)].
  - rewrite Hsame. split; [apply after_refl|]. split; [auto|].
    exists evs. repeat split; auto; [contradiction|].
    intros Hr i x Hx.
    destruct (Hok Hr) as (a & fa & d' & ch & Ha & Hfa & Hrf & _ & _ & Hch).
    destruct ch; [exfalso; auto|].
    unfold cellAt in Hx. rewrite Ha in Hx. simpl in Hx.
    destruct (replaceFlagged_cells _ _ _ _ _ Hrf) as [_ Hcells].
    destruct (Hcells _ _ Hx) as (fl & Hfl & Hd').
    exists fl. split.
    + unfold flagAt. rewrite Hfa. exact Hfl.
    + destruct fl.
      * exfalso. pose proof (proj2 (replaceFlagged_changed _ _ _ _ _ Hrf)) as Hc.
        discriminate Hc. right. eauto.
      * unfold cellAt. rewrite Ha. simpl. exact Hx.
  - pose proof (flag_column_not_complex _ _ _ _ _ _ Hc Hf) as Hne.
    destruct (replaceFlagged_cells _ _ _ _ _ Hrf) as [Hlen Hcells].
    rewrite Hput.
    split; [apply after_putRow; auto|].
    split; [intros row' Hr'; apply dataRow_putRow_ne; auto|].
    exists evs. repeat split; auto.
    + intros _. destruct (proj1 (replaceFlagged_changed _ _ _ _ _ Hrf) eq_refl)
        as [?|(i & x & Hx & Hfl)]; [discriminate|].
      exists i. unfold cellAt, flagAt.
      rewrite (dataRow_lookup _ _ _ _ _ Hc), Hrow, Hf. simpl. rewrite Hx. eauto.
    + intros _ i x Hx. unfold cellAt in Hx.
      rewrite (dataRow_lookup _ _ _ _ _ Hc), Hrow in Hx. simpl in Hx.
      destruct (Hcells _ _ Hx) as (fl & Hfl & Hd').
      exists fl. unfold flagAt, cellAt. rewrite Hf.
      rewrite dataRow_putRow by (eapply lookup_lt_Some, Hrow). auto.
Qed.

(** ** Sequencing *)

Lemma bind_inv {A B} (m : M A) (k : A -> M B) w r w' :
  bind m k w = (r, w') ->
  (exists a w1, m w = (Ok a, w1) /\ k a w1 = (r, w')) \/
  (exists r1, m w = (r1, w') /\ isOk r1 = false /\ r = failure r1).
Proof.
  unfold bind. destruct (m w) as [[a|what|] w1]; intros Hr.
  - left. eauto.
  - right. exists (Throw what). injection Hr as <- <-. auto.
  - right. exists Undefined. injection Hr as <- <-. auto.
Qed.

Lemma failure_not_Ok {A B} (r1 : Res A) (b : B) : failure r1 <> Ok b.
Proof. destruct r1; discriminate. Qed.

Lemma forEach_cons_inv {A} (x : A) xs body w r w' :
  forEach (x :: xs) body w = (r, w') ->
  (exists w1, body x w = (Ok tt, w1) /\ forEach xs body w1 = (r, w')) \/
  (body x w = (failure r, w') /\ isOk r = false).
Proof.
  simpl. intros Hr. apply bind_inv in Hr as [(a & w1 & Hb & Hk) | (r1 & Hb & Hf & ->)].
  - left. destruct a. eauto.
  - right. destruct r1; try discriminate; simpl; auto.
Qed.

(** ** The pass on one column *)

Lemma cellAt_same t t' c row i :
  dataRow t' c row = dataRow t c row -> cellAt t' c row i = cellAt t c row i.
Proof. unfold cellAt. intros ->. reflexivity. Qed.

Lemma sentinel_idem fl x : sentinel fl (sentinel fl x) = sentinel fl x.
Proof. destruct fl; reflexivity. Qed.

Lemma replaceFlaggedRows_cons_inv c row rows dataArr flagArr w r w' :
  replaceFlaggedRows c (row :: rows) dataArr flagArr w = (r, w') ->
  (exists dataArr' flagArr' w1,
     replaceFlaggedRow c row dataArr flagArr w = (Ok (dataArr', flagArr'), w1) /\
     replaceFlaggedRows c rows dataArr' flagArr' w1 = (r, w')) \/
  (exists r1, replaceFlaggedRow c row dataArr flagArr w = (r1, w') /\
              isOk r1 = false /\ isOk r = false).
Proof.
  simpl. intros Hr.
  apply bind_inv in Hr as [([da fb] & w1 & Hb & Hk) | (r1 & Hb & Hf & ->)].
  - left. eauto.
  - right. exists r1. destruct r1; try discriminate; auto.
Qed.

Lemma replaceFlaggedRows_post c : forall l dataArr flagArr w r w',
  replaceFlaggedRows c l dataArr flagArr w = (r, w') ->
  after c (ms w) (ms w') /\
  (forall row, ~ In row l -> dataRow (ms w') c row = dataRow (ms w) c row) /\
  exists evs, trace w' = trace w ++ evs /\
    Forall (fun e => exists row,
              In row l /\ (e = Get c row \/ e = Get FLAG row \/ e = Put c row)) evs /\
    (forall row, In (Put c row) evs ->
       exists i, is_Some (cellAt (ms w) c row i) /\ flagAt (ms w) row i = Some true) /\
    (r = Ok tt -> NoDup l -> forall row, In row l ->
       In (Get c row) evs /\
       forall i x, cellAt (ms w) c row i = Some x ->
         exists fl, flagAt (ms w) row i = Some fl /\
                    cellAt (ms w') c row i = Some (sentinel fl x)).
Proof.
  induction l as [|a l IH]; intros dataArr flagArr w r w' Hrun.
  - injection Hrun as <- <-. split; [apply after_refl|]. split; [auto|].
    exists []. rewrite app_nil_r. repeat split; auto; try constructor; contradiction.
  - apply replaceFlaggedRows_cons_inv in Hrun
      as [(da & fb & w1 & Hstep & Hrest) | (r1 & Hstep & Hfail & Hfail')].
    + destruct (replaceFlaggedRow_post _ _ _ _ _ _ _ Hstep)
        as (Haft1 & Hfr1 & evs1 & Htr1 & Hall1 & Hget1 & Hput1 & Hok1).
      destruct (IH _ _ _ _ _ Hrest) as (Haft2 & Hfr2 & evs2 & Htr2 & Hall2 & Hput2 & Hok2).
      pose proof Haft1 as (_ & _ & _ & Hflag1 & Hlay1).
      split; [eapply after_trans; eauto|].
      split.
      { intros row Hni. rewrite Hfr2, Hfr1; auto; intros ?; apply Hni; simpl; auto. }
      exists (evs1 ++ evs2). rewrite Htr2, Htr1, app_assoc.
      split; [reflexivity|]. split; [|split].
      * apply Forall_app. split.
        -- eapply Forall_impl; [exact Hall1|]. intros e He. exists a. simpl. auto.
        -- eapply Forall_impl; [exact Hall2|]. intros e (row & Hin & He).
           exists row. simpl. auto.
      * intros row Hin. apply in_app_or in Hin as [Hin|Hin].
        -- assert (row = a) as ->.
           { rewrite List.Forall_forall in Hall1.
             destruct (Hall1 _ Hin) as [?|[?|?]]; congruence. }
           auto.
        -- destruct (Hput2 _ Hin) as (i & Hs & Hf). exists i. split.
           ++ apply (cellAt_layout _ _ _ _ _ (Hlay1 row)), Hs.
           ++ rewrite <- (flagAt_same _ _ row i Hflag1). exact Hf.
      * intros -> Hnd row Hin. inversion Hnd as [|? ? Hni Hnd']; subst.
        destruct Hin as [<-|Hin].
        -- split; [apply in_or_app; auto|].
           intros i x Hx. destruct (Hok1 eq_refl _ _ Hx) as (fl & Hfl & Hc1).
           exists fl. split; [exact Hfl|].
           rewrite (cellAt_same _ _ _ _ _ (Hfr2 a ltac:(rewrite <- list_elem_of_In; exact Hni))).
           exact Hc1.
        -- assert (row <> a) as Hne.
           { intros ->. apply Hni, list_elem_of_In, Hin. }
           destruct (Hok2 eq_refl Hnd' row Hin) as [Hg2 Hc2].
           split; [apply in_or_app; auto|].
           intros i x Hx.
           rewrite <- (cellAt_same _ _ _ _ i (Hfr1 row Hne)) in Hx.
           destruct (Hc2 _ _ Hx) as (fl & Hfl & Hc').
           exists fl. rewrite <- (flagAt_same _ _ row i Hflag1). auto.
    + destruct (replaceFlaggedRow_post _ _ _ _ _ _ _ Hstep)
        as (Haft1 & Hfr1 & evs1 & Htr1 & Hall1 & Hget1 & Hput1 & Hok1).
      split; [exact Haft1|].
      split; [intros row Hni; apply Hfr1; intros ->; apply Hni; simpl; auto|].
      exists evs1. split; [exact Htr1|]. split; [|split].
      * eapply Forall_impl; [exact Hall1|]. intros e He. exists a. simpl. auto.
      * intros row Hin. assert (row = a) as ->.
        { rewrite List.Forall_forall in Hall1.
          destruct (Hall1 _ Hin) as [?|[?|?]]; congruence. }
        auto.
      * intros ->. discriminate.
Qed.

Lemma ArrayColumn_Complex_inv c w r w' :
  ArrayColumn_Complex c w = (r, w') -> w' = w.
Proof.
  unfold ArrayColumn_Complex, bind, getTable, ret, throw.
  destruct (complexRows (ms w) c); intros Hr; injection Hr as _ <-; reflexivity.
Qed.

Lemma ArrayColumn_bool_inv c w r w' :
  ArrayColumn_bool c w = (r, w') -> w' = w.
Proof.
  unfold ArrayColumn_bool, bind, getTable, ret, throw.
  destruct (boolRows (ms w) c); intros Hr; injection Hr as _ <-; reflexivity.
Qed.

Lemma rowShape_inv {T} (rows : option (list (Array T))) row w r w' :
  rowShape rows row w = (r, w') -> w' = w.
Proof.
  unfold rowShape, ret, throw.
  destruct rows as [rs|]; [destruct (rs !! row)|]; intros Hr; injection Hr as _ <-;
    reflexivity.
Qed.

Lemma shape_Complex_inv c row w r w' :
  shape_Complex c row w = (r, w') -> w' = w.
Proof. unfold shape_Complex, bind, getTable. apply rowShape_inv. Qed.

Lemma shape_bool_inv c row w r w' :
  shape_bool c row w = (r, w') -> w' = w.
Proof. unfold shape_bool, bind, getTable. apply rowShape_inv. Qed.

(** Splits a run of [m ;; k] into the run of [m] and the run of [k]. *)
Ltac step H :=
  let a := fresh "a" in
  let w1 := fresh "w" in
  let Hm := fresh "Hm" in
  let Hf := fresh "Hf" in
  let r1 := fresh "r" in
  apply bind_inv in H as [(a & w1 & Hm & H) | (r1 & Hm & Hf & ->)].

Lemma replaceFlaggedColumn_post c w r w' :
  replaceFlaggedColumn c w = (r, w') ->
  after c (ms w) (ms w') /\
  (c = WEIGHT_SPECTRUM -> w' = w) /\
  exists evs, trace w' = trace w ++ evs /\
    Forall (fun e => c <> WEIGHT_SPECTRUM /\
              exists row, e = Get c row \/ e = Get FLAG row \/ e = Put c row) evs /\
    (forall row, In (Put c row) evs ->
       exists i, is_Some (cellAt (ms w) c row i) /\ flagAt (ms w) row i = Some true) /\
    (r = Ok tt -> c <> WEIGHT_SPECTRUM -> forall row, (row < nrow (ms w))%nat ->
       In (Get c row) evs /\
       forall i x, cellAt (ms w) c row i = Some x ->
         exists fl, flagAt (ms w) row i = Some fl /\
                    cellAt (ms w') c row i = Some (sentinel fl x)).
Proof.
  assert (Hnothing : forall (r0 : Res unit),
    (r0 = Ok tt -> c = WEIGHT_SPECTRUM) ->
    after c (ms w) (ms w) /\ (c = WEIGHT_SPECTRUM -> w = w) /\
    exists evs, trace w = trace w ++ evs /\
      Forall (fun e => c <> WEIGHT_SPECTRUM /\
                exists row, e = Get c row \/ e = Get FLAG row \/ e = Put c row) evs /\
      (forall row, In (Put c row) evs ->
         exists i, is_Some (cellAt (ms w) c row i) /\ flagAt (ms w) row i = Some true) /\
      (r0 = Ok tt -> c <> WEIGHT_SPECTRUM -> forall row, (row < nrow (ms w))%nat ->
         In (Get c row) evs /\
         forall i x, cellAt (ms w) c row i = Some x ->
           exists fl, flagAt (ms w) row i = Some fl /\
                      cellAt (ms w) c row i = Some (sentinel fl x))).
  { intros r0 Hr0. split; [apply after_refl|]. split; [auto|].
    exists []. rewrite app_nil_r. repeat split; auto.
    - contradiction.
    - exfalso; auto.
    - exfalso; auto. }
  unfold replaceFlaggedColumn. destruct (decide (c = WEIGHT_SPECTRUM)) as [Hws|Hws].
  { intros Hrun. injection Hrun as <- <-. apply Hnothing. auto. }
  intros Hrun.
  step Hrun; [apply ArrayColumn_Complex_inv in Hm as -> |
    apply ArrayColumn_Complex_inv in Hm as ->; apply Hnothing;
    intros Hr; exfalso; exact (failure_not_Ok _ _ Hr)].
  step Hrun; [apply ArrayColumn_bool_inv in Hm as -> |
    apply ArrayColumn_bool_inv in Hm as ->; apply Hnothing;
    intros Hr; exfalso; exact (failure_not_Ok _ _ Hr)].
  step Hrun; [apply shape_Complex_inv in Hm as -> |
    apply shape_Complex_inv in Hm as ->; apply Hnothing;
    intros Hr; exfalso; exact (failure_not_Ok _ _ Hr)].
  step Hrun; [apply shape_bool_inv in Hm as -> |
    apply shape_bool_inv in Hm as ->; apply Hnothing;
    intros Hr; exfalso; exact (failure_not_Ok _ _ Hr)].
  simpl in Hrun.
  destruct (replaceFlaggedRows_post _ _ _ _ _ _ _ Hrun)
    as (Haft & _ & evs & Htr & Hall & Hput & Hok).
  split; [exact Haft|]. split; [intros ?; contradiction|].
  exists evs. split; [exact Htr|]. split; [|split].
  - eapply Forall_impl; [exact Hall|]. intros e (row & _ & He). eauto.
  - exact Hput.
  - intros -> _ row Hrow. apply (Hok eq_refl).
    + apply NoDup_ListNoDup, seq_NoDup.
    + apply in_seq. lia.
Qed.

(** ** The pass on all requested columns *)

Lemma replaceFlaggedValues_post : forall cols w r w',
  replaceFlaggedValues cols w = (r, w') ->
  sameLayout (ms w) (ms w') /\
  (forall c', ~ In c' cols \/ c' = WEIGHT_SPECTRUM ->
     columns (ms w') !! c' = columns (ms w) !! c') /\
  exists evs, trace w' = trace w ++ evs /\
    Forall (fun e => exists c row,
              e = Get FLAG row \/
              (In c cols /\ c <> WEIGHT_SPECTRUM /\ (e = Get c row \/ e = Put c row))) evs /\
    (forall c row, In (Put c row) evs ->
       exists i, is_Some (cellAt (ms w) c row i) /\ flagAt (ms w) row i = Some true) /\
    (r = Ok tt -> forall c, In c cols -> c <> WEIGHT_SPECTRUM ->
       forall row, (row < nrow (ms w))%nat ->
       In (Get c row) evs /\
       forall i x, cellAt (ms w) c row i = Some x ->
         exists fl, flagAt (ms w) row i = Some fl /\
                    cellAt (ms w') c row i = Some (sentinel fl x)).
Proof.
  unfold replaceFlaggedValues.
  induction cols as [|c0 cols IH]; intros w r w' Hrun.
  - injection Hrun as <- <-. split; [apply sameLayout_refl|]. split; [auto|].
    exists []. rewrite app_nil_r. repeat split; auto; try constructor; contradiction.
  - apply forEach_cons_inv in Hrun as [(w1 & Hstep & Hrest) | [Hstep Hfail]].
    + destruct (replaceFlaggedColumn_post _ _ _ _ Hstep)
        as (Haft1 & Hws1 & evs1 & Htr1 & Hall1 & Hput1 & Hok1).
      destruct (IH _ _ _ Hrest) as (Hlay2 & Hfr2 & evs2 & Htr2 & Hall2 & Hput2 & Hok2).
      pose proof (after_sameLayout _ _ _ Haft1) as Hlay1.
      pose proof Haft1 as (Hn1 & _ & Hfr1 & Hflag1 & _).
      pose proof Hlay1 as (_ & _ & _ & Hcells1).
      split; [eapply sameLayout_trans; eauto|].
      split.
      { intros c' Hc'. rewrite Hfr2.
        - destruct (decide (c0 = WEIGHT_SPECTRUM)) as [Hc0|Hc0].
          + rewrite (Hws1 Hc0). reflexivity.
          + apply Hfr1. destruct Hc' as [Hni| ->]; [|congruence].
            intros ->. apply Hni. simpl. auto.
        - destruct Hc' as [Hni|?]; [left|right; assumption].
          intros ?. apply Hni. simpl. auto. }
      exists (evs1 ++ evs2). rewrite Htr2, Htr1, app_assoc.
      split; [reflexivity|]. split; [|split].
      * apply Forall_app. split.
        -- eapply Forall_impl; [exact Hall1|]. intros e (Hne & row & He).
           exists c0, row. simpl. destruct He as [?|[?|?]]; auto 10.
        -- eapply Forall_impl; [exact Hall2|]. intros e (c & row & He).
           exists c, row. simpl. destruct He as [?|(? & ? & ?)]; auto 10.
      * intros c row Hin. apply in_app_or in Hin as [Hin|Hin].
        -- assert (c = c0) as ->.
           { rewrite List.Forall_forall in Hall1.
             destruct (Hall1 _ Hin) as (_ & row' & [?|[?|?]]); congruence. }
           auto.
        -- destruct (Hput2 _ _ Hin) as (i & Hs & Hf). exists i. split.
           ++ apply (cellAt_layout _ _ _ _ _ (Hcells1 c row)), Hs.
           ++ rewrite <- (flagAt_same _ _ row i Hflag1). exact Hf.
      * intros -> c Hin Hne row Hrow.
        assert (Hcur : In (Get c row) (evs1 ++ evs2) /\
                forall i x, cellAt (ms w) c row i = Some x ->
                  exists fl, flagAt (ms w) row i = Some fl /\
                    (c = c0 -> cellAt (ms w1) c row i = Some (sentinel fl x)) /\
                    (c <> c0 -> cellAt (ms w1) c row i = Some x) /\
                    (In c cols -> cellAt (ms w') c row i = Some (sentinel fl x))).
        { destruct (decide (c = c0)) as [->|Hc0].
          - destruct (Hok1 eq_refl Hne row Hrow) as [Hg1 Hc1].
            split; [apply in_or_app; auto|].
            intros i x Hx. destruct (Hc1 _ _ Hx) as (fl & Hfl & Hx1).
            exists fl. repeat split; auto; [congruence|].
            intros Hin'. rewrite <- Hn1 in Hrow.
            destruct (Hok2 eq_refl c0 Hin' Hne row Hrow) as [_ Hc2].
            destruct (Hc2 _ _ Hx1) as (fl' & Hfl' & Hx2).
            rewrite (flagAt_same _ _ row i Hflag1), Hfl in Hfl'.
            injection Hfl' as <-. rewrite Hx2, sentinel_idem. reflexivity.
          - destruct Hin as [?|Hin']; [congruence|].
            rewrite <- Hn1 in Hrow.
            destruct (Hok2 eq_refl c Hin' Hne row Hrow) as [Hg2 Hc2].
            split; [apply in_or_app; auto|].
            intros i x Hx.
            assert (Hx1 : cellAt (ms w1) c row i = Some x).
            { rewrite <- Hx. apply cellAt_same, dataRow_same, Hfr1, Hc0. }
            destruct (Hc2 _ _ Hx1) as (fl & Hfl & Hx2).
            rewrite (flagAt_same _ _ row i Hflag1) in Hfl.
            exists fl. repeat split; auto. congruence. }
        destruct Hcur as [Hg Hcur]. split; [exact Hg|].
        intros i x Hx. destruct (Hcur _ _ Hx) as (fl & Hfl & Hc0 & Hnc0 & Hrest').
        exists fl. split; [exact Hfl|].
        destruct (in_dec string_dec c cols) as [Hin'|Hni]; [auto|].
        destruct Hin as [->|?]; [|contradiction].
        rewrite <- (Hc0 eq_refl). apply cellAt_same, dataRow_same, Hfr2. auto.
    + destruct (replaceFlaggedColumn_post _ _ _ _ Hstep)
        as (Haft1 & Hws1 & evs1 & Htr1 & Hall1 & Hput1 & Hok1).
      pose proof Haft1 as (_ & _ & Hfr1 & _ & _).
      split; [eapply after_sameLayout; eauto|].
      split.
      { intros c' Hc'. destruct (decide (c0 = WEIGHT_SPECTRUM)) as [Hc0|Hc0].
        - rewrite (Hws1 Hc0). reflexivity.
        - apply Hfr1. destruct Hc' as [Hni| ->]; [|congruence].
          intros ->. apply Hni. simpl. auto. }
      exists evs1. split; [exact Htr1|]. split; [|split].
      * eapply Forall_impl; [exact Hall1|]. intros e (Hne & row & He).
        exists c0, row. simpl. destruct He as [?|[?|?]]; auto 10.
      * intros c row Hin. assert (c = c0) as ->.
        { rewrite List.Forall_forall in Hall1.
          destruct (Hall1 _ Hin) as (_ & row' & [?|[?|?]]); congruence. }
        auto.
      * intros ->. discriminate.
Qed.

(** ** A row with a flagged cell is written back *)

Lemma flaggedRow_sameLayout t t' c row :
  sameLayout t t' -> flaggedRow t c row -> flaggedRow t' c row.
Proof.
  intros (_ & _ & Hflag & Hlay) (i & Hs & Hf). exists i. split.
  - apply (cellAt_layout _ _ _ _ _ (Hlay c row)), Hs.
  - rewrite (flagAt_same _ _ row i Hflag). exact Hf.
Qed.

Lemma replaceFlaggedRow_writes c row dataArr flagArr w r w' evs :
  replaceFlaggedRow c row dataArr flagArr w = (r, w') ->
  isOk r = true -> flaggedRow (ms w) c row ->
  trace w' = trace w ++ evs -> In (Put c row) evs.
Proof.
  intros Hrun Hr (i & [x Hx] & Hf) Htr.
  destruct (replaceFlaggedRow_spec _ _ _ _ _ _ _ Hrun) as (evs0 & Htr0 & _ & _ & _ & Hok).
  rewrite Htr0 in Htr. apply app_inv_head in Htr as <-.
  destruct (Hok Hr) as (a & fa & d' & ch & Ha & Hfa & Hrf & _ & _ & Hch).
  apply Hch. apply (replaceFlagged_changed _ _ _ _ _ Hrf). right.
  unfold cellAt in Hx. rewrite Ha in Hx. unfold flagAt in Hf. rewrite Hfa in Hf.
  simpl in Hx, Hf. eauto.
Qed.

Lemma replaceFlaggedRows_writes c : forall l dataArr flagArr w w' evs row,
  replaceFlaggedRows c l dataArr flagArr w = (Ok tt, w') ->
  In row l -> flaggedRow (ms w) c row ->
  trace w' = trace w ++ evs -> In (Put c row) evs.
Proof.
  induction l as [|a l IH]; intros dataArr flagArr w w' evs row Hrun Hin Hfl Htr;
    [contradiction|].
  apply replaceFlaggedRows_cons_inv in Hrun
    as [(da & fb & w1 & Hstep & Hrest) | (r1 & _ & _ & ?)]; [|discriminate].
  destruct (replaceFlaggedRow_post _ _ _ _ _ _ _ Hstep) as (Haft1 & _ & evs1 & Htr1 & _).
  destruct (replaceFlaggedRows_post _ _ _ _ _ _ _ Hrest) as (_ & _ & evs2 & Htr2 & _).
  rewrite Htr2, Htr1, <- app_assoc in Htr. apply app_inv_head in Htr as <-.
  apply in_or_app. destruct Hin as [<-|Hin].
  - left. eapply replaceFlaggedRow_writes; eauto.
  - right. eapply IH; eauto.
    eapply flaggedRow_sameLayout; [eapply after_sameLayout, Haft1 | exact Hfl].
Qed.

Lemma replaceFlaggedColumn_writes c w w' evs row :
  replaceFlaggedColumn c w = (Ok tt, w') ->
  c <> WEIGHT_SPECTRUM -> (row < nrow (ms w))%nat -> flaggedRow (ms w) c row ->
  trace w' = trace w ++ evs -> In (Put c row) evs.
Proof.
  unfold replaceFlaggedColumn. intros Hrun Hws Hrow Hfl Htr.
  destruct (decide (c = WEIGHT_SPECTRUM)); [contradiction|].
  apply bind_inv in Hrun as [(? & ? & Hm & Hrun) | (r1 & _ & _ & Hr)];
    [apply ArrayColumn_Complex_inv in Hm as -> | destruct r1; discriminate].
  apply bind_inv in Hrun as [(? & ? & Hm & Hrun) | (r1 & _ & _ & Hr)];
    [apply ArrayColumn_bool_inv in Hm as -> | destruct r1; discriminate].
  apply bind_inv in Hrun as [(? & ? & Hm & Hrun) | (r1 & _ & _ & Hr)];
    [apply shape_Complex_inv in Hm as -> | destruct r1; discriminate].
  apply bind_inv in Hrun as [(? & ? & Hm & Hrun) | (r1 & _ & _ & Hr)];
    [apply shape_bool_inv in Hm as -> | destruct r1; discriminate].
  unfold bind, getTable in Hrun.
  eapply replaceFlaggedRows_writes; [exact Hrun | | exact Hfl | exact Htr].
  apply in_seq. lia.
Qed.

Lemma replaceFlaggedValues_writes : forall cols w w' evs c row,
  replaceFlaggedValues cols w = (Ok tt, w') ->
  In c cols -> c <> WEIGHT_SPECTRUM -> (row < nrow (ms w))%nat ->
  flaggedRow (ms w) c row ->
  trace w' = trace w ++ evs -> In (Put c row) evs.
Proof.
  unfold replaceFlaggedValues.
  induction cols as [|c0 cols IH]; intros w w' evs c row Hrun Hin Hws Hrow Hfl Htr;
    [contradiction|].
  apply forEach_cons_inv in Hrun as [(w1 & Hstep & Hrest) | [_ ?]]; [|discriminate].
  destruct (replaceFlaggedColumn_post _ _ _ _ Hstep) as (Haft1 & _ & evs1 & Htr1 & _).
  destruct (replaceFlaggedValues_post _ _ _ _ Hrest) as (_ & _ & evs2 & Htr2 & _).
  rewrite Htr2, Htr1, <- app_assoc in Htr. apply app_inv_head in Htr as <-.
  pose proof (after_sameLayout _ _ _ Haft1) as Hlay.
  apply in_or_app. destruct Hin as [<-|Hin].
  - left. eapply replaceFlaggedColumn_writes; eauto.
  - right. eapply (IH w1 w' evs2 c row); eauto.
    + destruct Hlay as (-> & _). exact Hrow.
    + eapply flaggedRow_sameLayout; eauto.
Qed.

(** ** The pass runs to its end on regular columns *)

Lemma regular_Regular t c : regular t c = true -> Regular t c.
Proof.
  unfold regular, Regular, rowOk, dataRow, flagRow.
  destruct (complexRows t c) as [drows|]; [|discriminate].
  destruct (boolRows t FLAG) as [frows|]; [|discriminate]. simpl.
  destruct (drows !! 0%nat) as [a0|]; [|discriminate].
  destruct (frows !! 0%nat) as [f0|]; [|discriminate].
  intros Hall. exists a0, f0. split; [reflexivity|]. split; [reflexivity|].
  intros row Hrow. rewrite forallb_forall in Hall.
  specialize (Hall row ltac:(apply in_seq; lia)).
  destruct (drows !! row) as [a|]; [|discriminate].
  destruct (frows !! row) as [fa|]; [|discriminate].
  apply andb_prop in Hall as [Hall Hlen]. apply andb_prop in Hall as [Hs1 Hs2].
  apply bool_decide_eq_true in Hs1, Hs2. apply Nat.leb_le in Hlen.
  exists a, fa. auto.
Qed.

Lemma rowOk_sameLayout t t' c dsh fsh row :
  sameLayout t t' -> rowOk t c dsh fsh row -> rowOk t' c dsh fsh row.
Proof.
  intros (_ & _ & Hflag & Hlay) (a & fa & Ha & Hfa & Hs & Hfs & Hlen).
  specialize (Hlay c row). rewrite Ha in Hlay. simpl in Hlay.
  destruct (dataRow t' c row) as [a'|] eqn:Ha'; [|discriminate].
  injection Hlay as Hs' Hl'.
  exists a', fa. rewrite (flagRow_same _ _ row Hflag).
  split; [exact Ha'|]. split; [exact Hfa|]. split; [congruence|].
  split; [exact Hfs|]. lia.
Qed.

Lemma Regular_sameLayout t t' c : sameLayout t t' -> Regular t c -> Regular t' c.
Proof.
  intros Hsame (a0 & f0 & Ha0 & Hf0 & Hrows).
  pose proof Hsame as (Hn & _ & Hflag & Hlay).
  specialize (Hlay c 0%nat). rewrite Ha0 in Hlay. simpl in Hlay.
  destruct (dataRow t' c 0) as [a0'|] eqn:Ha0'; [|discriminate].
  injection Hlay as Hs' _.
  exists a0', f0. split; [exact Ha0'|].
  split; [rewrite (flagRow_same _ _ _ Hflag); exact Hf0|].
  intros row Hrow. rewrite Hs'. eapply rowOk_sameLayout; [exact Hsame|].
  apply Hrows. lia.
Qed.

Lemma dataRow_Some t c row a :
  dataRow t c row = Some a ->
  exists dm rows, columns t !! c = Some (mkColumn dm (ComplexColumn rows)) /\
                  rows !! row = Some a.
Proof.
  unfold dataRow. destruct (complexRows t c) as [rows|] eqn:Hc; [|discriminate].
  simpl. intros Hrow. apply complexRows_Some in Hc as [dm Hc]. eauto.
Qed.

Lemma conforms_same sh : conforms sh sh = true.
Proof. unfold conforms. rewrite bool_decide_eq_true_2; reflexivity. Qed.

Lemma replaceFlaggedRow_total c row dataArr flagArr w :
  rowOk (ms w) c (shape dataArr) (shape flagArr) row ->
  exists dataArr' flagArr' w',
    replaceFlaggedRow c row dataArr flagArr w = (Ok (dataArr', flagArr'), w') /\
    shape dataArr' = shape dataArr /\ shape flagArr' = shape flagArr.
Proof.
  intros (a & fa & Ha & Hfa & Hs & Hfs & Hlen).
  destruct (replaceFlagged_total (elems a) (elems fa) false Hlen) as (d' & ch & Hrf).
  destruct (dataRow_Some _ _ _ _ Ha) as (dm & rows & Hc & Hrow).
  unfold dataRow in Ha. unfold flagRow in Hfa.
  destruct (complexRows (ms w) c) as [rows'|] eqn:Hcr; [|discriminate].
  destruct (boolRows (ms w) FLAG) as [frows|] eqn:Hbr; [|discriminate].
  simpl in Ha, Hfa.
  unfold replaceFlaggedRow, get_Complex, get_bool, put_Complex, fetch, bind, emit,
    getTable, setTable, lift, ret, throw. simpl.
  rewrite Hcr. simpl. rewrite Ha. rewrite Hs, conforms_same. simpl.
  rewrite Hbr. simpl. rewrite Hfa. rewrite Hfs, conforms_same. simpl.
  rewrite Hrf. simpl.
  destruct ch; [|eauto 10].
  simpl. rewrite Hc. rewrite decide_True by (eapply lookup_lt_Some, Hrow). simpl.
  eauto 10.
Qed.

Lemma replaceFlaggedRows_total c : forall l dataArr flagArr w,
  (forall row, In row l -> rowOk (ms w) c (shape dataArr) (shape flagArr) row) ->
  exists w', replaceFlaggedRows c l dataArr flagArr w = (Ok tt, w').
Proof.
  induction l as [|a l IH]; intros dataArr flagArr w Hrows; simpl.
  - unfold ret. eauto.
  - destruct (replaceFlaggedRow_total c a dataArr flagArr w)
      as (da & fb & w1 & Hstep & Hs1 & Hs2); [apply Hrows; simpl; auto|].
    destruct (replaceFlaggedRow_post _ _ _ _ _ _ _ Hstep) as (Haft & _).
    destruct (IH da fb w1) as (w' & Hrest).
    { intros row Hin. rewrite Hs1, Hs2.
      eapply rowOk_sameLayout; [eapply after_sameLayout, Haft|].
      apply Hrows. simpl. auto. }
    exists w'. unfold bind. rewrite Hstep. exact Hrest.
Qed.

Lemma replaceFlaggedColumn_total c w :
  (c <> WEIGHT_SPECTRUM -> Regular (ms w) c) ->
  exists w', replaceFlaggedColumn c w = (Ok tt, w').
Proof.
  intros Hreg. unfold replaceFlaggedColumn.
  destruct (decide (c = WEIGHT_SPECTRUM)) as [Hws|Hws]; [unfold ret; eauto|].
  destruct (Hreg Hws) as (a0 & f0 & Ha0 & Hf0 & Hrows).
  destruct (replaceFlaggedRows_total c (seq 0 (nrow (ms w)))
              (newArray (mkComplex 0 0) (shape a0)) (newArray false (shape f0)) w)
    as (w' & Hrun).
  { intros row Hin. simpl. apply Hrows. apply in_seq in Hin. lia. }
  exists w'.
  unfold dataRow in Ha0. unfold flagRow in Hf0.
  destruct (complexRows (ms w) c) as [rows|] eqn:Hcr; [|discriminate].
  destruct (boolRows (ms w) FLAG) as [frows|] eqn:Hbr; [|discriminate].
  simpl in Ha0, Hf0.
  unfold ArrayColumn_Complex, ArrayColumn_bool, shape_Complex, shape_bool, rowShape,
    bind, getTable, ret, throw. simpl.
  rewrite Hcr, Hbr. simpl. rewrite Hcr. simpl. rewrite Ha0. simpl.
  rewrite Hbr. simpl. rewrite Hf0. simpl. exact Hrun.
Qed.

Lemma replaceFlaggedValues_total : forall cols w,
  (forall c, In c cols -> c <> WEIGHT_SPECTRUM -> Regular (ms w) c) ->
  exists w', replaceFlaggedValues cols w = (Ok tt, w').
Proof.
  unfold replaceFlaggedValues.
  induction cols as [|c0 cols IH]; intros w Hreg; simpl.
  - unfold ret. eauto.
  - destruct (replaceFlaggedColumn_total c0 w) as (w1 & Hstep);
      [apply Hreg; simpl; auto|].
    destruct (replaceFlaggedColumn_post _ _ _ _ Hstep) as (Haft & _).
    destruct (IH w1) as (w' & Hrest).
    { intros c Hin Hne. eapply Regular_sameLayout; [eapply after_sameLayout, Haft|].
      apply Hreg; simpl; auto. }
    exists w'. unfold bind. rewrite Hstep. exact Hrest.
Qed.

(** ** Which events a computation adds *)

Lemma only_ret P {A} (a : A) : only P (ret a).
Proof.
  intros w r w' Hr. injection Hr as <- <-. exists []. rewrite app_nil_r. auto.
Qed.

Lemma only_throw P {A} what : only P (@throw A what).
Proof.
  intros w r w' Hr. injection Hr as <- <-. exists []. rewrite app_nil_r. auto.
Qed.

Lemma only_lift P {A} (x : Res A) : only P (lift x).
Proof.
  intros w r w' Hr. injection Hr as <- <-. exists []. rewrite app_nil_r. auto.
Qed.

Lemma only_getTable P : only P getTable.
Proof.
  intros w r w' Hr. injection Hr as <- <-. exists []. rewrite app_nil_r. auto.
Qed.

Lemma only_setTable P t : only P (setTable t).
Proof.
  intros w r w' Hr. injection Hr as <- <-. exists []. simpl. rewrite app_nil_r. auto.
Qed.

Lemma only_onTable P {A} (f : Table -> Res A * Table) : only P (onTable f).
Proof.
  intros w r w'. unfold onTable. destruct (f (ms w)) as [r0 t]. intros Hr.
  injection Hr as <- <-. exists []. simpl. rewrite app_nil_r. auto.
Qed.

Lemma only_emit (P : Event -> Prop) e : P e -> only P (emit e).
Proof.
  intros He w r w' Hr. injection Hr as <- <-. exists [e]. simpl. auto.
Qed.

Lemma only_bind P {A B} (m : M A) (k : A -> M B) :
  only P m -> (forall a, only P (k a)) -> only P (bind m k).
Proof.
  intros Hm Hk w r w' Hr.
  apply bind_inv in Hr as [(a & w1 & Hr1 & Hr2) | (r1 & Hr1 & _ & _)].
  - destruct (Hm _ _ _ Hr1) as (evs1 & Ht1 & H1).
    destruct (Hk a _ _ _ Hr2) as (evs2 & Ht2 & H2).
    exists (evs1 ++ evs2). rewrite Ht2, Ht1, app_assoc. split; [reflexivity|].
    apply Forall_app. auto.
  - apply (Hm _ _ _ Hr1).
Qed.

Lemma only_forEach P {A} (xs : list A) (body : A -> M unit) :
  (forall x, In x xs -> only P (body x)) -> only P (forEach xs body).
Proof.
  induction xs as [|x xs IH]; intros Hb; simpl.
  - apply only_ret.
  - apply only_bind; [apply Hb; simpl; auto|].
    intros _. apply IH. intros y Hy. apply Hb. simpl. auto.
Qed.

Lemma only_impl (P Q : Event -> Prop) {A} (m : M A) :
  (forall e, P e -> Q e) -> only P m -> only Q m.
Proof.
  intros HPQ Hm w r w' Hr. destruct (Hm _ _ _ Hr) as (evs & Htr & Hall).
  exists evs. split; [exact Htr|]. eapply Forall_impl; eauto.
Qed.

(** Proves [only P m] for a computation built from the operations above. *)
Ltac only_tac :=
  repeat first
    [ apply only_ret | apply only_throw | apply only_lift | apply only_getTable
    | apply only_setTable | apply only_onTable
    | apply only_emit; simpl; solve [auto]
    | apply only_bind; [|intros ?]
    | match goal with
      | |- only _ (match ?x with _ => _ end) => first [destruct x eqn:? | destruct x]
      | |- only _ (if ?x then _ else _) => first [destruct x eqn:? | destruct x]
      end ].

(** ** What leaves a part of the table alone *)

Lemma preserves_ret {X} (f : Table -> X) {A} (a : A) : preserves f (ret a).
Proof. intros w r w' Hr. injection Hr as <- <-. reflexivity. Qed.

Lemma preserves_throw {X} (f : Table -> X) {A} what : preserves f (@throw A what).
Proof. intros w r w' Hr. injection Hr as <- <-. reflexivity. Qed.

Lemma preserves_lift {X} (f : Table -> X) {A} (x : Res A) : preserves f (lift x).
Proof. intros w r w' Hr. injection Hr as <- <-. reflexivity. Qed.

Lemma preserves_getTable {X} (f : Table -> X) : preserves f getTable.
Proof. intros w r w' Hr. injection Hr as <- <-. reflexivity. Qed.

Lemma preserves_emit {X} (f : Table -> X) e : preserves f (emit e).
Proof. intros w r w' Hr. injection Hr as <- <-. reflexivity. Qed.

Lemma preserves_bind {X} (f : Table -> X) {A B} (m : M A) (k : A -> M B) :
  preserves f m -> (forall a, preserves f (k a)) -> preserves f (bind m k).
Proof.
  intros Hm Hk w r w' Hr.
  apply bind_inv in Hr as [(a & w1 & Hr1 & Hr2) | (r1 & Hr1 & _ & _)].
  - rewrite (Hk a _ _ _ Hr2). apply (Hm _ _ _ Hr1).
  - apply (Hm _ _ _ Hr1).
Qed.

Lemma preserves_forEach {X} (f : Table -> X) {A} (xs : list A) (body : A -> M unit) :
  (forall x, In x xs -> preserves f (body x)) -> preserves f (forEach xs body).
Proof.
  induction xs as [|x xs IH]; intros Hb; simpl.
  - apply preserves_ret.
  - apply preserves_bind; [apply Hb; simpl; auto|].
    intros _. apply IH. intros y Hy. apply Hb. simpl. auto.
Qed.

Lemma findDataManager_inv name w r w' :
  findDataManager name w = (r, w') ->
  ms w' = ms w /\ trace w' = trace w ++ [FindDataManager name] /\
  (forall dm, r = Ok dm -> dataManagers (ms w) !! name = Some dm) /\
  (isOk r = false -> dataManagers (ms w) !! name = None).
Proof.
  unfold findDataManager, bind, emit, getTable, ret, throw. simpl.
  destruct (dataManagers (ms w) !! name) as [dm|]; intros Hr; injection Hr as <- <-;
    simpl; repeat split; auto; try discriminate.
  intros dm' Hdm. congruence.
Qed.

Lemma addColumn_new_flags T name sh dm :
  name <> FLAG -> preserves (fun t => columns t !! FLAG) (addColumn_new T name sh dm).
Proof.
  intros Hne w r w'. unfold addColumn_new, bind, emit, getTable, setTable, throw. simpl.
  destruct (columns (ms w) !! name); intros Hr; injection Hr as <- <-; simpl;
    [reflexivity|]. apply lookup_insert_ne. exact Hne.
Qed.

Lemma addColumn_existing_flags T name sh :
  name <> FLAG -> preserves (fun t => columns t !! FLAG) (addColumn_existing T name sh).
Proof.
  intros Hne w r w'.
  unfold addColumn_existing, bind, emit, getTable, setTable, throw. simpl.
  destruct (columns (ms w) !! name); [|destruct (dataManagers (ms w) !! DyscoStManName)];
    intros Hr; injection Hr as <- <-; simpl; try reflexivity.
  apply lookup_insert_ne. exact Hne.
Qed.

Lemma addColumn_existing_managers T name sh :
  preserves dataManagers (addColumn_existing T name sh).
Proof.
  intros w r w'.
  unfold addColumn_existing, bind, emit, getTable, setTable, throw. simpl.
  destruct (columns (ms w) !! name); [|destruct (dataManagers (ms w) !! DyscoStManName)];
    intros Hr; injection Hr as <- <-; reflexivity.
Qed.

Lemma addColumn_existing_trace T name sh w r w' :
  addColumn_existing T name sh w = (r, w') ->
  trace w' = trace w ++ [AddColumnExisting T name sh].
Proof.
  unfold addColumn_existing, bind, emit, getTable, setTable, throw. simpl.
  destruct (columns (ms w) !! name); [|destruct (dataManagers (ms w) !! DyscoStManName)];
    intros Hr; injection Hr as <- <-; reflexivity.
Qed.

Section Run.
Context `{H : Host}.

(** ** [createDyscoStManColumn] *)

Lemma createDyscoStManColumn_inv T name sh b1 b2 n d nu x w r w' :
  createDyscoStManColumn T name sh b1 b2 n d nu x w = (r, w') ->
  exists w1, ms w1 = ms w /\ trace w1 = trace w ++ [FindDataManager DyscoStManName] /\
    ((is_Some (dataManagers (ms w) !! DyscoStManName) /\
      addColumn_existing T name sh w1 = (r, w')) \/
     (dataManagers (ms w) !! DyscoStManName = None /\
      (emit (NewDyscoStMan b1 b2) ;;;
       dataManager <- lift (DyscoStMan_new b1 b2) ;;
       dataManager <- setDistribution d nu x dataManager ;;
       emit (SetNorm n) ;;;
       dataManager <- lift (SetNormalization n dataManager) ;;
       addColumn_new T name sh dataManager) w1 = (r, w'))).
Proof.
  unfold createDyscoStManColumn.
  destruct (findDataManager DyscoStManName w) as [r0 w1] eqn:Hfind.
  pose proof (findDataManager_inv _ _ _ _ Hfind) as (Hms & Htr & Hsome & Hnone).
  intros Hr. exists w1. split; [exact Hms|]. split; [exact Htr|].
  destruct r0 as [dm| |].
  - left. split; [rewrite (Hsome dm eq_refl); eauto | exact Hr].
  - right. split; [apply Hnone; reflexivity | exact Hr].
  - (* [findDataManager] returns or throws *)
    exfalso. clear Hr Hsome Hnone.
    unfold findDataManager, bind, emit, getTable, ret, throw in Hfind. simpl in Hfind.
    destruct (dataManagers (ms w) !! DyscoStManName); discriminate.
Qed.

Lemma createDyscoStManColumn_events o msPath c sh :
  In c (columnNames o) ->
  only (replaceEvent o msPath)
    (createDyscoStManColumn (elemTypeOf c) c sh (bitsPerFloat o) (bitsPerWeight o)
       (normalization o) (distribution o) d_1_0 (distributionTruncation o)).
Proof.
  intros Hin w r w' Hr.
  apply createDyscoStManColumn_inv in Hr as (w1 & _ & Htr1 & [[_ Hr] | [_ Hr]]).
  - apply addColumn_existing_trace in Hr.
    exists [FindDataManager DyscoStManName; AddColumnExisting (elemTypeOf c) c sh].
    rewrite Hr, Htr1, <- app_assoc. split; [reflexivity|].
    repeat constructor; simpl; auto.
  - assert (Hblock : only (replaceEvent o msPath)
      (emit (NewDyscoStMan (bitsPerFloat o) (bitsPerWeight o)) ;;;
       dataManager <- lift (DyscoStMan_new (bitsPerFloat o) (bitsPerWeight o)) ;;
       dataManager <- setDistribution (distribution o) d_1_0 (distributionTruncation o)
                        dataManager ;;
       emit (SetNorm (normalization o)) ;;;
       dataManager <- lift (SetNormalization (normalization o) dataManager) ;;
       addColumn_new (elemTypeOf c) c sh dataManager)).
    { unfold setDistribution, addColumn_new. only_tac. }
    destruct (Hblock _ _ _ Hr) as (evs & Htr & Hall).
    exists (FindDataManager DyscoStManName :: evs).
    rewrite Htr, Htr1, <- app_assoc. split; [reflexivity|].
    constructor; [reflexivity | exact Hall].
Qed.

(** ** The loop that prepares the columns *)

Lemma callPrepare_inv T c b1 b2 sh w r w' :
  callPrepare T c b1 b2 sh w = (r, w') ->
  PrepareReplacingColumn T c DyscoStManName b1 b2 sh (ms w) = (r, ms w') /\
  trace w' = trace w ++ [Prepare T c b1 b2 (replacedOf r)].
Proof.
  unfold callPrepare.
  destruct (PrepareReplacingColumn T c DyscoStManName b1 b2 sh (ms w)) as [r0 t].
  intros Hr. injection Hr as <- <-. auto.
Qed.

Lemma replacedOf_failure {A} (r1 : Res A) : replacedOf (failure r1) = None.
Proof. destruct r1; reflexivity. Qed.

Lemma prepareColumns_post names0 b1 b2 : forall names sh b w r w',
  incl names names0 ->
  prepareColumns names b1 b2 sh b w = (r, w') ->
  exists evs, trace w' = trace w ++ evs /\
    Forall (prepareEvent names0 b1 b2) evs /\
    (forall sh' b', r = Ok (sh', b') -> b' = true ->
       b = true \/ exists T c bf bw, In (Prepare T c bf bw (Some true)) evs) /\
    ((forall T c bf bw x, In (Prepare T c bf bw x) evs -> x = Some false) ->
       (exists sh', r = Ok (sh', b)) /\ (prepareInspects -> ms w' = ms w)) /\
    (modifierKeepsFlags -> ~ In FLAG names ->
       columns (ms w') !! FLAG = columns (ms w) !! FLAG).
Proof.
  induction names as [|c names IH]; intros sh b w r w' Hincl Hrun; simpl in Hrun.
  - injection Hrun as <- <-. exists []. rewrite app_nil_r.
    repeat split; auto.
    + intros sh' b' Heq ->. injection Heq as _ ->. auto.
    + eauto.
  - apply bind_inv in Hrun as [([replaced sh1] & w1 & Hcall & Hrest) | (r1 & Hcall & Hf & ->)].
    + apply callPrepare_inv in Hcall as [Hhost Htr1]. simpl in Htr1.
      destruct (IH sh1 (replaced || b) w1 r w') as (evs & Htr & Hall & Htrue & Hfalse & Hflag);
        [intros x Hx; apply Hincl; simpl; auto | exact Hrest |].
      exists (Prepare (elemTypeOf c) c b1 b2 (Some replaced) :: evs).
      rewrite Htr, Htr1, <- app_assoc. split; [reflexivity|].
      split.
      { constructor; [|exact Hall]. simpl.
        split; [apply Hincl; simpl; auto|]. split; [reflexivity|].
        split; [reflexivity|]. split; [reflexivity|].
        exists sh, (ms w). rewrite Hhost. reflexivity. }
      split; [|split].
      * intros sh' b' Hr Hb'. destruct (Htrue _ _ Hr Hb') as [Hb|(T & c' & bf & bw & Hin)].
        -- destruct replaced; simpl in Hb; [|auto].
           right. exists (elemTypeOf c), c, b1, b2. simpl. auto.
        -- right. exists T, c', bf, bw. simpl. auto.
      * intros Hnone.
        assert (replaced = false) as ->.
        { specialize (Hnone (elemTypeOf c) c b1 b2 (Some replaced) ltac:(simpl; auto)).
          congruence. }
        destruct Hfalse as [Hres Hms]; [intros T c' bf bw x Hin; eapply Hnone; simpl; eauto|].
        split; [exact Hres|].
        intros Hinsp. rewrite (Hms Hinsp). eapply Hinsp, Hhost.
      * intros Hkeep Hni. rewrite Hflag; [|exact Hkeep|intros ?; apply Hni; simpl; auto].
        destruct Hkeep as (Hprep & _ & _). eapply Hprep; [|exact Hhost].
        intros ->. apply Hni. simpl. auto.
    + apply callPrepare_inv in Hcall as [Hhost Htr1].
      exists [Prepare (elemTypeOf c) c b1 b2 (replacedOf r1)]. split; [exact Htr1|].
      split.
      { constructor; [|constructor]. simpl.
        split; [apply Hincl; simpl; auto|]. split; [reflexivity|].
        split; [reflexivity|]. split; [reflexivity|].
        exists sh, (ms w). rewrite Hhost. reflexivity. }
      split; [|split].
      * intros sh' b' Hr. exfalso. exact (failure_not_Ok _ _ Hr).
      * intros Hnone. exfalso.
        specialize (Hnone (elemTypeOf c) c b1 b2 (replacedOf r1) ltac:(simpl; auto)).
        destruct r1; simpl in *; discriminate.
      * intros (Hprep & _ & _) Hni. eapply Hprep; [|exact Hhost].
        intros ->. apply Hni. simpl. auto.
Qed.

(** ** Lines 272-289 *)

Lemma callMove_events o msPath c :
  In c (columnNames o) -> only (replaceEvent o msPath) (callMove (elemTypeOf c) c).
Proof. intros Hin. unfold callMove. only_tac. Qed.

Lemma callReorder_events o msPath :
  reorder o = true -> only (replaceEvent o msPath) (callReorder msPath).
Proof. intros Hre. unfold callReorder. only_tac. Qed.

Lemma replaceColumns_events o msPath sh :
  only (replaceEvent o msPath) (replaceColumns o msPath sh).
Proof.
  unfold replaceColumns.
  apply only_bind; [apply only_forEach; intros c Hc; apply createDyscoStManColumn_events, Hc|].
  intros _.
  apply only_bind; [apply only_forEach; intros c Hc; apply callMove_events, Hc|].
  intros _. destruct (reorder o) eqn:Hre; [apply callReorder_events, Hre | apply only_ret].
Qed.

Lemma createDyscoStManColumn_flags T name sh b1 b2 n d nu x :
  name <> FLAG ->
  preserves (fun t => columns t !! FLAG) (createDyscoStManColumn T name sh b1 b2 n d nu x).
Proof.
  intros Hne w r w' Hr.
  apply createDyscoStManColumn_inv in Hr as (w1 & Hms & _ & [[_ Hr] | [_ Hr]]);
    rewrite <- Hms.
  - exact (addColumn_existing_flags _ _ _ Hne _ _ _ Hr).
  - revert Hr. generalize w1 r w'. change (preserves (fun t => columns t !! FLAG)
      (emit (NewDyscoStMan b1 b2) ;;;
       dataManager <- lift (DyscoStMan_new b1 b2) ;;
       dataManager <- setDistribution d nu x dataManager ;;
       emit (SetNorm n) ;;;
       dataManager <- lift (SetNormalization n dataManager) ;;
       addColumn_new T name sh dataManager)).
    apply preserves_bind; [apply preserves_emit | intros _].
    apply preserves_bind; [apply preserves_lift | intros dm0].
    apply preserves_bind;
      [destruct d; simpl;
       (apply preserves_bind; [apply preserves_emit | intros _; apply preserves_lift])
      | intros dm1].
    apply preserves_bind; [apply preserves_emit | intros _].
    apply preserves_bind; [apply preserves_lift | intros dm2].
    apply addColumn_new_flags, Hne.
Qed.

Lemma callMove_flags T c :
  modifierKeepsFlags -> c <> FLAG ->
  preserves (fun t => columns t !! FLAG) (callMove T c).
Proof.
  intros (_ & Hmove & _) Hne w r w'. unfold callMove, bind, emit, onTable. simpl.
  destruct (MoveColumnData T c (ms w)) as [r0 t] eqn:Hhost.
  intros Hr. assert (ms w' = t) as -> by (destruct r0; injection Hr as _ <-; reflexivity).
  eapply Hmove; eauto.
Qed.

Lemma callReorder_flags msPath :
  modifierKeepsFlags -> preserves (fun t => columns t !! FLAG) (callReorder msPath).
Proof.
  intros (_ & _ & Hre) w r w'. unfold callReorder, bind, emit, onTable. simpl.
  destruct (Reorder msPath (ms w)) as [r0 t] eqn:Hhost.
  intros Hr. assert (ms w' = t) as -> by (destruct r0; injection Hr as _ <-; reflexivity).
  eapply Hre; eauto.
Qed.

Lemma replaceColumns_flags o msPath sh :
  modifierKeepsFlags -> ~ In FLAG (columnNames o) ->
  preserves (fun t => columns t !! FLAG) (replaceColumns o msPath sh).
Proof.
  intros Hkeep Hni. unfold replaceColumns.
  apply preserves_bind.
  { apply preserves_forEach. intros c Hc. apply createDyscoStManColumn_flags.
    intros ->. contradiction. }
  intros _. apply preserves_bind.
  { apply preserves_forEach. intros c Hc. apply callMove_flags; [exact Hkeep|].
    intros ->. contradiction. }
  intros _. destruct (reorder o); [apply callReorder_flags, Hkeep | apply preserves_ret].
Qed.

(** ** The migration *)

Lemma migrate_post o msPath w r w' :
  migrate o msPath w = (r, w') ->
  exists prep repl, trace w' = trace w ++ prep ++ repl /\
    Forall (prepareEvent (columnNames o) (bitsPerFloat o) (bitsPerWeight o)) prep /\
    Forall (replaceEvent o msPath) repl /\
    (repl <> [] -> exists T c bf bw, In (Prepare T c bf bw (Some true)) prep) /\
    ((forall T c bf bw x, In (Prepare T c bf bw x) prep -> x = Some false) ->
       repl = [] /\ r = Ok tt /\ (prepareInspects -> ms w' = ms w)) /\
    (modifierKeepsFlags -> ~ In FLAG (columnNames o) ->
       columns (ms w') !! FLAG = columns (ms w) !! FLAG).
Proof.
  unfold migrate. intros Hrun.
  apply bind_inv in Hrun as [([sh b] & w1 & Hprep & Hrest) | (r1 & Hprep & Hf & ->)].
  - destruct (prepareColumns_post (columnNames o) _ _ _ _ _ _ _ _ (incl_refl _) Hprep)
      as (prep & Htr1 & Hall1 & Htrue & Hfalse & Hflag).
    destruct b.
    + destruct (replaceColumns_events o msPath sh _ _ _ Hrest) as (repl & Htr2 & Hall2).
      exists prep, repl. rewrite Htr2, Htr1, app_assoc.
      split; [reflexivity|]. split; [exact Hall1|]. split; [exact Hall2|].
      split; [|split].
      * intros _. destruct (Htrue _ _ eq_refl eq_refl) as [?|?]; [discriminate|auto].
      * intros Hnone. destruct (Hfalse Hnone) as [[sh' Heq] _]. discriminate.
      * intros Hkeep Hni.
        rewrite (replaceColumns_flags o msPath sh Hkeep Hni _ _ _ Hrest). auto.
    + injection Hrest as <- <-.
      exists prep, []. rewrite app_nil_r.
      split; [exact Htr1|]. split; [exact Hall1|]. split; [constructor|].
      split; [|split].
      * intros Hne. contradiction.
      * intros Hnone. destruct (Hfalse Hnone) as [_ Hms]. auto.
      * exact Hflag.
  - destruct (prepareColumns_post (columnNames o) _ _ _ _ _ _ _ _ (incl_refl _) Hprep)
      as (prep & Htr1 & Hall1 & Htrue & Hfalse & Hflag).
    exists prep, []. rewrite app_nil_r.
    split; [exact Htr1|]. split; [exact Hall1|]. split; [constructor|].
    split; [|split].
    + intros Hne. contradiction.
    + intros Hnone. destruct (Hfalse Hnone) as [[sh' Heq] _]. subst r1. discriminate.
    + exact Hflag.
Qed.

(** ** The flag column is no data column *)

Lemma replaceFlaggedColumn_FLAG w r w' :
  replaceFlaggedColumn FLAG w = (r, w') -> isOk r = false.
Proof.
  unfold replaceFlaggedColumn.
  destruct (decide (FLAG = WEIGHT_SPECTRUM)) as [Heq|_]; [discriminate|].
  unfold ArrayColumn_Complex, ArrayColumn_bool, complexRows, boolRows, bind, getTable,
    ret, throw. simpl.
  destruct (columns (ms w) !! FLAG) as [[dm [rows|rows|rows]]|] eqn:E; simpl;
    rewrite ?E; simpl; intros Hr; injection Hr as <- _; reflexivity.
Qed.

Lemma replaceFlaggedValues_Ok_FLAG : forall cols w w',
  replaceFlaggedValues cols w = (Ok tt, w') -> ~ In FLAG cols.
Proof.
  unfold replaceFlaggedValues.
  induction cols as [|c cols IH]; intros w w' Hrun; [auto|].
  apply forEach_cons_inv in Hrun as [(w1 & Hstep & Hrest) | [_ Hf]]; [|discriminate].
  intros [->|Hin].
  - apply replaceFlaggedColumn_FLAG in Hstep. discriminate.
  - exact (IH _ _ Hrest Hin).
Qed.

Lemma cell_and_flag t c row i b :
  is_Some (cellAt t c row i) -> flagAt t row i = Some b -> c <> FLAG.
Proof.
  intros [x Hx] Hf ->. unfold cellAt, dataRow, complexRows in Hx.
  unfold flagAt, flagRow, boolRows in Hf.
  destruct (columns t !! FLAG) as [[dm [rows|rows|rows]]|]; discriminate.
Qed.

Lemma replaceFlaggedValues_events cols w r w' :
  replaceFlaggedValues cols w = (r, w') ->
  exists pass, trace w' = trace w ++ pass /\ Forall (passEvent cols) pass.
Proof.
  intros Hrun.
  destruct (replaceFlaggedValues_post _ _ _ _ Hrun) as (_ & _ & evs & Htr & Hall & Hput & _).
  exists evs. split; [exact Htr|].
  rewrite List.Forall_forall in *. intros e He.
  destruct (Hall e He) as (c & row & [->|(Hin & Hne & [->| ->])]); simpl; auto.
  destruct (Hput _ _ He) as (i & Hs & Hf).
  repeat split; auto. eapply cell_and_flag; eauto.
Qed.

(** ** The command line and [main] *)


Lemma main_inv argv disk r w :
  main argv disk = (r, Some w) ->
  exists o rest msPath t r',
    parseOptions (tail argv) defaults = Ok (o, msPath :: rest) /\
    disk msPath = Some t /\
    compress (defaultColumn o) msPath (mkWorld t [OpenUpdate msPath]) = (r', w) /\
    r = res_map (fun _ => 0) r'.
Proof.
  unfold main. destruct (decide (length argv < 2)%nat); [discriminate|].
  destruct (parseOptions (tail argv) defaults) as [[o rest]|what|]; try discriminate.
  destruct rest as [|msPath rest]; [discriminate|].
  destruct (disk msPath) as [t|] eqn:Hd; [|discriminate].
  destruct (compress (defaultColumn o) msPath (mkWorld t [OpenUpdate msPath]))
    as [r' w0] eqn:Hc.
  intros Hr. injection Hr as <- <-. exists o, rest, msPath, t, r'. auto.
Qed.

Lemma compress_inv o msPath w r w' :
  compress o msPath w = (r, w') ->
  (exists wp, replaceFlaggedValues (columnNames o) w = (Ok tt, wp) /\
              migrate o msPath wp = (r, w')) \/
  (exists rp, replaceFlaggedValues (columnNames o) w = (rp, w') /\
              isOk rp = false /\ r = failure rp).
Proof.
  unfold compress. intros Hr.
  apply bind_inv in Hr as [([] & wp & Hp & Hm) | (rp & Hp & Hf & ->)]; eauto.
Qed.

Lemma count_zero (p : Event -> bool) evs :
  Forall (fun e => p e = false) evs -> count p evs = 0%nat.
Proof.
  unfold count. induction 1 as [|e evs He _ IH]; [reflexivity|].
  rewrite filter_cons. destruct (decide (p e = true)) as [Hp|_]; [congruence|exact IH].
Qed.

Lemma passEvent_class names e :
  passEvent names e ->
  isFlagPass e = true /\ isMigration e = false /\ isPrepare e = false /\
  isManagerCreation e = false /\ isSetter e = false /\ isColumnCreation e = false /\
  isDataMove e = false /\ isReorder e = false.
Proof. destruct e; simpl; intros He; try contradiction; auto 10. Qed.

Lemma prepareEvent_class names b1 b2 e :
  prepareEvent names b1 b2 e ->
  isMigration e = true /\ isFlagPass e = false /\ isPrepare e = true /\
  isManagerCreation e = false /\ isSetter e = false /\ isColumnCreation e = false /\
  isDataMove e = false /\ isReorder e = false.
Proof. destruct e; simpl; intros He; try contradiction; auto 10. Qed.

Lemma replaceEvent_class o msPath e :
  replaceEvent o msPath e ->
  isMigration e = true /\ isFlagPass e = false /\ isPrepare e = false.
Proof. destruct e; simpl; intros He; try contradiction; auto. Qed.

(** ** The properties of the flag-to-NaN pass *)

(** C1. On columns that are regular, the pass runs to its end; then, in
    every row of every requested column other than the weight column, a
    cell whose flag is set holds the quiet NaN in its real and in its
    imaginary part, and a cell whose flag is not set holds what it held. *)
Theorem flagged_cells_become_NaN cols w :
  (forall c, In c cols -> c <> WEIGHT_SPECTRUM -> regular (ms w) c = true) ->
  exists w', replaceFlaggedValues cols w = (Ok tt, w') /\
    forall c row i x fl,
      In c cols -> c <> WEIGHT_SPECTRUM -> (row < nrow (ms w))%nat ->
      cellAt (ms w) c row i = Some x ->
      flagAt (ms w) row i = Some fl ->
      (fl = true ->
         exists y, cellAt (ms w') c row i = Some y /\
                   real y = quiet_NaN /\ imag y = quiet_NaN) /\
      (fl = false -> cellAt (ms w') c row i = Some x).
Proof.
  intros Hreg.
  destruct (replaceFlaggedValues_total cols w) as (w' & Hrun).
  { intros c Hin Hne. apply regular_Regular, Hreg; assumption. }
  exists w'. split; [exact Hrun|].
  destruct (replaceFlaggedValues_post _ _ _ _ Hrun) as (_ & _ & evs & _ & _ & _ & Hok).
  intros c row i x fl Hin Hne Hrow Hx Hfl.
  destruct (Hok eq_refl c Hin Hne row Hrow) as [_ Hcells].
  destruct (Hcells _ _ Hx) as (fl' & Hfl' & Hx').
  assert (fl' = fl) as -> by congruence.
  split; intros ->; simpl in Hx'.
  - exists NaN. auto.
  - exact Hx'.
Qed.

(** C7, as the code has it.  A row is written back only if the flag of one
    of its cells is set, that is, only if one of its cells was assigned the
    sentinel; [isChanged] is set by the assignment, whatever the cell held,
    so that, when the pass runs to its end, every row with a flagged cell
    has been written back.  On a table without a set flag the pass writes
    nothing. *)
Theorem rows_written_only_when_flagged cols w r w' :
  replaceFlaggedValues cols w = (r, w') ->
  exists evs, trace w' = trace w ++ evs /\
    (forall c row, In (Put c row) evs ->
       exists i x, cellAt (ms w) c row i = Some x /\ flagAt (ms w) row i = Some true) /\
    (r = Ok tt -> forall c row,
       In c cols -> c <> WEIGHT_SPECTRUM -> (row < nrow (ms w))%nat ->
       flaggedRow (ms w) c row -> In (Put c row) evs) /\
    ((forall row i, flagAt (ms w) row i <> Some true) -> count isWrite evs = 0%nat).
Proof.
  intros Hrun.
  destruct (replaceFlaggedValues_post _ _ _ _ Hrun) as (_ & _ & evs & Htr & Hall & Hput & _).
  exists evs. split; [exact Htr|]. split; [|split].
  - intros c row Hin. destruct (Hput _ _ Hin) as (i & [x Hx] & Hf). eauto.
  - intros -> c row Hin Hws Hrow Hfl.
    exact (replaceFlaggedValues_writes _ _ _ _ _ _ Hrun Hin Hws Hrow Hfl Htr).
  - intros Hnoflag. apply count_zero. rewrite List.Forall_forall. intros e He.
    destruct e; try reflexivity.
    destruct (Hput _ _ He) as (i & _ & Hf). exfalso. exact (Hnoflag _ _ Hf).
Qed.

(** C8. The pass skips the weight column, which it neither reads nor
    writes, and, when it runs to its end, has visited every row of every
    other requested column and replaced its flagged cells. *)
Theorem weight_column_is_skipped cols w r w' :
  replaceFlaggedValues cols w = (r, w') ->
  columns (ms w') !! WEIGHT_SPECTRUM = columns (ms w) !! WEIGHT_SPECTRUM /\
  exists evs, trace w' = trace w ++ evs /\
    (forall e, In e evs -> columnOf e <> Some WEIGHT_SPECTRUM) /\
    (r = Ok tt -> forall c row,
       In c cols -> c <> WEIGHT_SPECTRUM -> (row < nrow (ms w))%nat ->
       In (Get c row) evs /\
       forall i x, cellAt (ms w) c row i = Some x ->
         exists fl, flagAt (ms w) row i = Some fl /\
                    cellAt (ms w') c row i = Some (sentinel fl x)).
Proof.
  intros Hrun.
  destruct (replaceFlaggedValues_post _ _ _ _ Hrun) as (_ & Hfr & evs & Htr & Hall & _ & Hok).
  split; [apply Hfr; auto|].
  exists evs. split; [exact Htr|]. split.
  - rewrite List.Forall_forall in Hall. intros e He.
    destruct (Hall e He) as (c & row & [->|(_ & Hne & [->| ->])]); simpl;
      try congruence. discriminate.
  - intros Hr c row Hin Hne Hrow. exact (Hok Hr c Hin Hne row Hrow).
Qed.

(** ** The properties of the migration *)

(** C4. When the table has a data manager named [DyscoStMan],
    [createDyscoStManColumn] asks for it and adds the column to it, and does
    nothing else: no manager is constructed, no setter is called, and the
    data managers of the table, with their configuration, stay as they
    were. *)
Theorem existing_manager_is_not_reconfigured T name sh b1 b2 n d nu x w r w' dm :
  dataManagers (ms w) !! DyscoStManName = Some dm ->
  createDyscoStManColumn T name sh b1 b2 n d nu x w = (r, w') ->
  exists evs, trace w' = trace w ++ evs /\
    evs = [FindDataManager DyscoStManName; AddColumnExisting T name sh] /\
    count isManagerCreation evs = 0%nat /\ count isSetter evs = 0%nat /\
    dataManagers (ms w') = dataManagers (ms w) /\
    dataManagers (ms w') !! DyscoStManName = Some dm.
Proof.
  intros Hdm Hr.
  apply createDyscoStManColumn_inv in Hr as (w1 & Hms & Htr1 & [[_ Hr] | [Hnone _]]);
    [|congruence].
  pose proof (addColumn_existing_trace _ _ _ _ _ _ Hr) as Htr.
  pose proof (addColumn_existing_managers _ _ _ _ _ _ Hr) as Hman.
  exists [FindDataManager DyscoStManName; AddColumnExisting T name sh].
  rewrite Htr, Htr1, <- app_assoc. repeat split; auto.
  - rewrite Hman, Hms. reflexivity.
  - rewrite Hman, Hms. exact Hdm.
Qed.

(** The events of a run, in their order: the pass, the preparation, and the
    replacement. *)
Lemma compress_post o msPath w r w' :
  compress o msPath w = (r, w') ->
  exists rp wp pass prep repl,
    replaceFlaggedValues (columnNames o) w = (rp, wp) /\
    trace wp = trace w ++ pass /\
    trace w' = trace wp ++ prep ++ repl /\
    Forall (passEvent (columnNames o)) pass /\
    Forall (prepareEvent (columnNames o) (bitsPerFloat o) (bitsPerWeight o)) prep /\
    Forall (replaceEvent o msPath) repl /\
    (prep ++ repl <> [] -> rp = Ok tt) /\
    (repl <> [] -> exists T c bf bw, In (Prepare T c bf bw (Some true)) prep) /\
    ((forall T c bf bw x, In (Prepare T c bf bw x) prep -> x = Some false) ->
       repl = [] /\ (prepareInspects -> ms w' = ms wp)) /\
    (modifierKeepsFlags -> columns (ms w') !! FLAG = columns (ms wp) !! FLAG).
Proof.
  intros Hrun. apply compress_inv in Hrun as [(wp & Hp & Hm) | (rp & Hp & Hf & ->)].
  - destruct (replaceFlaggedValues_events _ _ _ _ Hp) as (pass & Htr1 & Hall1).
    destruct (migrate_post _ _ _ _ _ Hm) as (prep & repl & Htr2 & Hall2 & Hall3 & Htrue & Hfalse & Hflag).
    exists (Ok tt), wp, pass, prep, repl.
    split; [exact Hp|]. split; [exact Htr1|]. split; [exact Htr2|].
    split; [exact Hall1|]. split; [exact Hall2|]. split; [exact Hall3|].
    split; [reflexivity|]. split; [exact Htrue|]. split.
    + intros Hnone. destruct (Hfalse Hnone) as (? & _ & ?). auto.
    + intros Hkeep. apply Hflag; [exact Hkeep|].
      eapply replaceFlaggedValues_Ok_FLAG, Hp.
  - destruct (replaceFlaggedValues_events _ _ _ _ Hp) as (pass & Htr1 & Hall1).
    exists rp, w', pass, [], []. simpl. rewrite app_nil_r.
    split; [exact Hp|]. split; [exact Htr1|]. split; [reflexivity|].
    split; [exact Hall1|]. split; [constructor|]. split; [constructor|].
    split; [intros Hne; contradiction|]. split; [intros Hne; contradiction|].
    split; auto.
Qed.

(** C2. When every call of [PrepareReplacingColumn] reports that the column
    is not replaced, the run creates no manager and no column, moves no data
    and does not reorder; given that such a call leaves the table as it
    was, the table at the end is the table that the pass has left. *)
Theorem nothing_replaced_nothing_done o msPath w r w' :
  compress o msPath w = (r, w') ->
  (forall T c bf bw x, In (Prepare T c bf bw x) (trace w') -> x = Some false) ->
  exists evs, trace w' = trace w ++ evs /\
    count isManagerCreation evs = 0%nat /\
    count isColumnCreation evs = 0%nat /\
    count isDataMove evs = 0%nat /\
    count isReorder evs = 0%nat /\
    (prepareInspects ->
       forall rp wp, replaceFlaggedValues (columnNames o) w = (rp, wp) -> ms w' = ms wp).
Proof.
  intros Hrun Hnone.
  destruct (compress_post _ _ _ _ _ Hrun)
    as (rp & wp & pass & prep & repl & Hp & Htr1 & Htr2 & Hall1 & Hall2 & _ & _ & _ & Hfalse & _).
  destruct Hfalse as [-> Hms].
  { intros T c bf bw x Hin. apply (Hnone T c bf bw x). rewrite Htr2.
    apply in_or_app. right. apply in_or_app. auto. }
  rewrite app_nil_r in Htr2.
  exists (pass ++ prep). rewrite Htr2, Htr1, app_assoc. split; [reflexivity|].
  assert (Hcls : forall p : Event -> bool,
    (forall e, passEvent (columnNames o) e -> p e = false) ->
    (forall e, prepareEvent (columnNames o) (bitsPerFloat o) (bitsPerWeight o) e -> p e = false) ->
    count p (pass ++ prep) = 0%nat).
  { intros p H1 H2. apply count_zero. apply Forall_app. split.
    - eapply Forall_impl; [exact Hall1|]. auto.
    - eapply Forall_impl; [exact Hall2|]. auto. }
  repeat split.
  - apply Hcls; intros e He; [apply passEvent_class in He | apply prepareEvent_class in He];
      tauto.
  - apply Hcls; intros e He; [apply passEvent_class in He | apply prepareEvent_class in He];
      tauto.
  - apply Hcls; intros e He; [apply passEvent_class in He | apply prepareEvent_class in He];
      tauto.
  - apply Hcls; intros e He; [apply passEvent_class in He | apply prepareEvent_class in He];
      tauto.
  - intros Hinsp rp' wp' Hp'. rewrite Hp in Hp'. injection Hp' as _ <-. auto.
Qed.

(** C5. The trace of a run is the trace of the pass followed by the events of
    the migration: every read and write of the pass, for every requested
    column, comes before the first step of the migration, and a migration
    step is only taken after the pass has run to its end. *)
Theorem pass_precedes_migration o msPath w r w' :
  compress o msPath w = (r, w') ->
  exists rp wp pass mig,
    replaceFlaggedValues (columnNames o) w = (rp, wp) /\
    trace wp = trace w ++ pass /\
    trace w' = trace wp ++ mig /\
    Forall (fun e => isFlagPass e = true) pass /\
    Forall (fun e => isMigration e = true) mig /\
    (mig <> [] -> rp = Ok tt).
Proof.
  intros Hrun.
  destruct (compress_post _ _ _ _ _ Hrun)
    as (rp & wp & pass & prep & repl & Hp & Htr1 & Htr2 & Hall1 & Hall2 & Hall3 & Hok & _).
  exists rp, wp, pass, (prep ++ repl). repeat split; auto.
  - eapply Forall_impl; [exact Hall1|]. intros e He. apply passEvent_class in He. tauto.
  - apply Forall_app. split.
    + eapply Forall_impl; [exact Hall2|]. intros e He. apply prepareEvent_class in He. tauto.
    + eapply Forall_impl; [exact Hall3|]. intros e He. apply replaceEvent_class in He. tauto.
Qed.

(** C9. No event of a run writes the flag column: the only events about it
    are reads.  The pass leaves the flag column as it was, and so does the
    whole run, given that the functions of [StManModifier] do not touch the
    flag column when they work on another column. *)
Theorem flags_are_read_only o msPath w r w' :
  compress o msPath w = (r, w') ->
  exists evs, trace w' = trace w ++ evs /\
    (forall e, In e evs -> columnOf e = Some FLAG -> exists row, e = Get FLAG row) /\
    (forall rp wp, replaceFlaggedValues (columnNames o) w = (rp, wp) ->
       columns (ms wp) !! FLAG = columns (ms w) !! FLAG) /\
    (modifierKeepsFlags -> columns (ms w') !! FLAG = columns (ms w) !! FLAG).
Proof.
  intros Hrun.
  destruct (compress_post _ _ _ _ _ Hrun)
    as (rp & wp & pass & prep & repl & Hp & Htr1 & Htr2 & Hall1 & Hall2 & Hall3 & Hok & _ & _ & Hflag).
  destruct (replaceFlaggedValues_post _ _ _ _ Hp) as ((_ & _ & Hpf & _) & _).
  exists (pass ++ prep ++ repl). rewrite Htr2, Htr1, <- app_assoc.
  split; [reflexivity|]. split; [|split].
  - intros e He Hcol. rewrite List.Forall_forall in Hall1, Hall2, Hall3.
    apply in_app_or in He as [He|He].
    + specialize (Hall1 e He). destruct e; simpl in *; try contradiction.
      * injection Hcol as ->. eauto.
      * injection Hcol as ->. tauto.
    + assert (Hni : ~ In FLAG (columnNames o)).
      { eapply replaceFlaggedValues_Ok_FLAG. rewrite Hp. f_equal. apply Hok.
        intros Heq. rewrite Heq in He. contradiction. }
      exfalso. apply in_app_or in He as [He|He].
      * specialize (Hall2 e He). destruct e; simpl in *; try contradiction.
        injection Hcol as ->. tauto.
      * specialize (Hall3 e He). destruct e; simpl in *; try discriminate;
          injection Hcol as ->; tauto.
  - intros rp' wp' Hp'. rewrite Hp in Hp'. injection Hp' as _ <-. exact Hpf.
  - intros Hkeep. rewrite (Hflag Hkeep). exact Hpf.
Qed.

(** ** The properties of [main] *)

Lemma main_trace argv disk r w :
  main argv disk = (r, Some w) ->
  exists o rest msPath t rp wp pass prep repl,
    parseOptions (tail argv) defaults = Ok (o, msPath :: rest) /\
    disk msPath = Some t /\
    replaceFlaggedValues (columnNames (defaultColumn o)) (mkWorld t [OpenUpdate msPath])
      = (rp, wp) /\
    trace wp = OpenUpdate msPath :: pass /\
    trace w = OpenUpdate msPath :: pass ++ prep ++ repl /\
    Forall (passEvent (columnNames (defaultColumn o))) pass /\
    Forall (prepareEvent (columnNames (defaultColumn o)) (bitsPerFloat (defaultColumn o))
              (bitsPerWeight (defaultColumn o))) prep /\
    Forall (replaceEvent (defaultColumn o) msPath) repl /\
    (repl <> [] -> exists T c bf bw, In (Prepare T c bf bw (Some true)) prep).
Proof.
  intros Hmain.
  apply main_inv in Hmain as (o & rest & msPath & t & r' & Hparse & Hdisk & Hrun & _).
  destruct (compress_post _ _ _ _ _ Hrun)
    as (rp & wp & pass & prep & repl & Hp & Htr1 & Htr2 & Hall1 & Hall2 & Hall3 & _ & Htrue & _).
  exists o, rest, msPath, t, rp, wp, pass, prep, repl.
  simpl in Htr1. rewrite Htr1 in Htr2. simpl in Htr2. repeat split; auto.
Qed.


Lemma bits_defaultColumn o :
  bitsPerFloat (defaultColumn o) = bitsPerFloat o /\
  bitsPerWeight (defaultColumn o) = bitsPerWeight o.
Proof. unfold defaultColumn. destruct (columnNames o); auto. Qed.


(** C10. The option [-studentt] takes no value, and whatever the command
    line and the table are, every call of [SetStudentsTDistribution] in a
    run is made with the degrees of freedom [1.0]. *)
Theorem students_t_nu_is_one :
  (forall rest o,
     parseOptions ("-studentt" :: rest) o =
     parseOptions rest (set_distribution StudentsTDistribution o)) /\
  (forall argv disk r w nu,
     main argv disk = (r, Some w) ->
     In (SetStudentsT nu) (trace w) -> nu = d_1_0).
Proof.
  split; [reflexivity|].
  intros argv disk r w nu Hmain Hin.
  destruct (main_trace _ _ _ _ Hmain)
    as (o & rest & msPath & t & rp & wp & pass & prep & repl &
        _ & _ & _ & _ & Htr & Hall1 & Hall2 & Hall3 & _).
  rewrite Htr in Hin. rewrite List.Forall_forall in Hall1, Hall2, Hall3.
  destruct Hin as [Hin|Hin]; [discriminate|].
  apply in_app_or in Hin as [Hin|Hin]; [exfalso; exact (Hall1 _ Hin)|].
  apply in_app_or in Hin as [Hin|Hin]; [exfalso; exact (Hall2 _ Hin)|].
  destruct (Hall3 _ Hin) as [Hnu _]. exact Hnu.
Qed.

(** C3, as the code has it.  [main] does not check the bit-widths: with a
    data or weight bit-width of 0 the command line is accepted, the table is
    opened for update and the pass is run on it as for any other bit-width.
    The bit-widths are first used after the pass, by
    [PrepareReplacingColumn] and by the constructor of [DyscoStMan]: every
    call of either receives them as they were given. *)
Theorem zero_bit_width_reaches_the_manager argv disk o rest msPath t :
  (2 <= length argv)%nat ->
  parseOptions (tail argv) defaults = Ok (o, msPath :: rest) ->
  bitsPerFloat o = 0 \/ bitsPerWeight o = 0 ->
  disk msPath = Some t ->
  exists r w rp wp pass mig,
    main argv disk = (r, Some w) /\
    replaceFlaggedValues (columnNames (defaultColumn o)) (mkWorld t [OpenUpdate msPath])
      = (rp, wp) /\
    trace wp = OpenUpdate msPath :: pass /\
    trace w = OpenUpdate msPath :: pass ++ mig /\
    Forall (fun e => isFlagPass e = true) pass /\
    Forall (fun e => isMigration e = true) mig /\
    (mig <> [] -> rp = Ok tt) /\
    (forall T c b1 b2 x, In (Prepare T c b1 b2 x) (trace w) ->
       In (Prepare T c b1 b2 x) mig /\ b1 = bitsPerFloat o /\ b2 = bitsPerWeight o /\
       exists sh t0,
         x = replacedOf (fst (PrepareReplacingColumn T c DyscoStManName
                                (bitsPerFloat o) (bitsPerWeight o) sh t0))) /\
    (forall b1 b2, In (NewDyscoStMan b1 b2) (trace w) ->
       In (NewDyscoStMan b1 b2) mig /\ b1 = bitsPerFloat o /\ b2 = bitsPerWeight o).
Proof.
  intros Hlen Hparse _ Hdisk.
  destruct (compress (defaultColumn o) msPath (mkWorld t [OpenUpdate msPath]))
    as [r' w] eqn:Hrun.
  assert (Hmain : main argv disk = (res_map (fun _ => 0) r', Some w)).
  { unfold main. rewrite decide_False by lia. rewrite Hparse, Hdisk, Hrun. reflexivity. }
  destruct (compress_post _ _ _ _ _ Hrun)
    as (rp & wp & pass & prep & repl & Hp & Htr1 & Htr2 & Hall1 & Hall2 & Hall3 & Hok & _).
  simpl in Htr1. rewrite Htr1 in Htr2. simpl in Htr2.
  exists (res_map (fun _ => 0) r'), w, rp, wp, pass, (prep ++ repl).
  split; [exact Hmain|]. split; [exact Hp|]. split; [exact Htr1|]. split; [exact Htr2|].
  split.
  { eapply Forall_impl; [exact Hall1|]. intros e He. apply passEvent_class in He. tauto. }
  split.
  { apply Forall_app. split.
    - eapply Forall_impl; [exact Hall2|]. intros e He. apply prepareEvent_class in He. tauto.
    - eapply Forall_impl; [exact Hall3|]. intros e He. apply replaceEvent_class in He. tauto. }
  split; [exact Hok|].
  destruct (bits_defaultColumn o) as [E1 E2].
  rewrite List.Forall_forall in Hall1, Hall2, Hall3.
  split.
  - intros T c b1 b2 x Hin. rewrite Htr2 in Hin.
    destruct Hin as [Hin|Hin]; [discriminate|].
    apply in_app_or in Hin as [Hin|Hin]; [exfalso; exact (Hall1 _ Hin)|].
    apply in_app_or in Hin as [Hin|Hin]; [|exfalso; exact (Hall3 _ Hin)].
    destruct (Hall2 _ Hin) as (_ & _ & Hb1 & Hb2 & Hcall).
    rewrite E1, E2 in Hcall. rewrite E1 in Hb1. rewrite E2 in Hb2.
    split; [apply in_or_app; auto | auto].
  - intros b1 b2 Hin. rewrite Htr2 in Hin.
    destruct Hin as [Hin|Hin]; [discriminate|].
    apply in_app_or in Hin as [Hin|Hin]; [exfalso; exact (Hall1 _ Hin)|].
    apply in_app_or in Hin as [Hin|Hin]; [exfalso; exact (Hall2 _ Hin)|].
    destruct (Hall3 _ Hin) as [Hb1 Hb2].
    rewrite E1 in Hb1. rewrite E2 in Hb2.
    split; [apply in_or_app; auto | auto].
Qed.

End Run.

(** ** The reference host *)

Lemma tempName_not_FLAG c : tempName c <> FLAG.
Proof. unfold tempName, FLAG. simpl. discriminate. Qed.

Lemma refHost_inspects : @prepareInspects refHost.
Proof.
  unfold prepareInspects. simpl. unfold ref_PrepareReplacingColumn.
  intros T c m b1 b2 sh t sh' t'.
  destruct (columns t !! c) as [col|]; [|discriminate].
  destruct (negb (holds T (colData col))); [discriminate|].
  destruct (decide (colDataManager col = m)); [intros E; injection E as _ <-; reflexivity|].
  destruct (columnShape (colData col)); [|discriminate].
  destruct (decide (sh = [] \/ sh = i)); discriminate.
Qed.

Lemma refHost_keeps_flags : @modifierKeepsFlags refHost.
Proof.
  unfold modifierKeepsFlags. simpl. split; [|split].
  - unfold ref_PrepareReplacingColumn. intros T c m b1 b2 sh t r t' Hne.
    destruct (columns t !! c) as [col|]; [|intros E; injection E as _ <-; reflexivity].
    destruct (negb (holds T (colData col))); [intros E; injection E as _ <-; reflexivity|].
    destruct (decide (colDataManager col = m)); [intros E; injection E as _ <-; reflexivity|].
    destruct (columnShape (colData col)); [|intros E; injection E as _ <-; reflexivity].
    destruct (decide (sh = [] \/ sh = i)); intros E; injection E as _ <-; [|reflexivity].
    simpl. rewrite lookup_insert_ne by apply tempName_not_FLAG.
    apply lookup_delete_ne. exact Hne.
  - unfold ref_MoveColumnData. intros T c t r t' Hne.
    destruct (columns t !! tempName c) as [old|]; [|intros E; injection E as _ <-; reflexivity].
    destruct (columns t !! c) as [new|]; [|intros E; injection E as _ <-; reflexivity].
    destruct (holds T (colData old) && holds T (colData new));
      intros E; injection E as _ <-; [|reflexivity].
    simpl. rewrite lookup_insert_ne by exact Hne.
    apply lookup_delete_ne. apply tempName_not_FLAG.
  - unfold ref_Reorder. intros p t r t' E. injection E as _ <-. reflexivity.
Qed.

(** The sentinel is a NaN, and a quiet one. *)
Lemma quiet_NaN_is_a_quiet_NaN : isnan quiet_NaN = true /\ is_quiet quiet_NaN = true.
Proof. split; reflexivity. Qed.

(** ** The theorems at work on the sample tables *)

Lemma flagged_cells_become_NaN_witness :
  exists w', replaceFlaggedValues ["DATA"] (mkWorld sampleTable []) = (Ok tt, w') /\
    cellAt (ms w') "DATA" 0 1 = Some (mkComplex quiet_NaN quiet_NaN) /\
    cellAt (ms w') "DATA" 0 0 = Some (cx 1 2).
Proof.
  destruct (flagged_cells_become_NaN ["DATA"] (mkWorld sampleTable []))
    as (w' & Hrun & Hcells).
  - intros c [<-|[]] _. vm_compute. reflexivity.
  - exists w'. split; [exact Hrun|]. split.
    + destruct (Hcells "DATA" 0%nat 1%nat (cx 3 4) true) as [Ht _];
        [simpl; auto | discriminate | simpl; lia | reflexivity | reflexivity |].
      destruct (Ht eq_refl) as (y & Hy & Hre & Him).
      rewrite Hy. destruct y as [re im]. simpl in Hre, Him. subst. reflexivity.
    + destruct (Hcells "DATA" 0%nat 0%nat (cx 1 2) false) as [_ Hf];
        [simpl; auto | discriminate | simpl; lia | reflexivity | reflexivity |].
      exact (Hf eq_refl).
Defined.

Lemma rows_written_only_when_flagged_witness :
  exists evs,
    trace (snd (replaceFlaggedValues ["DATA"] (mkWorld cleanTable []))) = [] ++ evs /\
    count isWrite evs = 0%nat.
Proof.
  destruct (rows_written_only_when_flagged ["DATA"] (mkWorld cleanTable [])
              (fst (replaceFlaggedValues ["DATA"] (mkWorld cleanTable [])))
              (snd (replaceFlaggedValues ["DATA"] (mkWorld cleanTable []))))
    as (evs & Htr & _ & _ & Hzero).
  - vm_compute. reflexivity.
  - exists evs. split; [exact Htr|]. apply Hzero.
    intros [|[|row]] [|[|i]]; vm_compute; discriminate.
Defined.

Lemma weight_column_is_skipped_witness :
  columns (ms (snd (replaceFlaggedValues ["WEIGHT_SPECTRUM"; "DATA"]
                     (mkWorld sampleTable [])))) !! WEIGHT_SPECTRUM
  = columns sampleTable !! WEIGHT_SPECTRUM /\
  exists evs,
    trace (snd (replaceFlaggedValues ["WEIGHT_SPECTRUM"; "DATA"]
                  (mkWorld sampleTable []))) = [] ++ evs /\
    In (Get "DATA" 1) evs /\
    forall e, In e evs -> columnOf e <> Some WEIGHT_SPECTRUM.
Proof.
  destruct (weight_column_is_skipped ["WEIGHT_SPECTRUM"; "DATA"] (mkWorld sampleTable [])
              (Ok tt)
              (snd (replaceFlaggedValues ["WEIGHT_SPECTRUM"; "DATA"]
                      (mkWorld sampleTable []))))
    as (Hcol & evs & Htr & Hno & Hok).
  - vm_compute. reflexivity.
  - split; [exact Hcol|]. exists evs. split; [exact Htr|]. split; [|exact Hno].
    apply (Hok eq_refl "DATA" 1%nat); [simpl; auto | discriminate | simpl; lia].
Defined.

Lemma existing_manager_is_not_reconfigured_witness :
  exists evs,
    trace (snd (@createDyscoStManColumn refHost TpComplex "CORRECTED_DATA" [2%nat] 4 6
                  RowNormalization UniformDistribution d_1_0 d_2_5
                  (mkWorld migratedTable []))) = [] ++ evs /\
    count isManagerCreation evs = 0%nat /\ count isSetter evs = 0%nat /\
    dataManagers (ms (snd (@createDyscoStManColumn refHost TpComplex "CORRECTED_DATA" [2%nat]
                             4 6 RowNormalization UniformDistribution d_1_0 d_2_5
                             (mkWorld migratedTable [])))) !! DyscoStManName
    = Some (DyscoManager
              (mkDyscoStMan 8 12 TruncatedGaussianDistribution d_1_0 d_2_5 AFNormalization)).
Proof.
  destruct (@existing_manager_is_not_reconfigured refHost TpComplex "CORRECTED_DATA" [2%nat] 4 6
              RowNormalization UniformDistribution d_1_0 d_2_5 (mkWorld migratedTable [])
              (fst (@createDyscoStManColumn refHost TpComplex "CORRECTED_DATA" [2%nat] 4 6
                      RowNormalization UniformDistribution d_1_0 d_2_5
                      (mkWorld migratedTable [])))
              (snd (@createDyscoStManColumn refHost TpComplex "CORRECTED_DATA" [2%nat] 4 6
                      RowNormalization UniformDistribution d_1_0 d_2_5
                      (mkWorld migratedTable [])))
              (DyscoManager
                 (mkDyscoStMan 8 12 TruncatedGaussianDistribution d_1_0 d_2_5
                    AFNormalization)))
    as (evs & Htr & _ & Hc1 & Hc2 & _ & Hdm).
  - vm_compute. reflexivity.
  - vm_compute. reflexivity.
  - exists evs. auto.
Defined.

Lemma nothing_replaced_nothing_done_witness :
  exists evs, trace (snd secondRun) = [] ++ evs /\
    count isManagerCreation evs = 0%nat /\
    count isColumnCreation evs = 0%nat /\
    count isDataMove evs = 0%nat /\
    count isReorder evs = 0%nat /\
    ms (snd secondRun) = ms (snd (replaceFlaggedValues ["DATA"] (mkWorld migratedTable []))).
Proof.
  destruct (@nothing_replaced_nothing_done refHost (defaultColumn defaults) "ms"
              (mkWorld migratedTable []) (fst secondRun) (snd secondRun))
    as (evs & Htr & H1 & H2 & H3 & H4 & Hms).
  - vm_compute. reflexivity.
  - intros T c bf bw x Hin. vm_compute in Hin.
    repeat (destruct Hin as [Hin|Hin]; [try discriminate Hin|]); [|contradiction].
    injection Hin as _ _ _ _ <-. reflexivity.
  - exists evs. split; [exact Htr|]. split; [exact H1|]. split; [exact H2|].
    split; [exact H3|]. split; [exact H4|].
    apply (Hms refHost_inspects
             (fst (replaceFlaggedValues ["DATA"] (mkWorld migratedTable [])))
             (snd (replaceFlaggedValues ["DATA"] (mkWorld migratedTable [])))).
    vm_compute. reflexivity.
Defined.

Lemma pass_precedes_migration_witness :
  exists pass mig,
    trace (snd firstRun) = ([] ++ pass) ++ mig /\
    Forall (fun e => isFlagPass e = true) pass /\
    Forall (fun e => isMigration e = true) mig /\
    In (Put "DATA" 0) pass /\ In (MoveData TpComplex "DATA") mig.
Proof.
  destruct (@pass_precedes_migration refHost (defaultColumn defaults) "ms"
              (mkWorld sampleTable []) (fst firstRun) (snd firstRun))
    as (rp & wp & pass & mig & Hp & Htr1 & Htr2 & Hall1 & Hall2 & _).
  - vm_compute. reflexivity.
  - exists pass, mig. rewrite Htr2, Htr1. split; [reflexivity|].
    split; [exact Hall1|]. split; [exact Hall2|].
    assert (Hwp : trace wp = [Get "DATA" 0; Get "FLAG" 0; Put "DATA" 0;
                              Get "DATA" 1; Get "FLAG" 1]).
    { change wp with (snd (rp, wp)). rewrite <- Hp. vm_compute. reflexivity. }
    rewrite Hwp in Htr1. simpl in Htr1. subst pass.
    split; [simpl; auto|].
    assert (Hw : trace (snd firstRun) =
                 [Get "DATA" 0; Get "FLAG" 0; Put "DATA" 0; Get "DATA" 1; Get "FLAG" 1] ++
                 [Prepare TpComplex "DATA" 8 12 (Some true); FindDataManager "DyscoStMan";
                  NewDyscoStMan 8 12; SetTruncatedGaussian d_2_5; SetNorm AFNormalization;
                  AddColumnNew TpComplex "DATA" [2%nat]
                    (mkDyscoStMan 8 12 TruncatedGaussianDistribution d_1_0 d_2_5
                       AFNormalization);
                  MoveData TpComplex "DATA"]).
    { vm_compute. reflexivity. }
    rewrite Htr2, Hwp in Hw. apply app_inv_head in Hw. subst mig. simpl. auto 10.
Defined.


Lemma flags_are_read_only_witness :
  exists evs, trace (snd firstRun) = [] ++ evs /\
    In (Get FLAG 0) evs /\
    (forall e, In e evs -> columnOf e = Some FLAG -> exists row, e = Get FLAG row) /\
    columns (ms (snd firstRun)) !! FLAG = columns sampleTable !! FLAG.
Proof.
  destruct (@flags_are_read_only refHost (defaultColumn defaults) "ms"
              (mkWorld sampleTable []) (fst firstRun) (snd firstRun))
    as (evs & Htr & Hev & _ & Hflag).
  - vm_compute. reflexivity.
  - exists evs. split; [exact Htr|]. split; [|split].
    + simpl in Htr. rewrite <- Htr. vm_compute. auto.
    + exact Hev.
    + exact (Hflag refHost_keeps_flags).
Defined.

Lemma students_t_nu_is_one_witness :
  In (SetStudentsT d_1_0) (trace (worldOf studentRun)) /\
  forall nu, In (SetStudentsT nu) (trace (worldOf studentRun)) -> nu = d_1_0.
Proof.
  split; [vm_compute; auto 20|].
  intros nu. 
  apply (proj2 (@students_t_nu_is_one refHost) ["dscompress"; "-studentt"; "ms"]
           (diskWith "ms" sampleTable) (fst studentRun) (worldOf studentRun) nu).
  vm_compute. reflexivity.
Defined.

Lemma zero_bit_width_reaches_the_manager_witness :
  exists pass mig,
    snd zeroBitsRun <> None /\
    trace (worldOf zeroBitsRun) = OpenUpdate "ms" :: pass ++ mig /\
    Forall (fun e => isFlagPass e = true) pass /\
    Forall (fun e => isMigration e = true) mig /\
    In (Prepare TpComplex "DATA" 0 12 (Some true)) mig /\
    In (NewDyscoStMan 0 12) mig.
Proof.
  destruct (@zero_bit_width_reaches_the_manager refHost
              ["dscompress"; "-data-bit-rate"; "0"; "ms"] (diskWith "ms" sampleTable)
              (set_bitsPerFloat 0 defaults) [] "ms" sampleTable)
    as (r & w & rp & wp & pass & mig & Hmain & _ & _ & Htr & Hall1 & Hall2 & _ & Hprep & Hnew).
  - simpl. lia.
  - vm_compute. reflexivity.
  - left. reflexivity.
  - reflexivity.
  - exists pass, mig.
    assert (Hw : worldOf zeroBitsRun = w).
    { unfold worldOf, zeroBitsRun. rewrite Hmain. reflexivity. }
    split; [unfold zeroBitsRun; rewrite Hmain; discriminate|].
    rewrite Hw. split; [exact Htr|]. split; [exact Hall1|]. split; [exact Hall2|].
    split.
    + apply (Hprep TpComplex "DATA" 0 12 (Some true)). rewrite <- Hw. vm_compute. auto 20.
    + apply (Hnew 0 12). rewrite <- Hw. vm_compute. auto 20.
Defined.

(** C3, as the claim has it, fails: with [-data-bit-rate 0] on a table that
    has a flagged cell, the table is opened for update and the pass writes
    the sentinel into the row; the failure comes later, from the constructor
    of the manager, and the table is not the table the run found. *)
Lemma zero_bit_width_opens_and_rewrites_the_table :
  parseOptions ["-data-bit-rate"; "0"; "ms"] defaults
    = Ok (set_bitsPerFloat 0 defaults, ["ms"]) /\
  fst zeroBitsRun = Throw "Invalid bit count" /\
  trace (worldOf zeroBitsRun) =
    [OpenUpdate "ms"; Get "DATA" 0; Get "FLAG" 0; Put "DATA" 0; Get "DATA" 1;
     Get "FLAG" 1; Prepare TpComplex "DATA" 0 12 (Some true);
     FindDataManager "DyscoStMan"; NewDyscoStMan 0 12] /\
  cellAt sampleTable "DATA" 0 1 = Some (cx 3 4) /\
  cellAt (ms (snd (replaceFlaggedValues ["DATA"] (mkWorld sampleTable [OpenUpdate "ms"]))))
    "DATA" 0 1 = Some (mkComplex quiet_NaN quiet_NaN) /\
  ms (worldOf zeroBitsRun) <> sampleTable.
Proof.
  split; [vm_compute; reflexivity|].
  split; [vm_compute; reflexivity|].
  split; [vm_compute; reflexivity|].
  split; [vm_compute; reflexivity|].
  split; [vm_compute; reflexivity|].
  intros Heq. apply (f_equal (fun t => cellAt t "DATA" 0 1)) in Heq.
  vm_compute in Heq. discriminate Heq.
Qed.

(** C7, as the claim has it, fails: on a table whose flagged cell already
    holds the sentinel the pass changes no cell, the table after the pass is
    the table before it, and yet row 0 is written back. *)
Lemma unchanged_row_is_written_back :
  fst (replaceFlaggedValues ["DATA"] (mkWorld passedTable [])) = Ok tt /\
  trace (snd (replaceFlaggedValues ["DATA"] (mkWorld passedTable []))) =
    [Get "DATA" 0; Get "FLAG" 0; Put "DATA" 0; Get "DATA" 1; Get "FLAG" 1] /\
  ms (snd (replaceFlaggedValues ["DATA"] (mkWorld passedTable []))) = passedTable /\
  (forall i, cellAt (ms (snd (replaceFlaggedValues ["DATA"] (mkWorld passedTable []))))
               "DATA" 0 i = cellAt passedTable "DATA" 0 i).
Proof.
  split; [vm_compute; reflexivity|].
  split; [vm_compute; reflexivity|].
  assert (Hms : ms (snd (replaceFlaggedValues ["DATA"] (mkWorld passedTable [])))
                = passedTable) by (vm_compute; reflexivity).
  split; [exact Hms|]. intros i. rewrite Hms. reflexivity.
Qed.

(** * Further properties of the program *)

(** ** The loop over the options, one word at a time *)

Lemma parseOptions_cons arg rest o :
  parseOptions (arg :: rest) o =
  match arg with
  | EmptyString => Ok (o, arg :: rest)
  | String c0 p =>
      if negb (bool_decide (c0 = "-"%char)) then Ok (o, arg :: rest)
      else res_bind (optionStep arg p rest o)
             (fun '(o', rest') => parseOptions rest' o')
  end.
Proof.
  simpl. destruct arg as [|c0 p]; [reflexivity|].
  destruct (negb (bool_decide (c0 = "-"%char))); [reflexivity|].
  unfold optionStep.
  repeat match goal with
    | |- context [decide (p = ?s)] =>
        destruct (decide (p = s));
        [try reflexivity; destruct rest as [|v rest']; try reflexivity;
         destruct (atoi v); reflexivity|]
    end.
  reflexivity.
Qed.

Lemma optionStep_inv arg p rest o o' rest' :
  optionStep arg p rest o = Ok (o', rest') ->
  rest' = rest \/ exists v, rest = v :: rest'.
Proof.
  unfold optionStep.
  repeat match goal with
    | |- context [decide (p = ?s)] => destruct (decide (p = s))
    end;
    try (destruct rest as [|v rest0]; [discriminate|]);
    try (destruct (atoi v); simpl);
    intros Hs; try discriminate; injection Hs as <- <-; eauto.
Qed.

Lemma optionStep_app arg p rest o o' rest' extra :
  optionStep arg p rest o = Ok (o', rest') ->
  optionStep arg p (rest ++ extra) o = Ok (o', rest' ++ extra).
Proof.
  unfold optionStep.
  repeat match goal with
    | |- context [decide (p = ?s)] => destruct (decide (p = s))
    end;
    try (destruct rest as [|v rest0]; [discriminate|]; simpl);
    try (destruct (atoi v); simpl);
    intros Hs; try discriminate; injection Hs as <- <-; reflexivity.
Qed.



Lemma optionStep_unknown p rest o :
  ~ In (String "-" p) optionWords ->
  optionStep (String "-" p) p rest o = Throw ("Invalid parameter: " +:+ String "-" p).
Proof.
  intros Hni. unfold optionStep.
  repeat match goal with
    | |- context [decide (p = ?s)] =>
        destruct (decide (p = s)) as [->|?];
        [exfalso; apply Hni; unfold optionWords; simpl; tauto|]
    end.
  reflexivity.
Qed.

Lemma startsWithDash_true arg :
  startsWithDash arg = true -> exists p, arg = String "-" p.
Proof.
  destruct arg as [|c0 p]; [discriminate|]. simpl. intros Hc.
  apply bool_decide_eq_true in Hc as ->. eauto.
Qed.

(** The loop, by its turns. *)
Lemma parseOptions_turns (P : list string -> Options -> Res (Options * list string) -> Prop) :
  (forall o, P [] o (Ok (o, []))) ->
  (forall arg rest o, startsWithDash arg = false -> P (arg :: rest) o (Ok (o, arg :: rest))) ->
  (forall p rest o r, optionStep (String "-" p) p rest o = r -> isOk r = false ->
     P (String "-" p :: rest) o (failure r)) ->
  (forall p rest o o' rest',
     optionStep (String "-" p) p rest o = Ok (o', rest') ->
     P rest' o' (parseOptions rest' o') ->
     P (String "-" p :: rest) o (parseOptions rest' o')) ->
  forall args o, P args o (parseOptions args o).
Proof.
  intros Hnil Hword Hfail Hturn args.
  remember (length args) as n eqn:Hn. revert args Hn.
  induction n as [n IH] using lt_wf_ind. intros args Hn o.
  destruct args as [|arg rest]; [apply Hnil|].
  rewrite parseOptions_cons.
  destruct arg as [|c0 p]; [apply (Hword EmptyString); reflexivity|].
  destruct (bool_decide (c0 = "-"%char)) eqn:Hc0; simpl.
  - apply bool_decide_eq_true in Hc0 as ->.
    destruct (optionStep (String "-" p) p rest o) as [[o' rest']| |] eqn:Hstep; simpl.
    + apply Hturn; [exact Hstep|].
      apply (IH (length rest')); [|reflexivity].
      subst n. simpl. destruct (optionStep_inv _ _ _ _ _ _ Hstep) as [->|[v ->]]; simpl; lia.
    + apply (Hfail p rest o (Throw what) Hstep). reflexivity.
    + apply (Hfail p rest o Undefined Hstep). reflexivity.
  - apply (Hword (String c0 p)). simpl. exact Hc0.
Qed.

Lemma parseOptions_word arg rest o :
  startsWithDash arg = false -> parseOptions (arg :: rest) o = Ok (o, arg :: rest).
Proof.
  intros Hd. rewrite parseOptions_cons. destruct arg as [|c0 p]; [reflexivity|].
  simpl in Hd. rewrite Hd. reflexivity.
Qed.

Lemma parseOptions_option p rest o :
  parseOptions (String "-" p :: rest) o =
  res_bind (optionStep (String "-" p) p rest o) (fun '(o', rest') => parseOptions rest' o').
Proof. rewrite parseOptions_cons. reflexivity. Qed.

Lemma parseOptions_append : forall args o extra o1 rest,
  parseOptions args o = Ok (o1, rest) ->
  parseOptions (args ++ extra) o =
  match rest with
  | [] => parseOptions extra o1
  | _ => Ok (o1, rest ++ extra)
  end.
Proof.
  intros args o.
  apply (parseOptions_turns (fun args o r => forall extra o1 rest,
    r = Ok (o1, rest) ->
    parseOptions (args ++ extra) o =
    match rest with [] => parseOptions extra o1 | _ => Ok (o1, rest ++ extra) end)).
  - intros o0 extra o1 rest Hr. injection Hr as <- <-. reflexivity.
  - intros arg rest0 o0 Hd extra o1 rest Hr. injection Hr as <- <-.
    simpl. apply parseOptions_word, Hd.
  - intros p rest0 o0 r _ Hf extra o1 rest Hr. destruct r; discriminate.
  - intros p rest0 o0 o' rest' Hstep IH extra o1 rest Hr.
    change ((String "-" p :: rest0) ++ extra) with (String "-" p :: rest0 ++ extra).
    rewrite parseOptions_option, (optionStep_app _ _ _ _ _ _ extra Hstep).
    apply IH, Hr.
Qed.


Lemma parseOptions_rest : forall args o o' rest,
  parseOptions args o = Ok (o', rest) ->
  (exists pre, args = pre ++ rest) /\
  match rest with [] => True | a :: _ => startsWithDash a = false end.
Proof.
  intros args o.
  apply (parseOptions_turns (fun args o r => forall o' rest, r = Ok (o', rest) ->
    (exists pre, args = pre ++ rest) /\
    match rest with [] => True | a :: _ => startsWithDash a = false end)).
  - intros o0 o' rest Hr. injection Hr as <- <-. split; [exists []; reflexivity | exact I].
  - intros arg rest0 o0 Hd o' rest Hr. injection Hr as <- <-.
    split; [exists []; reflexivity | exact Hd].
  - intros p rest0 o0 r _ Hf o' rest Hr. destruct r; discriminate.
  - intros p rest0 o0 o1 rest' Hstep IH o' rest Hr.
    destruct (IH o' rest Hr) as [[pre Hpre] Hhead]. split; [|exact Hhead].
    destruct (optionStep_inv _ _ _ _ _ _ Hstep) as [->|[v ->]].
    + exists (String "-" p :: pre). simpl. congruence.
    + exists (String "-" p :: v :: pre). simpl. congruence.
Qed.

Lemma to_unsigned_range n : 0 <= to_unsigned n < 2 ^ 32.
Proof. unfold to_unsigned. apply Z.mod_pos_bound. lia. Qed.

Lemma optionStep_bits arg p rest o o' rest' :
  bitsInRange o -> optionStep arg p rest o = Ok (o', rest') -> bitsInRange o'.
Proof.
  intros [Hf Hw]. unfold optionStep, res_map, res_bind. intros Hs.
  repeat case_match; simplify_eq; unfold bitsInRange; simpl;
    auto using to_unsigned_range.
Qed.

Lemma parseOptions_bits : forall args o o' rest,
  bitsInRange o -> parseOptions args o = Ok (o', rest) -> bitsInRange o'.
Proof.
  intros args o.
  apply (parseOptions_turns (fun args o r => forall o' rest,
    bitsInRange o -> r = Ok (o', rest) -> bitsInRange o')).
  - intros o0 o' rest Hb Hr. injection Hr as <- <-. exact Hb.
  - intros arg rest0 o0 _ o' rest Hb Hr. injection Hr as <- <-. exact Hb.
  - intros p rest0 o0 r _ Hf o' rest _ Hr. destruct r; discriminate.
  - intros p rest0 o0 o1 rest' Hstep IH o' rest Hb Hr.
    apply (IH o' rest); [|exact Hr]. eapply optionStep_bits; eauto.
Qed.

(** ** Numerals *)

Lemma digit_char d :
  (d < 10)%nat ->
  isdigit (ascii_of_nat (48 + d)) = true /\
  isspace (ascii_of_nat (48 + d)) = false /\
  Z.of_nat (nat_of_ascii (ascii_of_nat (48 + d))) - 48 = Z.of_nat d.
Proof.
  intros Hd.
  do 10 (destruct d as [|d]; [repeat split; reflexivity|]). lia.
Qed.

Lemma digitsValue_digitString ds : forall acc,
  Forall (fun d => (d < 10)%nat) ds ->
  digitsValue acc (digitString ds) =
  fold_left (fun acc d => acc * 10 + Z.of_nat d) ds acc.
Proof.
  induction ds as [|d ds IH]; intros acc Hall; [reflexivity|].
  apply List.Forall_cons_iff in Hall as [Hd Hall].
  destruct (digit_char d Hd) as (Hdig & _ & Hval).
  cbn [digitString digitsValue fold_left]. rewrite Hdig, Hval. apply IH, Hall.
Qed.

Lemma digitString_head ds :
  Forall (fun d => (d < 10)%nat) ds ->
  skipSpaces (digitString ds) = digitString ds /\
  match digitString ds with
  | String "-" _ | String "+" _ => False
  | _ => True
  end.
Proof.
  destruct ds as [|d ds]; [split; [reflexivity | exact I]|].
  intros Hall. apply List.Forall_cons_iff in Hall as [Hd _].
  do 10 (destruct d as [|d]; [split; [reflexivity | exact I]|]). lia.
Qed.

Lemma digitsNumber_nonneg ds : 0 <= digitsNumber ds.
Proof.
  unfold digitsNumber.
  assert (Hacc : forall acc, 0 <= acc ->
            0 <= fold_left (fun acc d => acc * 10 + Z.of_nat d) ds acc).
  { induction ds as [|d ds IH]; intros acc Hacc; simpl; [lia|]. apply IH. lia. }
  apply Hacc. lia.
Qed.

Lemma no_sign s :
  match s with
  | String "-" _ | String "+" _ => False
  | _ => True
  end ->
  match s with
  | String "-" r => (true, r)
  | String "+" r => (false, r)
  | _ => (false, s)
  end = (false, s).
Proof.
  destruct s as [|c r]; [reflexivity|].
  destruct c as [[] [] [] [] [] [] [] []]; try reflexivity; contradiction.
Qed.

Lemma atoi_digitString ds :
  Forall (fun d => (d < 10)%nat) ds ->
  digitsNumber ds < 2 ^ 31 ->
  atoi (digitString ds) = Ok (digitsNumber ds).
Proof.
  intros Hall Hlt.
  pose proof (digitsNumber_nonneg ds) as Hge.
  unfold atoi. destruct (digitString_head ds Hall) as [-> Hhead].
  rewrite (no_sign _ Hhead), digitsValue_digitString by exact Hall.
  fold (digitsNumber ds).
  destruct (Z.leb_spec (- 2 ^ 31) (digitsNumber ds)); [|lia].
  destruct (Z.ltb_spec (digitsNumber ds) (2 ^ 31)); [|lia]. reflexivity.
Qed.

Lemma atoi_negative ds :
  Forall (fun d => (d < 10)%nat) ds ->
  digitsNumber ds <= 2 ^ 31 ->
  atoi (String "-" (digitString ds)) = Ok (- digitsNumber ds).
Proof.
  intros Hall Hle.
  pose proof (digitsNumber_nonneg ds) as Hge.
  unfold atoi. cbn [skipSpaces]. change (isspace "-") with false. cbv iota.
  rewrite digitsValue_digitString by exact Hall. fold (digitsNumber ds).
  destruct (Z.leb_spec (- 2 ^ 31) (- digitsNumber ds)); [|lia].
  destruct (Z.ltb_spec (- digitsNumber ds) (2 ^ 31)); [|lia]. reflexivity.
Qed.

Lemma atoi_no_number c s :
  isspace c = false -> isdigit c = false -> c <> "-"%char -> c <> "+"%char ->
  atoi (String c s) = Ok 0.
Proof.
  intros Hsp Hdig Hm Hp. unfold atoi. cbn [skipSpaces]. rewrite Hsp.
  rewrite (no_sign (String c s)).
  - cbn [digitsValue]. rewrite Hdig. reflexivity.
  - destruct c as [[] [] [] [] [] [] [] []]; try exact I; congruence.
Qed.

(** What a turn of the loop does depends on the words it consumes only. *)
Lemma optionStep_consumed arg p rest o o' rest' :
  optionStep arg p rest o = Ok (o', rest') ->
  exists vs, rest = vs ++ rest' /\
    forall other, optionStep arg p (vs ++ other) o = Ok (o', other).
Proof.
  unfold optionStep.
  repeat match goal with
    | |- context [decide (p = ?s)] => destruct (decide (p = s))
    end;
    try (destruct rest as [|v rest0]; [discriminate|]);
    try (destruct (atoi v) eqn:Hv; simpl);
    intros Hs; try discriminate; injection Hs as <- <-;
    first [ exists []; split; [reflexivity|]; intros other; reflexivity
          | exists [v]; split; [reflexivity|]; intros other; simpl;
            rewrite ?Hv; reflexivity ].
Qed.

(** The words before the one at which the loop stops are consumed, all of
    them, as options and their values. *)
Lemma parseOptions_consumed : forall args o o' rest,
  parseOptions args o = Ok (o', rest) ->
  exists pre, args = pre ++ rest /\ parseOptions pre o = Ok (o', []).
Proof.
  intros args o.
  apply (parseOptions_turns (fun args o r => forall o' rest, r = Ok (o', rest) ->
    exists pre, args = pre ++ rest /\ parseOptions pre o = Ok (o', []))).
  - intros o0 o' rest Hr. injection Hr as <- <-. exists []. auto.
  - intros arg rest0 o0 Hd o' rest Hr. injection Hr as <- <-. exists []. auto.
  - intros p rest0 o0 r _ Hf o' rest Hr. destruct r; discriminate.
  - intros p rest0 o0 o1 rest' Hstep IH o' rest Hr.
    destruct (IH o' rest Hr) as (pre & Hpre & Hparse).
    destruct (optionStep_consumed _ _ _ _ _ _ Hstep) as (vs & Hvs & Hother).
    exists (String "-" p :: vs ++ pre). split.
    + rewrite Hvs, Hpre. simpl. rewrite <- app_assoc. reflexivity.
    + rewrite parseOptions_option, Hother. exact Hparse.
Qed.



Section CommandLine.
Context `{H : Host}.

(** X1. The options are read from left to right and each word is read in
    the state that the words before it have left: when the words [args1]
    are all consumed as options and their values, the loop on
    [args1 ++ args2] goes on with [args2] as it would start on it with the
    options that [args1] has set. *)
Theorem option_words_compose args1 args2 o o1 :
  parseOptions args1 o = Ok (o1, []) ->
  parseOptions (args1 ++ args2) o = parseOptions args2 o1.
Proof. intros Hp. exact (parseOptions_append _ _ args2 _ _ Hp). Qed.

(** X2. The loop over the options stops at the first word that is neither
    an option nor the value of one, and [main] reads that word only: the
    words that follow it on the command line change nothing of the run. *)
Theorem words_after_the_path_are_ignored prog args extra disk o path rest :
  parseOptions args defaults = Ok (o, path :: rest) ->
  main (prog :: args ++ extra) disk = main (prog :: args) disk.
Proof.
  intros Hp. unfold main.
  destruct (parseOptions_rest _ _ _ _ Hp) as [[pre Hpre] _].
  assert (Hlen : (0 < length args)%nat).
  { rewrite Hpre, length_app. simpl. lia. }
  destruct (decide (length (prog :: args ++ extra) < 2)%nat) as [Hl|_];
    [simpl in Hl; rewrite length_app in Hl; lia|].
  destruct (decide (length (prog :: args) < 2)%nat) as [Hl|_]; [simpl in Hl; lia|].
  cbn [tail]. rewrite (parseOptions_append _ _ extra _ _ Hp), Hp. reflexivity.
Qed.

(** X3. A word that begins with '-' where an option is expected, and is
    none of the eleven options, ends the run with the exception
    "Invalid parameter: " followed by the word, whatever comes after it;
    no table has been opened. *)
Theorem invalid_parameter_is_fatal prog pre bad post disk o :
  parseOptions pre defaults = Ok (o, []) ->
  startsWithDash bad = true ->
  ~ In bad optionWords ->
  main (prog :: pre ++ bad :: post) disk = (Throw ("Invalid parameter: " +:+ bad), None).
Proof.
  intros Hp Hd Hni. unfold main.
  destruct (decide (length (prog :: pre ++ bad :: post) < 2)%nat) as [Hl|_];
    [simpl in Hl; rewrite length_app in Hl; simpl in Hl; lia|].
  cbn [tail]. rewrite (parseOptions_append _ _ (bad :: post) _ _ Hp).
  destruct (startsWithDash_true _ Hd) as [p ->].
  rewrite parseOptions_option, (optionStep_unknown _ _ _ Hni). reflexivity.
Qed.


(** X5. The table that a run opens is the one at the first word of the
    command line that is neither an option nor the value of one: the words
    before it are consumed, all of them, by the loop over the options, and
    the word does not begin with '-'.  The table is opened once, before
    anything else is done. *)
Theorem table_is_opened_once argv disk r w :
  main argv disk = (r, Some w) ->
  exists pre o msPath rest evs,
    tail argv = pre ++ msPath :: rest /\
    parseOptions pre defaults = Ok (o, []) /\
    startsWithDash msPath = false /\
    is_Some (disk msPath) /\
    trace w = OpenUpdate msPath :: evs /\
    Forall (fun e => forall p, e <> OpenUpdate p) evs.
Proof.
  intros Hmain.
  destruct (main_trace _ _ _ _ Hmain)
    as (o & rest & msPath & t & rp & wp & pass & prep & repl &
        Hp & Hdisk & _ & _ & Htr & Hall1 & Hall2 & Hall3 & _).
  destruct (parseOptions_rest _ _ _ _ Hp) as [_ Hhead].
  destruct (parseOptions_consumed _ _ _ _ Hp) as (pre & Hpre & Hparse).
  exists pre, o, msPath, rest, (pass ++ prep ++ repl).
  split; [exact Hpre|]. split; [exact Hparse|]. split; [exact Hhead|].
  split; [eauto|]. split; [exact Htr|].
  rewrite !Forall_app. split; [|split].
  - eapply List.Forall_impl; [|exact Hall1]. intros [] He; try contradiction; discriminate.
  - eapply List.Forall_impl; [|exact Hall2]. intros [] He; try contradiction; discriminate.
  - eapply List.Forall_impl; [|exact Hall3]. intros [] He; try contradiction; discriminate.
Qed.

(** X6. The value of [-data-bit-rate] and of [-weight-bit-rate] is read by
    [atoi]: a decimal numeral below 2^31 sets the bit width to the number
    it denotes. *)
Theorem bit_rate_numeral ds rest o :
  Forall (fun d => (d < 10)%nat) ds ->
  digitsNumber ds < 2 ^ 31 ->
  parseOptions ("-data-bit-rate" :: digitString ds :: rest) o =
    parseOptions rest (set_bitsPerFloat (digitsNumber ds) o) /\
  parseOptions ("-weight-bit-rate" :: digitString ds :: rest) o =
    parseOptions rest (set_bitsPerWeight (digitsNumber ds) o).
Proof.
  intros Hall Hlt. pose proof (digitsNumber_nonneg ds) as Hge.
  assert (Hu : to_unsigned (digitsNumber ds) = digitsNumber ds).
  { unfold to_unsigned. apply Z.mod_small. lia. }
  split; rewrite parseOptions_option; unfold optionStep; simpl;
    rewrite (atoi_digitString _ Hall Hlt); simpl; rewrite Hu; reflexivity.
Qed.

(** X7. No bit width is rejected: a negative numeral [-v] is read as the
    [int] [-v] and wraps around to [2^32 - v] in the unsigned variable. *)
Theorem negative_bit_rate_wraps ds rest o :
  Forall (fun d => (d < 10)%nat) ds ->
  0 < digitsNumber ds <= 2 ^ 31 ->
  parseOptions ("-data-bit-rate" :: String "-" (digitString ds) :: rest) o =
    parseOptions rest (set_bitsPerFloat (2 ^ 32 - digitsNumber ds) o) /\
  parseOptions ("-weight-bit-rate" :: String "-" (digitString ds) :: rest) o =
    parseOptions rest (set_bitsPerWeight (2 ^ 32 - digitsNumber ds) o).
Proof.
  intros Hall [Hpos Hle].
  assert (Hu : to_unsigned (- digitsNumber ds) = 2 ^ 32 - digitsNumber ds).
  { unfold to_unsigned.
    rewrite <- (Z.mod_small (2 ^ 32 - digitsNumber ds) (2 ^ 32)) by lia.
    replace (- digitsNumber ds) with (2 ^ 32 - digitsNumber ds + (-1) * 2 ^ 32) by lia.
    rewrite Z.mod_add by lia. reflexivity. }
  split; rewrite parseOptions_option; unfold optionStep; simpl;
    rewrite (atoi_negative _ Hall Hle); simpl; rewrite Hu; reflexivity.
Qed.

(** X8. A value of [-data-bit-rate] or [-weight-bit-rate] that does not
    begin with white space, a sign or a digit is not refused either: [atoi]
    reads it as 0, and the loop goes on with a bit width of 0. *)
Theorem bit_rate_without_number_is_zero c s rest o :
  isspace c = false -> isdigit c = false -> c <> "-"%char -> c <> "+"%char ->
  parseOptions ("-data-bit-rate" :: String c s :: rest) o =
    parseOptions rest (set_bitsPerFloat 0 o) /\
  parseOptions ("-weight-bit-rate" :: String c s :: rest) o =
    parseOptions rest (set_bitsPerWeight 0 o).
Proof.
  intros Hsp Hdig Hm Hpl.
  split; rewrite parseOptions_option; unfold optionStep; simpl;
    rewrite (atoi_no_number _ _ Hsp Hdig Hm Hpl); reflexivity.
Qed.

(** X9. Each [-column] adds the word after it to the list of columns, in
    the order of the command line and whatever the word is; the column
    DATA is handled only when no [-column] is given. *)
Theorem columns_in_order cs path rest :
  startsWithDash path = false ->
  exists o,
    parseOptions (columnArgs cs ++ path :: rest) defaults = Ok (o, path :: rest) /\
    columnNames (defaultColumn o) = match cs with [] => ["DATA"] | _ => cs end.
Proof.
  intros Hd.
  assert (Hgen : forall cs o0, exists o,
            parseOptions (columnArgs cs ++ path :: rest) o0 = Ok (o, path :: rest) /\
            columnNames o = columnNames o0 ++ cs).
  { clear cs. induction cs as [|c cs IH]; intros o0.
    - exists o0. simpl. rewrite app_nil_r. split; [apply parseOptions_word, Hd | reflexivity].
    - destruct (IH (push_columnName c o0)) as (o & Hp & Hc).
      exists o. split.
      + change (columnArgs (c :: cs) ++ path :: rest)
          with ("-column" :: c :: columnArgs cs ++ path :: rest).
        rewrite parseOptions_option. exact Hp.
      + rewrite Hc. simpl. rewrite <- app_assoc. reflexivity. }
  destruct (Hgen cs defaults) as (o & Hp & Hc). exists o. split; [exact Hp|].
  simpl in Hc. unfold defaultColumn. rewrite Hc.
  destruct cs; [simpl; rewrite Hc; reflexivity | exact Hc].
Qed.

End CommandLine.

(** ** The cells and the rows of the pass *)

Lemma res_map_Undefined {A B} (g : A -> B) (r : Res A) :
  res_map g r = Undefined <-> r = Undefined.
Proof. destruct r; simpl; split; intros Hr; congruence. Qed.

Lemma replaceFlagged_Undefined d : forall f b,
  replaceFlagged d f b = Undefined <-> (length f < length d)%nat.
Proof.
  induction d as [|x d IH]; intros f b; simpl.
  - split; [discriminate | lia].
  - destruct f as [|fl f]; simpl.
    + split; [lia | reflexivity].
    + destruct fl; rewrite res_map_Undefined, IH; lia.
Qed.

Lemma replaceFlagged_Ok_length d f b r :
  replaceFlagged d f b = Ok r -> (length d <= length f)%nat.
Proof.
  intros Hr. destruct (le_lt_dec (length d) (length f)) as [Hle|Hlt]; [exact Hle|].
  apply replaceFlagged_Undefined with (b := b) in Hlt. congruence.
Qed.


(** ** The pass: what it needs and what it leaves *)

Lemma replaceFlaggedColumn_Ok c w w' :
  replaceFlaggedColumn c w = (Ok tt, w') -> c <> WEIGHT_SPECTRUM ->
  is_Some (complexRows (ms w) c) /\ is_Some (boolRows (ms w) FLAG).
Proof.
  unfold replaceFlaggedColumn. intros Hrun Hc.
  destruct (decide (c = WEIGHT_SPECTRUM)); [contradiction|].
  apply bind_inv in Hrun as [([] & w1 & Hm1 & Hrun) | (r1 & _ & _ & Hr)];
    [|destruct r1; discriminate].
  apply bind_inv in Hrun as [([] & w2 & Hm2 & Hrun) | (r1 & _ & _ & Hr)];
    [|destruct r1; discriminate].
  pose proof (ArrayColumn_Complex_inv _ _ _ _ Hm1) as ->.
  unfold ArrayColumn_Complex, ArrayColumn_bool, bind, getTable, ret, throw in Hm1, Hm2.
  destruct (complexRows (ms w) c); [|discriminate].
  destruct (boolRows (ms w) FLAG); [|discriminate].
  split; eauto.
Qed.

Lemma replaceFlaggedValues_Ok_columns : forall cols w w' c,
  replaceFlaggedValues cols w = (Ok tt, w') ->
  In c cols -> c <> WEIGHT_SPECTRUM ->
  is_Some (complexRows (ms w) c) /\ is_Some (boolRows (ms w) FLAG).
Proof.
  unfold replaceFlaggedValues.
  induction cols as [|c0 cols IH]; intros w w' c Hrun Hin Hc; [contradiction|].
  apply forEach_cons_inv in Hrun as [(w1 & Hhead & Htail) | [_ Hf]]; [|discriminate].
  destruct (decide (c0 = c)) as [->|Hne].
  - eapply replaceFlaggedColumn_Ok; eauto.
  - destruct Hin as [Heq|Hin]; [contradiction|].
    destruct (IH _ _ _ Htail Hin Hc) as [Hcol Hflag].
    destruct (replaceFlaggedColumn_post _ _ _ _ Hhead) as ((_ & _ & Hother & Hfl & _) & _).
    unfold complexRows, boolRows in *.
    rewrite Hother in Hcol by congruence. rewrite Hfl in Hflag. auto.
Qed.

(** X10. The loop over the cells of a row checks the end of the data
    buffer only: it reads behind the end of the flag buffer exactly when
    the row has fewer flags than cells. *)
Theorem flag_buffer_overrun d f b :
  replaceFlagged d f b = Undefined <-> (length f < length d)%nat.
Proof. apply replaceFlagged_Undefined. Qed.

(** X11. The pass changes values of cells and nothing else, also when it
    stops half way: the table keeps its number of rows and its data
    managers, every column that was not asked for is left as it was, and
    every row of every complex column keeps its shape and its number of
    cells. *)
Theorem pass_changes_values_only cols w r w' :
  replaceFlaggedValues cols w = (r, w') ->
  nrow (ms w') = nrow (ms w) /\
  dataManagers (ms w') = dataManagers (ms w) /\
  (forall c, ~ In c cols -> columns (ms w') !! c = columns (ms w) !! c) /\
  (forall c row,
     (layout <$> dataRow (ms w') c row) = (layout <$> dataRow (ms w) c row)).
Proof.
  intros Hrun.
  destruct (replaceFlaggedValues_post _ _ _ _ Hrun) as ((Hn & Hdm & _ & Hlay) & Hother & _).
  split; [exact Hn|]. split; [exact Hdm|]. split; [|exact Hlay].
  intros c Hc. apply Hother. left. exact Hc.
Qed.

(** X12. A second pass over the same columns changes no value: after a
    completed pass every flagged cell holds the sentinel already, and the
    cells that are not flagged are kept. *)
Theorem second_pass_changes_no_value cols w w1 w2 :
  replaceFlaggedValues cols w = (Ok tt, w1) ->
  replaceFlaggedValues cols w1 = (Ok tt, w2) ->
  forall c row i, (row < nrow (ms w))%nat ->
    cellAt (ms w2) c row i = cellAt (ms w1) c row i.
Proof.
  intros H1 H2 c row i Hrow.
  destruct (replaceFlaggedValues_post _ _ _ _ H1)
    as ((Hn1 & _ & Hfl1 & Hlay1) & Hother1 & evs1 & _ & _ & _ & Hcells1).
  destruct (replaceFlaggedValues_post _ _ _ _ H2)
    as ((_ & _ & _ & Hlay2) & Hother2 & evs2 & _ & _ & _ & Hcells2).
  destruct (In_dec string_dec c cols) as [Hin|Hout];
    [destruct (decide (c = WEIGHT_SPECTRUM)) as [Hws|Hws]|].
  - apply cellAt_same, dataRow_same, Hother2. right. exact Hws.
  - destruct (cellAt (ms w1) c row i) as [y|] eqn:Hy.
    + assert (Hx : is_Some (cellAt (ms w) c row i)).
      { apply (cellAt_layout _ _ _ _ _ (Hlay1 c row)). rewrite Hy. eauto. }
      destruct Hx as [x Hx].
      destruct (Hcells1 eq_refl c Hin Hws row Hrow) as [_ Hc1].
      destruct (Hc1 i x Hx) as (fl & Hflag & Hy').
      rewrite Hy in Hy'. injection Hy' as ->.
      assert (Hrow1 : (row < nrow (ms w1))%nat) by (rewrite Hn1; exact Hrow).
      destruct (Hcells2 eq_refl c Hin Hws row Hrow1) as [_ Hc2].
      destruct (Hc2 i _ Hy) as (fl' & Hflag' & Hz).
      rewrite (flagAt_same _ _ _ _ Hfl1), Hflag in Hflag'. injection Hflag' as <-.
      rewrite Hz, sentinel_idem. reflexivity.
    + destruct (cellAt (ms w2) c row i) as [z|] eqn:Hz; [|reflexivity].
      assert (Hs : is_Some (cellAt (ms w1) c row i)).
      { apply (cellAt_layout _ _ _ _ _ (Hlay2 c row)). rewrite Hz. eauto. }
      rewrite Hy in Hs. destruct Hs; discriminate.
  - apply cellAt_same, dataRow_same, Hother2. left. exact Hout.
Qed.

Section PassAndRun.
Context `{H : Host}.

(** X13. The pass comes first and makes no exception for a column it
    cannot read: when a column that was asked for (other than the weight
    column) is not a complex column of the table, or the table has no
    boolean FLAG column, the run fails in the pass, and nothing of the
    migration is started. *)
Theorem unreadable_column_stops_the_run o msPath w r w' c :
  compress o msPath w = (r, w') ->
  In c (columnNames o) -> c <> WEIGHT_SPECTRUM ->
  complexRows (ms w) c = None \/ boolRows (ms w) FLAG = None ->
  isOk r = false /\
  exists evs, trace w' = trace w ++ evs /\ Forall (fun e => isFlagPass e = true) evs.
Proof.
  intros Hrun Hin Hc Hmiss.
  apply compress_inv in Hrun as [(wp & Hp & _) | (rp & Hp & Hf & ->)].
  - destruct (replaceFlaggedValues_Ok_columns _ _ _ _ Hp Hin Hc) as [[? Hs1] [? Hs2]].
    destruct Hmiss; congruence.
  - split; [destruct rp; [discriminate|reflexivity|reflexivity]|].
    destruct (replaceFlaggedValues_events _ _ _ _ Hp) as (pass & Htr & Hall).
    exists pass. split; [exact Htr|].
    eapply List.Forall_impl; [|exact Hall]. intros e He.
    apply (passEvent_class _ _ He).
Qed.

End PassAndRun.

Lemma replaceFlaggedRow_fits c row dataArr flagArr w dataArr' flagArr' w' :
  replaceFlaggedRow c row dataArr flagArr w = (Ok (dataArr', flagArr'), w') ->
  fits (ms w) c (shape dataArr) (shape flagArr) row /\
  rowOk (ms w) c (shape dataArr') (shape flagArr') row.
Proof.
  intros Hrun.
  destruct (replaceFlaggedRow_spec _ _ _ _ _ _ _ Hrun) as (evs & _ & _ & _ & _ & Hok).
  destruct (Hok eq_refl) as (a & fa & d' & ch & Ha & Hfa & Hrf & Hr & _).
  clear Hok. injection Hr as -> ->. simpl.
  pose proof (replaceFlagged_Ok_length _ _ _ _ Hrf) as Hlen.
  split; [|exists a, fa; auto].
  exists a, fa. split; [exact Ha|]. split; [exact Hfa|].
  revert Hrun.
  unfold replaceFlaggedRow, get_Complex, get_bool, fetch, bind, emit,
    getTable, lift, ret, throw.
  unfold dataRow in Ha. unfold flagRow in Hfa.
  destruct w as [t tr]. simpl in *.
  destruct (complexRows t c) as [rows|]; [|discriminate]. simpl in Ha. rewrite Ha.
  destruct (conforms (shape dataArr) (shape a)); [|discriminate]. simpl.
  destruct (boolRows t FLAG) as [frows|]; [|discriminate]. simpl in Hfa. rewrite Hfa.
  destruct (conforms (shape flagArr) (shape fa)); [|discriminate]. auto.
Qed.

Lemma sameLayout_sym t t' : sameLayout t t' -> sameLayout t' t.
Proof. intros (Hn & Hdm & Hfl & Hlay). repeat split; auto. Qed.

Lemma fits_sameLayout t t' c dsh fsh row :
  sameLayout t t' -> fits t c dsh fsh row -> fits t' c dsh fsh row.
Proof.
  intros (_ & _ & Hflag & Hlay) (a & fa & Ha & Hfa & Hs & Hfs & Hlen).
  specialize (Hlay c row). rewrite Ha in Hlay. simpl in Hlay.
  destruct (dataRow t' c row) as [a'|] eqn:Ha'; [|discriminate].
  injection Hlay as Hs' Hl'.
  exists a', fa. rewrite (flagRow_same _ _ row Hflag).
  split; [exact Ha'|]. split; [exact Hfa|]. split; [congruence|].
  split; [exact Hfs|]. lia.
Qed.

Lemma rowOk_unique t c dsh fsh dsh' fsh' row :
  rowOk t c dsh fsh row -> rowOk t c dsh' fsh' row -> dsh' = dsh /\ fsh' = fsh.
Proof.
  intros (a & fa & Ha & Hfa & <- & <- & _) (a' & fa' & Ha' & Hfa' & <- & <- & _).
  split; congruence.
Qed.

Lemma replaceFlaggedRows_fits c : forall n k dataArr flagArr w w',
  replaceFlaggedRows c (seq k n) dataArr flagArr w = (Ok tt, w') ->
  (n <> 0%nat -> fits (ms w) c (shape dataArr) (shape flagArr) k) /\
  (forall row, (k <= row < k + n)%nat -> exists dsh fsh, rowOk (ms w) c dsh fsh row) /\
  (forall row dsh fsh, (k <= row)%nat -> (S row < k + n)%nat ->
     rowOk (ms w) c dsh fsh row -> fits (ms w) c dsh fsh (S row)).
Proof.
  induction n as [|n IH]; intros k dataArr flagArr w w' Hrun.
  - split; [intros Hn; contradiction|]. split; intros; lia.
  - change (seq k (S n)) with (k :: seq (S k) n) in Hrun.
    apply replaceFlaggedRows_cons_inv in Hrun
      as [(da & fb & w1 & Hstep & Hrest) | (r1 & _ & _ & Hf)]; [|discriminate].
    destruct (replaceFlaggedRow_fits _ _ _ _ _ _ _ _ Hstep) as [Hfit Hok].
    destruct (replaceFlaggedRow_post _ _ _ _ _ _ _ Hstep) as (Haft & _).
    apply after_sameLayout in Haft.
    destruct (IH _ _ _ _ _ Hrest) as (IH1 & IH2 & IH3).
    split; [intros _; exact Hfit|]. split.
    + intros row Hrow. destruct (decide (row = k)) as [->|Hne]; [eauto|].
      destruct (IH2 row ltac:(lia)) as (dsh & fsh & Hr).
      exists dsh, fsh. eapply rowOk_sameLayout; [apply sameLayout_sym, Haft | exact Hr].
    + intros row dsh fsh Hk Hlt Hr.
      eapply fits_sameLayout; [apply sameLayout_sym, Haft|].
      destruct (decide (row = k)) as [->|Hne].
      * destruct (rowOk_unique _ _ _ _ _ _ _ Hok Hr) as [-> ->].
        apply IH1. lia.
      * apply IH3; [lia|lia|]. eapply rowOk_sameLayout; [exact Haft | exact Hr].
Qed.

(** X14. The two buffers are made once, with the shapes of row 0, and
    [get] does not resize a buffer that holds cells: the pass over a
    column completes only if every row can be read into the buffers as the
    row before it has left them, that is, has the shape of that row (or
    that row was empty), in the column and in the flags, and has a flag
    for each of its cells. *)
Theorem rows_must_conform c w w' :
  replaceFlaggedColumn c w = (Ok tt, w') -> c <> WEIGHT_SPECTRUM ->
  (forall row, (row < nrow (ms w))%nat -> exists dsh fsh, rowOk (ms w) c dsh fsh row) /\
  (forall row dsh fsh, (S row < nrow (ms w))%nat ->
     rowOk (ms w) c dsh fsh row -> fits (ms w) c dsh fsh (S row)).
Proof.
  unfold replaceFlaggedColumn. intros Hrun Hc.
  destruct (decide (c = WEIGHT_SPECTRUM)); [contradiction|].
  apply bind_inv in Hrun as [([] & w1 & Hm1 & Hrun) | (r1 & _ & _ & Hr)];
    [|destruct r1; discriminate].
  apply ArrayColumn_Complex_inv in Hm1 as ->.
  apply bind_inv in Hrun as [([] & w2 & Hm2 & Hrun) | (r1 & _ & _ & Hr)];
    [|destruct r1; discriminate].
  apply ArrayColumn_bool_inv in Hm2 as ->.
  apply bind_inv in Hrun as [(dsh0 & w3 & Hm3 & Hrun) | (r1 & _ & _ & Hr)];
    [|destruct r1; discriminate].
  apply shape_Complex_inv in Hm3 as ->.
  apply bind_inv in Hrun as [(fsh0 & w4 & Hm4 & Hrun) | (r1 & _ & _ & Hr)];
    [|destruct r1; discriminate].
  apply shape_bool_inv in Hm4 as ->.
  unfold bind, getTable in Hrun.
  destruct (replaceFlaggedRows_fits _ _ _ _ _ _ _ Hrun) as (_ & H2 & H3).
  split.
  - intros row Hrow. apply H2. lia.
  - intros row dsh fsh Hrow. apply H3; lia.
Qed.

(** ** The replacement, step by step *)

Lemma count_app p l1 l2 : count p (l1 ++ l2) = (count p l1 + count p l2)%nat.
Proof. unfold count. rewrite filter_app, length_app. reflexivity. Qed.

Lemma count_cons p e l :
  count p (e :: l) = ((if p e then 1 else 0) + count p l)%nat.
Proof.
  unfold count. destruct (p e) eqn:He.
  - rewrite filter_cons_True by exact He. reflexivity.
  - rewrite filter_cons_False by (rewrite He; discriminate). reflexivity.
Qed.

Section Migration.
Context `{H : Host}.

Lemma newManagerColumn_inv T name sh b1 b2 n d nu x w r w' :
  newManagerColumn T name sh b1 b2 n d nu x w = (r, w') ->
  exists evs, trace w' = trace w ++ NewDyscoStMan b1 b2 :: evs /\
    Forall (fun e => creationStep T name sh e /\ isManagerCreation e = false) evs /\
    (isOk r = false -> ms w' = ms w) /\
    (r = Ok tt ->
       columns (ms w) !! name = None /\
       exists dm, In (AddColumnNew T name sh dm) evs /\
         ms w' = withColumn (ms w) T name sh
                   (<[DyscoStManName := DyscoManager dm]> (dataManagers (ms w)))).
Proof.
  unfold newManagerColumn, setDistribution, addColumn_new, bind, emit, lift,
    getTable, setTable, ret, throw, withColumn.
  destruct w as [t tr]. simpl. intros Hrun.
  destruct d; repeat (case_match; simplify_eq/=).
  all: (eexists; split; [rewrite <- ?app_assoc; simpl; reflexivity|]).
  all: (split; [repeat (apply List.Forall_cons; [simpl; auto 10|]); apply List.Forall_nil|]).
  all: (split; [first [discriminate | reflexivity | intros _; reflexivity]|]).
  all: try discriminate.
  all: intros _; split; [first [assumption | reflexivity]|]; eexists; split;
    [simpl; eauto 10 | reflexivity].
Qed.

Lemma addColumn_existing_inv T name sh w r w' :
  addColumn_existing T name sh w = (r, w') ->
  trace w' = trace w ++ [AddColumnExisting T name sh] /\
  (isOk r = false -> ms w' = ms w) /\
  (r = Ok tt ->
     columns (ms w) !! name = None /\
     ms w' = withColumn (ms w) T name sh (dataManagers (ms w))).
Proof.
  unfold addColumn_existing, bind, emit, getTable, setTable, ret, throw, withColumn.
  destruct w as [t tr]. simpl. intros Hrun.
  repeat (case_match; simplify_eq/=); repeat split; auto; discriminate.
Qed.

Lemma createDyscoStManColumn_post T name sh b1 b2 n d nu x w r w' :
  createDyscoStManColumn T name sh b1 b2 n d nu x w = (r, w') ->
  exists evs, trace w' = trace w ++ evs /\
    Forall (creationStep T name sh) evs /\
    (count isManagerCreation evs <= 1)%nat /\
    (is_Some (dataManagers (ms w) !! DyscoStManName) ->
       count isManagerCreation evs = 0%nat) /\
    (isOk r = false -> ms w' = ms w) /\
    (r = Ok tt ->
       columns (ms w) !! name = None /\
       (exists e, In e evs /\ definesColumn T name sh e) /\
       exists dms, ms w' = withColumn (ms w) T name sh dms /\
         is_Some (dms !! DyscoStManName) /\
         (forall m, m <> DyscoStManName -> dms !! m = dataManagers (ms w) !! m) /\
         (is_Some (dataManagers (ms w) !! DyscoStManName) ->
            dms = dataManagers (ms w))).
Proof.
  intros Hrun.
  apply createDyscoStManColumn_inv in Hrun as (w1 & Hms & Htr1 & [[Hsome Hr] | [Hnone Hr]]).
  - apply addColumn_existing_inv in Hr as (Htr & Hfail & Hok).
    exists [FindDataManager DyscoStManName; AddColumnExisting T name sh].
    rewrite Htr, Htr1, <- app_assoc, <- Hms.
    split; [reflexivity|].
    split; [repeat constructor|].
    split; [unfold count; simpl; lia|]. split; [reflexivity|].
    split; [exact Hfail|].
    intros Hr. destruct (Hok Hr) as [Hfresh Hw'].
    split; [exact Hfresh|].
    split; [exists (AddColumnExisting T name sh); simpl; auto|].
    exists (dataManagers (ms w1)). rewrite Hms in *. auto.
  - change (newManagerColumn T name sh b1 b2 n d nu x w1 = (r, w')) in Hr.
    apply newManagerColumn_inv in Hr as (evs & Htr & Hall & Hfail & Hok).
    assert (Hcount : count isManagerCreation evs = 0%nat).
    { apply count_zero. eapply List.Forall_impl; [|exact Hall]. intros e He. apply He. }
    exists (FindDataManager DyscoStManName :: NewDyscoStMan b1 b2 :: evs).
    rewrite Htr, Htr1, <- app_assoc, <- Hms.
    split; [reflexivity|].
    split.
    { constructor; [exact I|]. constructor; [exact I|].
      eapply List.Forall_impl; [|exact Hall]. intros e He. apply He. }
    split; [rewrite !count_cons, Hcount; simpl; lia|].
    split; [intros [dm Hdm]; rewrite <- Hms in Hnone; congruence|].
    split; [exact Hfail|].
    intros Hr. destruct (Hok Hr) as (Hfresh & dm & Hin & Hw').
    split; [exact Hfresh|].
    split; [exists (AddColumnNew T name sh dm); simpl; auto|].
    exists (<[DyscoStManName := DyscoManager dm]> (dataManagers (ms w1))).
    split; [exact Hw'|]. split; [rewrite lookup_insert_eq; eauto|].
    split; [intros m Hm; rewrite lookup_insert_ne by congruence; reflexivity|].
    intros [dm' Hdm']. rewrite <- Hms in Hnone. congruence.
Qed.

Lemma createColumns_post sh b1 b2 n d nu x : forall cols w r w',
  forEach cols (fun c => createDyscoStManColumn (elemTypeOf c) c sh b1 b2 n d nu x) w
    = (r, w') ->
  exists evs, trace w' = trace w ++ evs /\
    Forall (fun e => exists c, In c cols /\ creationStep (elemTypeOf c) c sh e) evs /\
    (count isManagerCreation evs <= 1)%nat /\
    (is_Some (dataManagers (ms w) !! DyscoStManName) ->
       count isManagerCreation evs = 0%nat) /\
    (r = Ok tt ->
       List.NoDup cols /\
       (forall c, In c cols -> columns (ms w) !! c = None) /\
       (forall c, In c cols ->
          exists e, In e evs /\ definesColumn (elemTypeOf c) c sh e)).
Proof.
  induction cols as [|c0 cols IH]; intros w r w' Hrun.
  - injection Hrun as <- <-. exists []. rewrite app_nil_r.
    split; [reflexivity|]. split; [constructor|].
    split; [unfold count; simpl; lia|]. split; [reflexivity|].
    intros _. split; [constructor|]. split; intros c [].
  - apply forEach_cons_inv in Hrun as [(w1 & Hhead & Htail) | [Hhead Hf]].
    + destruct (createDyscoStManColumn_post _ _ _ _ _ _ _ _ _ _ _ _ Hhead)
        as (evs1 & Htr1 & Hall1 & Hle1 & Hzero1 & _ & Hok1).
      destruct (Hok1 eq_refl) as (Hfresh & (e0 & Hin0 & Hdef0) & dms & Hw1 & Hsome & _ & _).
      destruct (IH _ _ _ Htail) as (evs2 & Htr2 & Hall2 & _ & Hzero2 & Hok2).
      assert (Hc2 : count isManagerCreation evs2 = 0%nat).
      { apply Hzero2. rewrite Hw1. exact Hsome. }
      exists (evs1 ++ evs2). rewrite Htr2, Htr1, <- app_assoc.
      split; [reflexivity|]. split.
      { apply Forall_app. split.
        - eapply List.Forall_impl; [|exact Hall1]. intros e He. exists c0. simpl. auto.
        - eapply List.Forall_impl; [|exact Hall2]. intros e (c & Hc & He).
          exists c. simpl. auto. }
      split; [rewrite count_app, Hc2; lia|].
      split; [intros Hs; rewrite count_app, Hc2, (Hzero1 Hs); reflexivity|].
      intros Hr. destruct (Hok2 Hr) as (Hnd & Hfresh2 & Hdef2).
      assert (Hne : forall c, In c cols -> c <> c0).
      { intros c Hc ->. specialize (Hfresh2 c0 Hc). rewrite Hw1 in Hfresh2.
        unfold withColumn in Hfresh2. simpl in Hfresh2.
        rewrite lookup_insert_eq in Hfresh2. discriminate. }
      split; [|split].
      * constructor; [|exact Hnd]. intros Hin. exact (Hne c0 Hin eq_refl).
      * intros c [<-|Hc]; [exact Hfresh|].
        specialize (Hfresh2 c Hc). rewrite Hw1 in Hfresh2.
        unfold withColumn in Hfresh2. simpl in Hfresh2.
        rewrite lookup_insert_ne in Hfresh2 by (intros Heq; exact (Hne c Hc (eq_sym Heq))).
        exact Hfresh2.
      * intros c [<-|Hc].
        -- exists e0. split; [apply in_or_app; auto | exact Hdef0].
        -- destruct (Hdef2 c Hc) as (e & Hin & Hdef).
           exists e. split; [apply in_or_app; auto | exact Hdef].
    + destruct (createDyscoStManColumn_post _ _ _ _ _ _ _ _ _ _ _ _ Hhead)
        as (evs1 & Htr1 & Hall1 & Hle1 & Hzero1 & _ & _).
      exists evs1. split; [exact Htr1|]. split.
      { eapply List.Forall_impl; [|exact Hall1]. intros e He. exists c0. simpl. auto. }
      split; [exact Hle1|]. split; [exact Hzero1|].
      intros ->. discriminate.
Qed.

Lemma callMove_inv T c w r w' :
  callMove T c w = (r, w') -> trace w' = trace w ++ [MoveData T c].
Proof.
  unfold callMove, bind, emit, onTable. destruct w as [t tr]. simpl.
  destruct (MoveColumnData T c t) as [[]?]; intros Hr; injection Hr as <- <-; reflexivity.
Qed.

Lemma moveColumns_post : forall cols w r w',
  forEach cols (fun c => callMove (elemTypeOf c) c) w = (r, w') ->
  exists k, trace w' = trace w ++ moveEvents (take k cols) /\
    (r = Ok tt -> k = length cols).
Proof.
  induction cols as [|c0 cols IH]; intros w r w' Hrun.
  - injection Hrun as <- <-. exists 0%nat. simpl. rewrite app_nil_r. auto.
  - apply forEach_cons_inv in Hrun as [(w1 & Hhead & Htail) | [Hhead Hf]].
    + apply callMove_inv in Hhead.
      destruct (IH _ _ _ Htail) as (k & Htr & Hk).
      exists (S k). rewrite Htr, Hhead, <- app_assoc. split; [reflexivity|].
      intros Hr. simpl. rewrite (Hk Hr). reflexivity.
    + apply callMove_inv in Hhead. exists 1%nat. split; [exact Hhead|].
      intros ->. discriminate.
Qed.

Lemma callReorder_inv msPath w r w' :
  callReorder msPath w = (r, w') -> trace w' = trace w ++ [ReorderTable msPath].
Proof.
  unfold callReorder, bind, emit, onTable. destruct w as [t tr]. simpl.
  destruct (Reorder msPath t) as [[]?]; intros Hr; injection Hr as <- <-; reflexivity.
Qed.

(** The three steps of lines 272-289, one after the other. *)
Lemma replaceColumns_phases o msPath sh w r w' :
  replaceColumns o msPath sh w = (r, w') ->
  exists creates k ro,
    trace w' = trace w ++ creates ++ moveEvents (take k (columnNames o)) ++ ro /\
    Forall (fun e => exists c, In c (columnNames o) /\
                               creationStep (elemTypeOf c) c sh e) creates /\
    (count isManagerCreation creates <= 1)%nat /\
    (ro = [] \/ (reorder o = true /\ ro = [ReorderTable msPath])) /\
    (k <> 0%nat \/ ro <> [] \/ r = Ok tt ->
       List.NoDup (columnNames o) /\
       (forall c, In c (columnNames o) -> columns (ms w) !! c = None) /\
       (forall c, In c (columnNames o) ->
          exists e, In e creates /\ definesColumn (elemTypeOf c) c sh e)) /\
    (ro <> [] \/ r = Ok tt -> k = length (columnNames o)) /\
    (r = Ok tt -> reorder o = true -> ro = [ReorderTable msPath]).
Proof.
  unfold replaceColumns. intros Hrun.
  apply bind_inv in Hrun as [([] & wc & Hc & Hrun) | (rc & Hc & Hf & ->)].
  - destruct (createColumns_post _ _ _ _ _ _ _ _ _ _ _ Hc)
      as (creates & Htrc & Hallc & Hle & _ & Hokc).
    specialize (Hokc eq_refl).
    apply bind_inv in Hrun as [([] & wm & Hm & Hrun) | (rm & Hm & Hf & ->)].
    + destruct (moveColumns_post _ _ _ _ Hm) as (k & Htrm & Hk).
      specialize (Hk eq_refl). subst k.
      destruct (reorder o) eqn:Hre.
      * apply callReorder_inv in Hrun.
        exists creates, (length (columnNames o)), [ReorderTable msPath].
        rewrite Hrun, Htrm, Htrc, <- !app_assoc.
        split; [reflexivity|]. split; [exact Hallc|]. split; [exact Hle|].
        split; [right; auto|]. split; [intros _; exact Hokc|]. auto.
      * injection Hrun as <- <-.
        exists creates, (length (columnNames o)), [].
        rewrite Htrm, Htrc, <- !app_assoc, app_nil_r.
        split; [reflexivity|]. split; [exact Hallc|]. split; [exact Hle|].
        split; [left; reflexivity|]. split; [intros _; exact Hokc|].
        split; [reflexivity|]. intros _ Habs. discriminate.
    + destruct (moveColumns_post _ _ _ _ Hm) as (k & Htrm & _).
      exists creates, k, [].
      rewrite Htrm, Htrc, <- !app_assoc, app_nil_r.
      split; [reflexivity|]. split; [exact Hallc|]. split; [exact Hle|].
      split; [left; reflexivity|]. split; [intros _; exact Hokc|].
      split.
      * intros [Hne|Hr]; [contradiction|]. exfalso. exact (failure_not_Ok _ _ Hr).
      * intros Hr. exfalso. exact (failure_not_Ok _ _ Hr).
  - destruct (createColumns_post _ _ _ _ _ _ _ _ _ _ _ Hc)
      as (creates & Htrc & Hallc & Hle & _ & _).
    exists creates, 0%nat, []. simpl. rewrite app_nil_r.
    split; [exact Htrc|]. split; [exact Hallc|]. split; [exact Hle|].
    split; [left; reflexivity|].
    split.
    + intros [Hne|[Hne|Hr]]; try contradiction. exfalso. exact (failure_not_Ok _ _ Hr).
    + split.
      * intros [Hne|Hr]; [contradiction|]. exfalso. exact (failure_not_Ok _ _ Hr).
      * intros Hr. exfalso. exact (failure_not_Ok _ _ Hr).
Qed.

Lemma prepareColumns_calls b1 b2 : forall names sh b w r w',
  prepareColumns names b1 b2 sh b w = (r, w') ->
  exists prep kp, trace w' = trace w ++ prep /\
    map preparedColumn prep =
      map (fun c => Some (elemTypeOf c, c)) (take kp names) /\
    (isOk r = true -> kp = length names) /\
    (forall sh' b', r = Ok (sh', b') ->
       b' = true <-> (b = true \/ exists T c bf bw, In (Prepare T c bf bw (Some true)) prep)).
Proof.
  induction names as [|c names IH]; intros sh b w r w' Hrun; simpl in Hrun.
  - injection Hrun as <- <-. exists [], 0%nat. rewrite app_nil_r.
    split; [reflexivity|]. split; [reflexivity|]. split; [reflexivity|].
    intros sh' b' Heq. injection Heq as _ ->. split; [auto|].
    intros [Hb|(T & c & bf & bw & Hin)]; [exact Hb | destruct Hin].
  - apply bind_inv in Hrun as [([replaced sh1] & w1 & Hcall & Hrest) | (r1 & Hcall & Hf & ->)].
    + apply callPrepare_inv in Hcall as [_ Htr1]. simpl in Htr1.
      destruct (IH _ _ _ _ _ Hrest) as (prep & kp & Htr & Hmap & Hk & Hb).
      exists (Prepare (elemTypeOf c) c b1 b2 (Some replaced) :: prep), (S kp).
      rewrite Htr, Htr1, <- app_assoc. split; [reflexivity|].
      split; [simpl; rewrite Hmap; reflexivity|].
      split; [intros Hr; simpl; rewrite (Hk Hr); reflexivity|].
      intros sh' b' Hr. rewrite (Hb _ _ Hr). split.
      * intros [Hor|(T & c' & bf & bw & Hin)].
        -- apply orb_true_iff in Hor as [-> | ->]; [|auto].
           right. exists (elemTypeOf c), c, b1, b2. simpl. auto.
        -- right. exists T, c', bf, bw. simpl. auto.
      * intros [->|(T & c' & bf & bw & [Heq|Hin])].
        -- left. apply orb_true_r.
        -- injection Heq as _ _ _ _ ->. left. reflexivity.
        -- right. eauto 6.
    + apply callPrepare_inv in Hcall as [_ Htr1].
      exists [Prepare (elemTypeOf c) c b1 b2 (replacedOf r1)], 1%nat.
      split; [exact Htr1|]. split; [simpl; rewrite ?take_0; reflexivity|].
      split; [intros Hr; destruct r1; discriminate|].
      intros sh' b' Hr. exfalso. exact (failure_not_Ok _ _ Hr).
Qed.

(** The run after the table is opened, phase by phase. *)
Lemma compress_phases o msPath w r w' :
  compress o msPath w = (r, w') ->
  exists pass prep sh creates k ro kp,
    trace w' = trace w ++ pass ++ prep ++ creates ++
                 moveEvents (take k (columnNames o)) ++ ro /\
    Forall (passEvent (columnNames o)) pass /\
    map preparedColumn prep =
      map (fun c => Some (elemTypeOf c, c)) (take kp (columnNames o)) /\
    Forall (fun e => exists c, In c (columnNames o) /\
                               creationStep (elemTypeOf c) c sh e) creates /\
    (count isManagerCreation creates <= 1)%nat /\
    (ro = [] \/ (reorder o = true /\ ro = [ReorderTable msPath])) /\
    (r = Ok tt -> kp = length (columnNames o)) /\
    (creates <> [] \/ k <> 0%nat \/ ro <> [] ->
       kp = length (columnNames o) /\
       exists T c bf bw, In (Prepare T c bf bw (Some true)) prep) /\
    (k <> 0%nat \/ ro <> [] \/
     (r = Ok tt /\ exists T c bf bw, In (Prepare T c bf bw (Some true)) prep) ->
       List.NoDup (columnNames o) /\
       (forall c, In c (columnNames o) ->
          exists e, In e creates /\ definesColumn (elemTypeOf c) c sh e)) /\
    (ro <> [] \/ (r = Ok tt /\ exists T c bf bw, In (Prepare T c bf bw (Some true)) prep) ->
       k = length (columnNames o)) /\
    (r = Ok tt -> (exists T c bf bw, In (Prepare T c bf bw (Some true)) prep) ->
       reorder o = true -> ro = [ReorderTable msPath]).
Proof.
  intros Hrun. apply compress_inv in Hrun as [(wp & Hp & Hm) | (rp & Hp & Hf & ->)].
  - destruct (replaceFlaggedValues_events _ _ _ _ Hp) as (pass & Htrp & Hallp).
    unfold migrate in Hm.
    apply bind_inv in Hm as [([sh b] & wq & Hq & Hrest) | (rq & Hq & Hf & ->)].
    + destruct (prepareColumns_calls _ _ _ _ _ _ _ _ Hq) as (prep & kp & Htrq & Hmap & Hkp & Hb).
      specialize (Hkp eq_refl). specialize (Hb _ _ eq_refl).
      destruct b.
      * destruct (proj1 Hb eq_refl) as [Habs|Htrue]; [discriminate|].
        destruct (replaceColumns_phases _ _ _ _ _ _ Hrest)
          as (creates & k & ro & Htr & Hallc & Hle & Hro & Hdone & Hk & Hre).
        exists pass, prep, sh, creates, k, ro, kp.
        rewrite Htr, Htrq, Htrp, <- !app_assoc.
        split; [reflexivity|]. split; [exact Hallp|]. split; [exact Hmap|].
        split; [exact Hallc|]. split; [exact Hle|]. split; [exact Hro|].
        split; [auto|]. split; [auto|].
        split.
        { intros Hcase. destruct (Hdone ltac:(tauto)) as (Hnd & _ & Hdef). auto. }
        split; [intros Hcase; apply Hk; tauto|].
        intros Hr _. apply Hre, Hr.
      * injection Hrest as <- <-.
        exists pass, prep, sh, [], 0%nat, [], kp.
        simpl. rewrite Htrq, Htrp, <- !app_assoc, app_nil_r.
        split; [reflexivity|]. split; [exact Hallp|]. split; [exact Hmap|].
        split; [constructor|]. split; [unfold count; simpl; lia|].
        split; [left; reflexivity|]. split; [auto|].
        assert (Hnone : ~ exists T c bf bw, In (Prepare T c bf bw (Some true)) prep).
        { intros Htrue. assert (false = true) by (apply Hb; auto). discriminate. }
        split; [intros [?|[?|?]]; contradiction|].
        split; [intros [?|[?|[_ ?]]]; contradiction|].
        split; [intros [?|[_ ?]]; contradiction|].
        intros _ Htrue. contradiction.
    + destruct (prepareColumns_calls _ _ _ _ _ _ _ _ Hq) as (prep & kp & Htrq & Hmap & _ & _).
      exists pass, prep, [], [], 0%nat, [], kp.
      simpl. rewrite Htrq, Htrp, <- !app_assoc, app_nil_r.
      split; [reflexivity|]. split; [exact Hallp|]. split; [exact Hmap|].
      split; [constructor|]. split; [unfold count; simpl; lia|].
      split; [left; reflexivity|].
      split; [intros Hr; exfalso; exact (failure_not_Ok _ _ Hr)|].
      split; [intros [?|[?|?]]; contradiction|].
      split; [intros [?|[?|[Hr _]]]; try contradiction;
              exfalso; exact (failure_not_Ok _ _ Hr)|].
      split; [intros [?|[Hr _]]; try contradiction;
              exfalso; exact (failure_not_Ok _ _ Hr)|].
      intros Hr. exfalso. exact (failure_not_Ok _ _ Hr).
  - destruct (replaceFlaggedValues_events _ _ _ _ Hp) as (pass & Htrp & Hallp).
    exists pass, [], [], [], 0%nat, [], 0%nat.
    simpl. rewrite app_nil_r.
    split; [exact Htrp|]. split; [exact Hallp|]. split; [rewrite ?take_0; reflexivity|].
    split; [constructor|]. split; [unfold count; simpl; lia|].
    split; [left; reflexivity|].
    split; [intros Hr; exfalso; exact (failure_not_Ok _ _ Hr)|].
    split; [intros [?|[?|?]]; contradiction|].
    split; [intros [?|[?|[Hr _]]]; try contradiction;
            exfalso; exact (failure_not_Ok _ _ Hr)|].
    split; [intros [?|[Hr _]]; try contradiction;
            exfalso; exact (failure_not_Ok _ _ Hr)|].
    intros Hr. exfalso. exact (failure_not_Ok _ _ Hr).
Qed.

Lemma prepared_events prep : forall (l : list string),
  map preparedColumn prep = map (fun c => Some (elemTypeOf c, c)) l ->
  Forall (fun e => exists c bf bw b, In c l /\ e = Prepare (elemTypeOf c) c bf bw b) prep /\
  omap preparedColumn prep = map (fun c => (elemTypeOf c, c)) l.
Proof.
  induction prep as [|e prep IH]; intros [|c l] Hmap; try discriminate.
  - split; [constructor | reflexivity].
  - simpl in Hmap. injection Hmap as He Hmap.
    destruct (IH _ Hmap) as [Hall Ho]. split.
    + constructor.
      * destruct e as [| | |T c' bf bw b| | | | | | | | | | |]; try discriminate.
        simpl in He. injection He as -> ->.
        exists c, bf, bw, b. split; [left; reflexivity | reflexivity].
      * eapply List.Forall_impl; [|exact Hall].
        intros e' (c' & bf & bw & b & Hin & He'). exists c', bf, bw, b. split; [right; exact Hin | exact He'].
    + change (map (fun c => (elemTypeOf c, c)) (c :: l))
        with ((elemTypeOf c, c) :: map (fun c => (elemTypeOf c, c)) l).
      rewrite <- Ho. simpl. rewrite He. reflexivity.
Qed.

Lemma omap_preparedColumn_nil (l : list Event) :
  Forall (fun e => isPrepare e = false) l -> omap preparedColumn l = [].
Proof.
  induction 1 as [|e l He _ IH]; [reflexivity|].
  destruct e; try discriminate; simpl; exact IH.
Qed.

Lemma creationStep_class T c sh e :
  creationStep T c sh e ->
  isFlagPass e = false /\ isPrepare e = false /\ isDataMove e = false /\
  isReorder e = false /\ isMigration e = true.
Proof. destruct e; simpl; intros He; try contradiction; auto. Qed.

Lemma moveEvents_class l :
  Forall (fun e => isDataMove e = true /\ isPrepare e = false /\
                   isManagerCreation e = false /\ isColumnCreation e = false /\
                   isReorder e = false /\ isFlagPass e = false) (moveEvents l).
Proof. unfold moveEvents. induction l; simpl; constructor; auto 10. Qed.

Lemma reorder_class (ro : list Event) o msPath :
  ro = [] \/ (reorder o = true /\ ro = [ReorderTable msPath]) ->
  Forall (fun e => isReorder e = true /\ isPrepare e = false /\
                   isManagerCreation e = false /\ isColumnCreation e = false /\
                   isDataMove e = false /\ isFlagPass e = false) ro.
Proof. intros [->|[_ ->]]; repeat constructor. Qed.

Lemma in_phases {A} (x : A) (l1 l2 l3 l4 l5 : list A) :
  In x (l1 ++ l2 ++ l3 ++ l4 ++ l5) ->
  In x l1 \/ In x l2 \/ In x l3 \/ In x l4 \/ In x l5.
Proof. rewrite !in_app_iff. tauto. Qed.

Lemma Forall_In {A} (P : A -> Prop) (l : list A) (x : A) :
  Forall P l -> In x l -> P x.
Proof. intros Hall Hin. rewrite List.Forall_forall in Hall. auto. Qed.

(** X15. A column that [createDyscoStManColumn] has added is new to the
    table, is bound to the manager "DyscoStMan" and has one cell of the
    given shape for each row; the table has such a manager afterwards, the
    one it had if it had one, and its other managers, its other columns
    and its rows are as before. *)
Theorem created_column_is_bound_to_dysco T name sh b1 b2 n d nu x w w' :
  createDyscoStManColumn T name sh b1 b2 n d nu x w = (Ok tt, w') ->
  columns (ms w) !! name = None /\
  nrow (ms w') = nrow (ms w) /\
  columns (ms w') =
    <[name := mkColumn DyscoStManName (freshColumn T (nrow (ms w)) sh)]> (columns (ms w)) /\
  is_Some (dataManagers (ms w') !! DyscoStManName) /\
  (forall m, m <> DyscoStManName ->
     dataManagers (ms w') !! m = dataManagers (ms w) !! m) /\
  (is_Some (dataManagers (ms w) !! DyscoStManName) ->
     dataManagers (ms w') = dataManagers (ms w)).
Proof.
  intros Hrun.
  destruct (createDyscoStManColumn_post _ _ _ _ _ _ _ _ _ _ _ _ Hrun)
    as (evs & _ & _ & _ & _ & _ & Hok).
  destruct (Hok eq_refl) as (Hfresh & _ & dms & -> & Hsome & Hother & Hsame).
  simpl. auto 10.
Qed.

(** X16. [createDyscoStManColumn] changes the table in its last step
    only: when it fails, in the constructor of the manager, in a setter or
    in [addColumn], the table is as it was. *)
Theorem failed_creation_leaves_the_table T name sh b1 b2 n d nu x w r w' :
  createDyscoStManColumn T name sh b1 b2 n d nu x w = (r, w') ->
  isOk r = false ->
  ms w' = ms w.
Proof.
  intros Hrun Hf.
  destruct (createDyscoStManColumn_post _ _ _ _ _ _ _ _ _ _ _ _ Hrun)
    as (evs & _ & _ & _ & _ & Hfail & _).
  exact (Hfail Hf).
Qed.

(** X17. A run constructs at most one storage manager: the column that is
    created first finds none and constructs it, and every later column
    finds the one that the first has added to the table. *)
Theorem one_manager_per_run argv disk r w :
  main argv disk = (r, Some w) ->
  (count isManagerCreation (trace w) <= 1)%nat.
Proof.
  intros Hmain.
  apply main_inv in Hmain as (o & rest & msPath & t & r' & _ & _ & Hrun & _).
  destruct (compress_phases _ _ _ _ _ Hrun)
    as (pass & prep & sh & creates & k & ro & kp &
        Htr & Hpass & Hprep & _ & Hle & Hro & _).
  rewrite Htr. simpl. rewrite count_cons, !count_app.
  rewrite (count_zero _ pass), (count_zero _ prep), (count_zero _ (moveEvents _)),
    (count_zero _ ro).
  - simpl. lia.
  - eapply List.Forall_impl; [|exact (reorder_class _ _ _ Hro)]. intros e He. apply He.
  - eapply List.Forall_impl; [|apply moveEvents_class]. intros e He. apply He.
  - eapply List.Forall_impl; [|exact (proj1 (prepared_events _ _ Hprep))].
    intros e (c & bf & bw & b & _ & ->). reflexivity.
  - eapply List.Forall_impl; [|exact Hpass]. intros e He.
    apply (passEvent_class _ _ He).
Qed.

(** X18. The replacement goes in three steps that do not overlap: every
    column is created before the data of any column is moved, the data
    are moved in the order of the column list, and the table is reordered
    last, at most once and only when the data of every column have been
    moved. *)
Theorem columns_are_created_then_moved o msPath w r w' :
  compress o msPath w = (r, w') ->
  exists pass prep creates k ro,
    trace w' = trace w ++ pass ++ prep ++ creates ++
                 moveEvents (take k (columnNames o)) ++ ro /\
    Forall (fun e => isFlagPass e = true) pass /\
    Forall (fun e => isPrepare e = true) prep /\
    Forall (fun e => isMigration e = true /\ isPrepare e = false /\
                     isDataMove e = false /\ isReorder e = false) creates /\
    (ro = [] \/ ro = [ReorderTable msPath]) /\
    (k <> 0%nat ->
       forall c, In c (columnNames o) ->
         exists e, In e creates /\ isColumnCreation e = true /\ columnOf e = Some c) /\
    (ro <> [] -> k = length (columnNames o)).
Proof.
  intros Hrun.
  destruct (compress_phases _ _ _ _ _ Hrun)
    as (pass & prep & sh & creates & k & ro & kp &
        Htr & Hpass & Hprep & Hcr & _ & Hro & _ & _ & Hdone & Hk & _).
  exists pass, prep, creates, k, ro.
  split; [exact Htr|]. split.
  { eapply List.Forall_impl; [|exact Hpass]. intros e He. apply (passEvent_class _ _ He). }
  split.
  { eapply List.Forall_impl; [|exact (proj1 (prepared_events _ _ Hprep))].
    intros e (c & bf & bw & b & _ & ->). reflexivity. }
  split.
  { eapply List.Forall_impl; [|exact Hcr]. intros e (c & _ & He).
    destruct (creationStep_class _ _ _ _ He) as (_ & ? & ? & ? & ?). auto. }
  split; [destruct Hro as [?|[_ ?]]; auto|].
  split.
  - intros Hk0 c Hc. destruct (Hdone (or_introl Hk0)) as [_ Hdef].
    destruct (Hdef c Hc) as (e & Hin & He). exists e. split; [exact Hin|].
    destruct e; simpl in He; try contradiction;
      destruct He as (_ & -> & _); auto.
  - intros Hne. apply Hk. auto.
Qed.

(** X19. Whether to replace is decided once, for the whole list, and not
    column by column: in a run that completes and in which a call of
    [PrepareReplacingColumn] has reported a column as replaced, every
    column of the list is created and the data of every column are
    moved. *)
Theorem all_columns_are_created_and_moved o msPath w w' evs :
  compress o msPath w = (Ok tt, w') ->
  trace w' = trace w ++ evs ->
  (exists T c bf bw, In (Prepare T c bf bw (Some true)) evs) ->
  forall c, In c (columnNames o) ->
    (exists e, In e evs /\ isColumnCreation e = true /\ columnOf e = Some c) /\
    In (MoveData (elemTypeOf c) c) evs.
Proof.
  intros Hrun Hevs (T0 & c0 & bf0 & bw0 & Htrue) c Hc.
  destruct (compress_phases _ _ _ _ _ Hrun)
    as (pass & prep & sh & creates & k & ro & kp &
        Htr & Hpass & Hprep & Hcr & _ & Hro & _ & _ & Hdone & Hk & _).
  rewrite Htr in Hevs. apply app_inv_head in Hevs. subst evs.
  assert (Hp : exists T c bf bw, In (Prepare T c bf bw (Some true)) prep).
  { exists T0, c0, bf0, bw0. apply in_phases in Htrue as [Hin|[Hin|[Hin|[Hin|Hin]]]].
    - exfalso. exact (Forall_In _ _ _ Hpass Hin).
    - exact Hin.
    - exfalso. destruct (Forall_In _ _ _ Hcr Hin) as (? & _ & []).
    - exfalso. destruct (Forall_In _ _ _ (moveEvents_class _) Hin) as (_ & ? & _).
      discriminate.
    - exfalso. destruct (Forall_In _ _ _ (reorder_class _ _ _ Hro) Hin) as (_ & ? & _).
      discriminate. }
  destruct (Hdone (or_intror (or_intror (conj eq_refl Hp)))) as [_ Hdef].
  rewrite (Hk (or_intror (conj eq_refl Hp))), firstn_all. split.
  - destruct (Hdef c Hc) as (e & Hin & He). exists e.
    split; [rewrite !in_app_iff; auto|].
    destruct e; simpl in He; try contradiction; destruct He as (_ & -> & _); auto.
  - rewrite !in_app_iff. right. right. right. left.
    unfold moveEvents. apply in_map_iff. exists c. auto.
Qed.

(** X20. One shape serves for every column of a run: the columns that
    are created, complex or float, are all given the same shape, the one
    variable [shape] of [main]; the element type is float for
    WEIGHT_SPECTRUM and complex for any other name. *)
Theorem one_shape_for_all_columns o msPath w r w' :
  compress o msPath w = (r, w') ->
  exists evs sh, trace w' = trace w ++ evs /\
    forall e, In e evs -> isColumnCreation e = true ->
      exists c, In c (columnNames o) /\ definesColumn (elemTypeOf c) c sh e.
Proof.
  intros Hrun.
  destruct (compress_phases _ _ _ _ _ Hrun)
    as (pass & prep & sh & creates & k & ro & kp &
        Htr & Hpass & Hprep & Hcr & _ & Hro & _).
  eexists _, sh. split; [exact Htr|].
  intros e Hin He. apply in_phases in Hin as [Hin|[Hin|[Hin|[Hin|Hin]]]].
  - destruct (passEvent_class _ _ (Forall_In _ _ _ Hpass Hin)) as (_ & _ & _ & _ & _ & ? & _).
    congruence.
  - destruct (Forall_In _ _ _ (proj1 (prepared_events _ _ Hprep)) Hin) as (c & bf & bw & b & _ & ->).
    discriminate.
  - destruct (Forall_In _ _ _ Hcr Hin) as (c & Hc & Hstep).
    exists c. split; [exact Hc|]. destruct e; try discriminate; exact Hstep.
  - destruct (Forall_In _ _ _ (moveEvents_class _) Hin) as (_ & _ & _ & ? & _). congruence.
  - destruct (Forall_In _ _ _ (reorder_class _ _ _ Hro) Hin) as (_ & _ & _ & ? & _).
    congruence.
Qed.

(** X21. [PrepareReplacingColumn] is called once for each column, in the
    order of the list and with the element type that goes with the name,
    also after a call has reported [true]; only a failure ends the loop
    early. *)
Theorem prepare_is_called_for_every_column o msPath w r w' :
  compress o msPath w = (r, w') ->
  exists evs k, trace w' = trace w ++ evs /\
    omap preparedColumn evs =
      map (fun c => (elemTypeOf c, c)) (take k (columnNames o)) /\
    (r = Ok tt -> k = length (columnNames o)) /\
    ((exists e, In e evs /\ isMigration e = true /\ isPrepare e = false) ->
       k = length (columnNames o)).
Proof.
  intros Hrun.
  destruct (compress_phases _ _ _ _ _ Hrun)
    as (pass & prep & sh & creates & k & ro & kp &
        Htr & Hpass & Hprep & Hcr & _ & Hro & Hkp & Hstarted & _).
  eexists _, kp. split; [exact Htr|]. split; [|split; [exact Hkp|]].
  - rewrite !omap_app.
    rewrite (omap_preparedColumn_nil pass), (omap_preparedColumn_nil creates),
      (omap_preparedColumn_nil (moveEvents _)), (omap_preparedColumn_nil ro).
    + simpl. rewrite !app_nil_r. apply (prepared_events _ _ Hprep).
    + eapply List.Forall_impl; [|exact (reorder_class _ _ _ Hro)]. intros e He. apply He.
    + eapply List.Forall_impl; [|apply moveEvents_class]. intros e He. apply He.
    + eapply List.Forall_impl; [|exact Hcr]. intros e (c & _ & He).
      apply (creationStep_class _ _ _ _ He).
    + eapply List.Forall_impl; [|exact Hpass]. intros e He.
      apply (passEvent_class _ _ He).
  - intros (e & Hin & Hmig & Hnp).
    apply in_phases in Hin as [Hin|[Hin|[Hin|[Hin|Hin]]]].
    + destruct (passEvent_class _ _ (Forall_In _ _ _ Hpass Hin)) as (_ & ? & _). congruence.
    + destruct (Forall_In _ _ _ (proj1 (prepared_events _ _ Hprep)) Hin) as (c & bf & bw & b & _ & ->).
      discriminate.
    + apply Hstarted. left. intros ->. destruct Hin.
    + apply Hstarted. right. left. intros ->. destruct Hin.
    + apply Hstarted. right. right. intros ->. destruct Hin.
Qed.

(** X22. A column that is named twice cannot be replaced: the second
    [addColumn] of the name is refused, so a run in which a column is
    reported as replaced fails, and no data are moved and nothing is
    reordered. *)
Theorem duplicate_column_stops_the_replacement o msPath w r w' :
  compress o msPath w = (r, w') ->
  ~ List.NoDup (columnNames o) ->
  exists evs, trace w' = trace w ++ evs /\
    count isDataMove evs = 0%nat /\ count isReorder evs = 0%nat /\
    ((exists T c bf bw, In (Prepare T c bf bw (Some true)) evs) -> isOk r = false).
Proof.
  intros Hrun Hdup.
  destruct (compress_phases _ _ _ _ _ Hrun)
    as (pass & prep & sh & creates & k & ro & kp &
        Htr & Hpass & Hprep & Hcr & _ & Hro & _ & _ & Hdone & _).
  assert (Hk : k = 0%nat).
  { destruct k; [reflexivity|]. exfalso. apply Hdup, Hdone. left. discriminate. }
  assert (Hro0 : ro = []).
  { destruct ro; [reflexivity|]. exfalso. apply Hdup, Hdone. right. left. discriminate. }
  subst k ro. rewrite take_0 in Htr. simpl in Htr. rewrite app_nil_r in Htr.
  exists (pass ++ prep ++ creates). split; [exact Htr|].
  assert (Hclass : Forall (fun e => isDataMove e = false /\ isReorder e = false /\
                     (isPrepare e = true -> In e prep)) (pass ++ prep ++ creates)).
  { rewrite !Forall_app. split; [|split].
    - eapply List.Forall_impl; [|exact Hpass]. intros e He.
      destruct (passEvent_class _ _ He) as (_ & _ & Hn & _ & _ & _ & ? & ?).
      split; [auto|]. split; [auto|]. congruence.
    - rewrite List.Forall_forall. intros e Hin.
      destruct (Forall_In _ _ _ (proj1 (prepared_events _ _ Hprep)) Hin) as (c & bf & bw & b & _ & ->).
      auto.
    - eapply List.Forall_impl; [|exact Hcr]. intros e (c & _ & He).
      destruct (creationStep_class _ _ _ _ He) as (_ & Hn & ? & ? & _).
      split; [auto|]. split; [auto|]. congruence. }
  split; [apply count_zero; eapply List.Forall_impl; [|exact Hclass]; intros e He; apply He|].
  split; [apply count_zero; eapply List.Forall_impl; [|exact Hclass]; intros e He; apply He|].
  intros (T & c & bf & bw & Hin).
  destruct r as [[]| |]; [exfalso|reflexivity|reflexivity].
  apply Hdup, Hdone. right. right. split; [reflexivity|].
  exists T, c, bf, bw. exact (proj2 (proj2 (Forall_In _ _ _ Hclass Hin)) eq_refl).
Qed.

End Migration.

(** ** The ends of the command line *)

Section Edges.
Context `{H : Host}.

(** X23. The usage text is the only way to leave with 0 and without a
    table: [main] returns 0 without opening anything exactly when no
    argument is given. *)
Theorem usage_exactly_without_arguments argv disk :
  main argv disk = (Ok 0, None) <-> (length argv < 2)%nat.
Proof.
  unfold main. destruct (decide (length argv < 2)%nat) as [Hl|Hl].
  - split; auto.
  - split; [|intros; contradiction]. intros Hr. exfalso.
    destruct (parseOptions (tail argv) defaults) as [[o rest]|what|]; try discriminate.
    destruct rest as [|msPath rest]; [discriminate|].
    destruct (disk msPath) as [t|]; [|discriminate].
    destruct (compress _ _ _). discriminate.
Qed.

(** X24. The loop does not check that a word follows: when the command
    line ends with its options there is no path, and when it ends with an
    option that takes a value there is no value; in both cases the
    program reads [argv[argc]], the null pointer. *)
Theorem missing_word_is_read_behind_argv prog pre o disk :
  parseOptions pre defaults = Ok (o, []) ->
  (pre <> [] -> main (prog :: pre) disk = (Undefined, None)) /\
  (forall opt,
     In opt ["-data-bit-rate"; "-weight-bit-rate"; "-truncgaus"; "-column"] ->
     main (prog :: pre ++ [opt]) disk = (Undefined, None)).
Proof.
  intros Hp. split.
  - intros Hne. unfold main.
    destruct (decide (length (prog :: pre) < 2)%nat) as [Hl|_];
      [destruct pre; [contradiction | simpl in Hl; lia]|].
    cbn [tail]. rewrite Hp. reflexivity.
  - intros opt Hopt. unfold main.
    destruct (decide (length (prog :: pre ++ [opt]) < 2)%nat) as [Hl|_];
      [simpl in Hl; rewrite length_app in Hl; simpl in Hl; lia|].
    cbn [tail]. rewrite (parseOptions_append _ _ [opt] _ _ Hp).
    simpl in Hopt.
    repeat (destruct Hopt as [<-|Hopt]; [reflexivity|]). contradiction.
Qed.

(** X25. A command line of the path alone runs with the defaults of lines
    110-114 and 176: the column DATA only, 8 and 12 bits, the truncated
    Gaussian distribution at 2.5, AF normalization, and no reordering. *)
Theorem defaults_of_a_bare_run prog path disk r w :
  startsWithDash path = false ->
  main [prog; path] disk = (r, Some w) ->
  forall e, In e (trace w) ->
    match e with
    | OpenUpdate p => p = path
    | Get c _ => c = "DATA" \/ c = "FLAG"
    | Put c _ => c = "DATA"
    | Prepare T c b1 b2 _ => T = TpComplex /\ c = "DATA" /\ b1 = 8 /\ b2 = 12
    | AddColumnNew T c _ _ | AddColumnExisting T c _ | MoveData T c =>
        T = TpComplex /\ c = "DATA"
    | FindDataManager n => n = "DyscoStMan"
    | NewDyscoStMan b1 b2 => b1 = 8 /\ b2 = 12
    | SetTruncatedGaussian x => x = d_2_5
    | SetNorm n => n = AFNormalization
    | SetGaussian | SetUniform | SetStudentsT _ | ReorderTable _ => False
    end.
Proof.
  intros Hd Hmain e Hin.
  destruct (main_trace _ _ _ _ Hmain)
    as (o & rest & msPath & t & rp & wp & pass & prep & repl &
        Hp & _ & _ & _ & Htr & Hall1 & Hall2 & Hall3 & _).
  cbn [tail] in Hp. rewrite (parseOptions_word _ _ _ Hd) in Hp.
  injection Hp as <- <- <-.
  rewrite Htr in Hin. destruct Hin as [<-|Hin]; [reflexivity|].
  change (columnNames (defaultColumn defaults)) with ["DATA"] in Hall1, Hall2.
  rewrite !in_app_iff in Hin. rewrite List.Forall_forall in Hall1, Hall2, Hall3.
  destruct Hin as [Hin|[Hin|Hin]].
  - specialize (Hall1 e Hin). destruct e; simpl in Hall1; try contradiction.
    + destruct Hall1 as [->|[[<-|[]] _]]; auto.
    + destruct Hall1 as [[<-|[]] _]. reflexivity.
  - specialize (Hall2 e Hin). destruct e; simpl in Hall2; try contradiction.
    change (bitsPerFloat (defaultColumn defaults)) with 8 in Hall2.
    change (bitsPerWeight (defaultColumn defaults)) with 12 in Hall2.
    destruct Hall2 as (Hc & -> & -> & -> & _). destruct Hc as [<-|[]]. auto.
  - specialize (Hall3 e Hin).
    destruct e; simpl in Hall3; try contradiction; try discriminate; try exact Hall3.
    all: try (destruct Hall3 as [Hc ->]; destruct Hc as [<-|[]]; split; reflexivity).
    all: try (destruct Hall3 as [? Habs]; discriminate).
    all: destruct Hall3 as [-> ?]; reflexivity.
Qed.

End Edges.

(** ** The further properties at sample runs *)

Lemma option_words_compose_witness :
  parseOptions (["-reorder"; "-column"; "DATA"] ++ ["-uniform"; "ms"]) defaults =
  parseOptions ["-uniform"; "ms"] (push_columnName "DATA" (set_reorder true defaults)).
Proof. apply option_words_compose. reflexivity. Defined.

Lemma words_after_the_path_are_ignored_witness :
  @main refHost ("dscompress" :: ["-reorder"; "ms"] ++ ["-uniform"; "x"])
    (diskWith "ms" sampleTable) =
  @main refHost ("dscompress" :: ["-reorder"; "ms"]) (diskWith "ms" sampleTable).
Proof.
  apply (@words_after_the_path_are_ignored refHost "dscompress" ["-reorder"; "ms"]
           ["-uniform"; "x"] (diskWith "ms" sampleTable) (set_reorder true defaults) "ms" []).
  reflexivity.
Defined.

Lemma invalid_parameter_is_fatal_witness :
  @main refHost ("dscompress" :: ["-reorder"] ++ "-bits" :: ["8"; "ms"])
    (diskWith "ms" sampleTable) =
  (Throw ("Invalid parameter: " +:+ "-bits"), None).
Proof.
  apply (@invalid_parameter_is_fatal refHost "dscompress" ["-reorder"] "-bits" ["8"; "ms"]
           (diskWith "ms" sampleTable) (set_reorder true defaults)).
  - reflexivity.
  - reflexivity.
  - unfold optionWords. simpl. intros Hin.
    repeat (destruct Hin as [Hin|Hin]; [discriminate|]). contradiction.
Defined.


Lemma table_is_opened_once_witness :
  exists pre o msPath rest evs,
    tail ["dscompress"; "-reorder"; "ms"] = pre ++ msPath :: rest /\
    parseOptions pre defaults = Ok (o, []) /\
    startsWithDash msPath = false /\
    is_Some (diskWith "ms" sampleTable msPath) /\
    trace (worldOf reorderRun) = OpenUpdate msPath :: evs /\
    Forall (fun e => forall p, e <> OpenUpdate p) evs.
Proof.
  apply (@table_is_opened_once refHost ["dscompress"; "-reorder"; "ms"]
           (diskWith "ms" sampleTable) (fst reorderRun) (worldOf reorderRun)).
  vm_compute. reflexivity.
Defined.

Lemma bit_rate_numeral_witness :
  parseOptions ("-data-bit-rate" :: digitString [1; 0]%nat :: ["ms"]) defaults =
    parseOptions ["ms"] (set_bitsPerFloat (digitsNumber [1; 0]%nat) defaults) /\
  parseOptions ("-weight-bit-rate" :: digitString [1; 0]%nat :: ["ms"]) defaults =
    parseOptions ["ms"] (set_bitsPerWeight (digitsNumber [1; 0]%nat) defaults).
Proof.
  apply bit_rate_numeral.
  - repeat constructor.
  - vm_compute. reflexivity.
Defined.

Lemma negative_bit_rate_wraps_witness :
  parseOptions ("-data-bit-rate" :: String "-" (digitString [1]%nat) :: ["ms"]) defaults =
    parseOptions ["ms"] (set_bitsPerFloat (2 ^ 32 - digitsNumber [1]%nat) defaults) /\
  parseOptions ("-weight-bit-rate" :: String "-" (digitString [1]%nat) :: ["ms"]) defaults =
    parseOptions ["ms"] (set_bitsPerWeight (2 ^ 32 - digitsNumber [1]%nat) defaults).
Proof.
  apply negative_bit_rate_wraps.
  - repeat constructor.
  - vm_compute. split; [reflexivity | discriminate].
Defined.

Lemma bit_rate_without_number_is_zero_witness :
  parseOptions ("-data-bit-rate" :: String "x" "8" :: ["ms"]) defaults =
    parseOptions ["ms"] (set_bitsPerFloat 0 defaults) /\
  parseOptions ("-weight-bit-rate" :: String "x" "8" :: ["ms"]) defaults =
    parseOptions ["ms"] (set_bitsPerWeight 0 defaults).
Proof.
  apply bit_rate_without_number_is_zero.
  - reflexivity.
  - reflexivity.
  - discriminate.
  - discriminate.
Defined.

Lemma columns_in_order_witness :
  exists o,
    parseOptions (columnArgs ["WEIGHT_SPECTRUM"; "-reorder"] ++ "ms" :: []) defaults =
      Ok (o, "ms" :: []) /\
    columnNames (defaultColumn o) = ["WEIGHT_SPECTRUM"; "-reorder"].
Proof.
  apply (columns_in_order ["WEIGHT_SPECTRUM"; "-reorder"] "ms" []).
  reflexivity.
Defined.

Lemma pass_changes_values_only_witness :
  nrow (ms (snd passOnce)) = nrow sampleTable /\
  dataManagers (ms (snd passOnce)) = dataManagers sampleTable /\
  (forall c, ~ In c ["DATA"] -> columns (ms (snd passOnce)) !! c = columns sampleTable !! c) /\
  (forall c row,
     (layout <$> dataRow (ms (snd passOnce)) c row) = (layout <$> dataRow sampleTable c row)).
Proof.
  apply (pass_changes_values_only ["DATA"] (mkWorld sampleTable []) (fst passOnce) (snd passOnce)).
  vm_compute. reflexivity.
Defined.

Lemma second_pass_changes_no_value_witness :
  cellAt (ms (snd passTwice)) "DATA" 0 1 = cellAt (ms (snd passOnce)) "DATA" 0 1.
Proof.
  apply (second_pass_changes_no_value ["DATA"] (mkWorld sampleTable []) (snd passOnce)
           (snd passTwice)).
  - vm_compute. reflexivity.
  - vm_compute. reflexivity.
  - simpl. lia.
Defined.

Lemma unreadable_column_stops_the_run_witness :
  isOk (fst modelRun) = false /\
  exists evs, trace (snd modelRun) = [] ++ evs /\
    Forall (fun e => isFlagPass e = true) evs.
Proof.
  apply (@unreadable_column_stops_the_run refHost modelOptions "ms"
           (mkWorld sampleTable []) (fst modelRun) (snd modelRun) "MODEL_DATA").
  - vm_compute. reflexivity.
  - simpl. auto.
  - discriminate.
  - left. vm_compute. reflexivity.
Defined.

Lemma rows_must_conform_witness :
  (forall row, (row < 2)%nat -> exists dsh fsh, rowOk sampleTable "DATA" dsh fsh row) /\
  (forall row dsh fsh, (S row < 2)%nat ->
     rowOk sampleTable "DATA" dsh fsh row -> fits sampleTable "DATA" dsh fsh (S row)).
Proof.
  apply (rows_must_conform "DATA" (mkWorld sampleTable [])
           (snd (replaceFlaggedColumn "DATA" (mkWorld sampleTable [])))).
  - vm_compute. reflexivity.
  - discriminate.
Defined.

Lemma created_column_is_bound_to_dysco_witness :
  columns sampleTable !! "NEW" = None /\
  nrow (ms (snd newColumn)) = nrow sampleTable /\
  columns (ms (snd newColumn)) =
    <["NEW" := mkColumn DyscoStManName (freshColumn TpComplex (nrow sampleTable) [2%nat])]>
      (columns sampleTable) /\
  is_Some (dataManagers (ms (snd newColumn)) !! DyscoStManName) /\
  (forall m, m <> DyscoStManName ->
     dataManagers (ms (snd newColumn)) !! m = dataManagers sampleTable !! m) /\
  (is_Some (dataManagers sampleTable !! DyscoStManName) ->
     dataManagers (ms (snd newColumn)) = dataManagers sampleTable).
Proof.
  apply (@created_column_is_bound_to_dysco refHost TpComplex "NEW" [2%nat] 8 12
           AFNormalization TruncatedGaussianDistribution d_1_0 d_2_5
           (mkWorld sampleTable []) (snd newColumn)).
  vm_compute. reflexivity.
Defined.

Lemma failed_creation_leaves_the_table_witness :
  ms (snd takenColumn) = sampleTable.
Proof.
  apply (@failed_creation_leaves_the_table refHost TpComplex "DATA" [2%nat] 8 12
           AFNormalization TruncatedGaussianDistribution d_1_0 d_2_5
           (mkWorld sampleTable []) (fst takenColumn) (snd takenColumn)).
  - vm_compute. reflexivity.
  - vm_compute. reflexivity.
Defined.

Lemma one_manager_per_run_witness :
  (count isManagerCreation (trace (worldOf twoColumnMain)) <= 1)%nat /\
  In (AddColumnNew TpComplex "DATA" [2%nat]
        (mkDyscoStMan 8 12 TruncatedGaussianDistribution d_1_0 d_2_5 AFNormalization))
     (trace (worldOf twoColumnMain)) /\
  In (AddColumnExisting TpFloat "WEIGHT_SPECTRUM" [2%nat]) (trace (worldOf twoColumnMain)).
Proof.
  split; [|vm_compute; auto 30].
  apply (@one_manager_per_run refHost
           ["dscompress"; "-column"; "DATA"; "-column"; "WEIGHT_SPECTRUM"; "ms"]
           (diskWith "ms" sampleTable) (fst twoColumnMain) (worldOf twoColumnMain)).
  vm_compute. reflexivity.
Defined.

Lemma columns_are_created_then_moved_witness :
  exists pass prep creates k ro,
    trace (snd twoColumnRun) = [] ++ pass ++ prep ++ creates ++
      moveEvents (take k (columnNames twoColumnOptions)) ++ ro /\
    Forall (fun e => isFlagPass e = true) pass /\
    Forall (fun e => isPrepare e = true) prep /\
    Forall (fun e => isMigration e = true /\ isPrepare e = false /\
                     isDataMove e = false /\ isReorder e = false) creates /\
    (ro = [] \/ ro = [ReorderTable "ms"]) /\
    (k <> 0%nat ->
       forall c, In c (columnNames twoColumnOptions) ->
         exists e, In e creates /\ isColumnCreation e = true /\ columnOf e = Some c) /\
    (ro <> [] -> k = length (columnNames twoColumnOptions)).
Proof.
  apply (@columns_are_created_then_moved refHost twoColumnOptions "ms"
           (mkWorld sampleTable []) (fst twoColumnRun) (snd twoColumnRun)).
  vm_compute. reflexivity.
Defined.

Lemma all_columns_are_created_and_moved_witness :
  ((exists e, In e (trace (snd twoColumnRun)) /\ isColumnCreation e = true /\
              columnOf e = Some "DATA") /\
   In (MoveData (elemTypeOf "DATA") "DATA") (trace (snd twoColumnRun))) /\
  ((exists e, In e (trace (snd twoColumnRun)) /\ isColumnCreation e = true /\
              columnOf e = Some "WEIGHT_SPECTRUM") /\
   In (MoveData (elemTypeOf "WEIGHT_SPECTRUM") "WEIGHT_SPECTRUM")
     (trace (snd twoColumnRun))).
Proof.
  assert (Hrun : @compress refHost twoColumnOptions "ms" (mkWorld sampleTable [])
                 = (Ok tt, snd twoColumnRun)).
  { vm_compute. reflexivity. }
  assert (Htrue : exists T c bf bw,
            In (Prepare T c bf bw (Some true)) (trace (snd twoColumnRun))).
  { exists TpComplex, "DATA", 8, 12. vm_compute. auto 20. }
  split.
  - apply (@all_columns_are_created_and_moved refHost twoColumnOptions "ms"
             (mkWorld sampleTable []) (snd twoColumnRun) (trace (snd twoColumnRun))
             Hrun eq_refl Htrue "DATA").
    simpl. auto.
  - apply (@all_columns_are_created_and_moved refHost twoColumnOptions "ms"
             (mkWorld sampleTable []) (snd twoColumnRun) (trace (snd twoColumnRun))
             Hrun eq_refl Htrue "WEIGHT_SPECTRUM").
    simpl. auto.
Defined.

Lemma one_shape_for_all_columns_witness :
  exists evs sh, trace (snd twoColumnRun) = [] ++ evs /\
    forall e, In e evs -> isColumnCreation e = true ->
      exists c, In c (columnNames twoColumnOptions) /\
                definesColumn (elemTypeOf c) c sh e.
Proof.
  apply (@one_shape_for_all_columns refHost twoColumnOptions "ms"
           (mkWorld sampleTable []) (fst twoColumnRun) (snd twoColumnRun)).
  vm_compute. reflexivity.
Defined.

Lemma prepare_is_called_for_every_column_witness :
  exists evs k, trace (snd twoColumnRun) = [] ++ evs /\
    omap preparedColumn evs =
      map (fun c => (elemTypeOf c, c)) (take k (columnNames twoColumnOptions)) /\
    (fst twoColumnRun = Ok tt -> k = length (columnNames twoColumnOptions)) /\
    ((exists e, In e evs /\ isMigration e = true /\ isPrepare e = false) ->
       k = length (columnNames twoColumnOptions)).
Proof.
  apply (@prepare_is_called_for_every_column refHost twoColumnOptions "ms"
           (mkWorld sampleTable []) (fst twoColumnRun) (snd twoColumnRun)).
  vm_compute. reflexivity.
Defined.

Lemma duplicate_column_stops_the_replacement_witness :
  exists evs, trace (snd twiceRun) = [] ++ evs /\
    count isDataMove evs = 0%nat /\ count isReorder evs = 0%nat /\
    ((exists T c bf bw, In (Prepare T c bf bw (Some true)) evs) -> isOk (fst twiceRun) = false).
Proof.
  apply (@duplicate_column_stops_the_replacement refHost twiceOptions "ms"
           (mkWorld sampleTable []) (fst twiceRun) (snd twiceRun)).
  - vm_compute. reflexivity.
  - simpl. intros Hnd. apply NoDup_cons_iff in Hnd as [Hni _]. apply Hni. left. reflexivity.
Defined.

Lemma missing_word_is_read_behind_argv_witness :
  (["-reorder"] <> [] ->
   @main refHost ("dscompress" :: ["-reorder"]) (diskWith "ms" sampleTable) =
     (Undefined, None)) /\
  (forall opt,
     In opt ["-data-bit-rate"; "-weight-bit-rate"; "-truncgaus"; "-column"] ->
     @main refHost ("dscompress" :: ["-reorder"] ++ [opt]) (diskWith "ms" sampleTable) =
       (Undefined, None)).
Proof.
  apply (@missing_word_is_read_behind_argv refHost "dscompress" ["-reorder"]
           (set_reorder true defaults) (diskWith "ms" sampleTable)).
  reflexivity.
Defined.

Lemma defaults_of_a_bare_run_witness :
  In (NewDyscoStMan 8 12) (trace (worldOf bareRun)) /\
  In (SetTruncatedGaussian d_2_5) (trace (worldOf bareRun)) /\
  (8 = 8 /\ 12 = 12).
Proof.
  assert (Hin : In (NewDyscoStMan 8 12) (trace (worldOf bareRun))).
  { vm_compute. auto 20. }
  split; [exact Hin|]. split; [vm_compute; auto 20|].
  refine (@defaults_of_a_bare_run refHost "dscompress" "ms" (diskWith "ms" sampleTable)
            (fst bareRun) (worldOf bareRun) _ _ (NewDyscoStMan 8 12) Hin).
  - reflexivity.
  - vm_compute. reflexivity.
Defined.
